(** * Skip-GANomaly: evaluation metrics and visualisation sink

    A shallow embedding of [lib/evaluate.py] and [lib/visualizer.py].

    Conventions of the embedding:
    - a Python float (a score, a threshold, a rate, a pixel) is a rational
      [Q]; comparisons are the exact ones, and the literals [0.20] and
      [1e-5] stand for their decimal values; arithmetic is exact, and where
      a statement depends on the rounding of doubles the computation is
      spelled out in IEEE 754 binary64 ([Binary64]);
    - a binary label or prediction ([0]/[1]) is a [bool];
    - a numpy array or tensor that the program mutates lives in a store
      indexed by references, so that aliases observe the mutation;
    - a raised exception is a [Raise] result; the store, the standard
      output, the files written and the dashboard calls made so far are
      kept when an exception is raised, as in Python;
    - the routines of sklearn, scipy, numpy and pandas that the program
      calls are modelled after their documented behaviour on binary labels;
      the warnings they emit are left out. *)

From Stdlib Require Import QArith Qabs Qminmax Lqa ZArith Lia.
From Stdlib Require Import Ascii DecimalString DecimalPos DecimalN.
From Stdlib Require SpecFloat.
From stdpp Require Import gmap strings list sorting.

Local Open Scope string_scope.
Local Open Scope list_scope.
Local Open Scope nat_scope.

(** ** Exceptions, results and the world the program acts on *)

Inductive exn : Type :=
  | ValueError
  | NotImplementedError (msg : string)
  | IndexError
  | AttributeError
  | RuntimeError
  | UndefinedRate.
(* [UndefinedRate] is no exception of Python.  It marks the one place
   where the model stops short of the program: sklearn's [roc_curve]
   answers labels of a single class with NaN rates and the program goes
   on with them, which rationals cannot carry.  No statement below is
   about what the program does from there on. *)

Inductive res (A : Type) : Type :=
  | Ok (a : A)
  | Raise (e : exn).
Arguments Ok {A} a.
Arguments Raise {A} e.

Definition loc := nat.

(** What a rendered ROC figure shows. *)
Record figure := Figure {
  fig_fpr : list Q;
  fig_tpr : list Q;
  fig_auc : Q;
  fig_eer : Q }.

Inductive file_event : Type :=
  | SaveFig (path : string) (fig : figure)
  | SaveImage (path : string) (img : list Q) (normalize : bool).

Inductive board_event : Type :=
  | AddImages (tag : string) (img : list Q) (global_step : Z).

Record world := World {
  arrays : gmap loc (list Q);
  stdout : list string;
  files : list file_event;
  board : list board_event }.

Definition M (A : Type) : Type := world -> res A * world.

Definition ret {A} (a : A) : M A := fun w => (Ok a, w).

Definition bind {A B} (m : M A) (k : A -> M B) : M B :=
  fun w => match m w with
           | (Ok a, w') => k a w'
           | (Raise e, w') => (Raise e, w')
           end.

Definition raise {A} (e : exn) : M A := fun w => (Raise e, w).

Definition lift {A} (r : res A) : M A := fun w => (r, w).

#[global] Instance M_ret : MRet M := @ret.
#[global] Instance M_bind : MBind M := fun A B k m => bind m k.

(** [print(text)] *)
Definition print (text : string) : M unit :=
  fun w => (Ok tt, World (arrays w) (stdout w ++ [text]) (files w) (board w)).

(** Reading and replacing the array behind a reference. *)
Definition read_array (r : loc) : M (list Q) :=
  fun w => (Ok (arrays w !!! r), w).

Definition write_array (r : loc) (a : list Q) : M unit :=
  fun w => (Ok tt, World (<[r := a]> (arrays w)) (stdout w) (files w) (board w)).

(** Writing a figure or an image into a directory that exists, which is
    what the callers promise; the failure of the library on a missing
    directory is not part of the model. *)
Definition write_file (e : file_event) : M unit :=
  fun w => (Ok tt, World (arrays w) (stdout w) (files w ++ [e]) (board w)).

Definition to_board (e : board_event) : M unit :=
  fun w => (Ok tt, World (arrays w) (stdout w) (files w) (board w ++ [e])).

(** [for x in xs: s = body(s, x)] *)
Fixpoint for_each {A S : Type} (xs : list A) (body : S -> A -> M S) (s : S) : M S :=
  match xs with
  | [] => ret s
  | x :: xs' => s' ← body s x; for_each xs' body s'
  end.

(** ** The statistics routines of sklearn that the program calls *)

Module Sklearn.

Definition of_count (n : nat) : Q := inject_Z (Z.of_nat n).

(** The sorted distinct classes that occur in either sequence. *)
Definition unique_labels (y_true y_pred : list bool) : list bool :=
  filter (λ c, c ∈ y_true ++ y_pred) [false; true].

Definition count_pairs (i j : bool) (ps : list (bool * bool)) : nat :=
  length (filter (λ p, p = (i, j)) ps).

(** [confusion_matrix(y_true, y_pred)]: one row and one column per class
    that occurs, entry [i][j] counting the samples of true class [i]
    predicted as [j]; so one entry in all when a single class occurs, and
    none without samples.  Sequences of different lengths are refused. *)
Definition confusion_matrix (y_true y_pred : list bool) : res (list (list nat)) :=
  if negb (length y_true =? length y_pred) then Raise ValueError
  else
    let labels := unique_labels y_true y_pred in
    Ok ((λ i, (λ j, count_pairs i j (zip y_true y_pred)) <$> labels) <$> labels).

(** [.ravel()] *)
Definition ravel (m : list (list nat)) : list nat := concat m.

(** Division that answers [0] on a zero denominator
    ([zero_division="warn"]). *)
Definition prf_divide (num den : nat) : Q :=
  if den =? 0 then 0%Q else (of_count num / of_count den)%Q.

Definition count_true (l : list bool) : nat := length (filter (λ b, b = true) l).

(** [precision_recall_fscore_support(y_true, y_pred, average="binary",
    pos_label=1)].  Sequences of different lengths are refused, and so are
    sequences without samples. *)
Definition precision_recall_fscore_support (y_true y_pred : list bool)
  : res (Q * Q * Q * option nat) :=
  if negb (length y_true =? length y_pred) then Raise ValueError
  else if length y_true =? 0 then Raise ValueError
  else
    let present := unique_labels y_true y_pred in
    if negb (bool_decide (true ∈ present)) && (2 <=? length present) then Raise ValueError
    else
      let tp_sum := count_pairs true true (zip y_true y_pred) in
      let pred_sum := count_true y_pred in
      let true_sum := count_true y_true in
      let precision := prf_divide tp_sum pred_sum in
      let recall := prf_divide tp_sum true_sum in
      let denom := (precision + recall)%Q in
      let denom := if Qeq_bool denom 0 then 1%Q else denom in
      let f_score := (2 * precision * recall / denom)%Q in
      Ok (precision, recall, f_score, None).

(** [f1_score(y_true, y_pred)] *)
Definition f1_score (y_true y_pred : list bool) : res Q :=
  match precision_recall_fscore_support y_true y_pred with
  | Ok (_, _, f, _) => Ok f
  | Raise e => Raise e
  end.

End Sklearn.

(** ** lib/evaluate.py: the PR-curve sampler *)

Record pr_lists := PrLists {
  precisions : list Q;
  recalls : list Q;
  tn_counts : list nat;
  fp_counts : list nat;
  fn_counts : list nat;
  tp_counts : list nat }.

(** [tn, fp, fn, tp = <array>]: unpacking needs exactly four entries. *)
Definition unpack4 (a : list nat) : res (nat * nat * nat * nat) :=
  match a with
  | [tn; fp; fn; tp] => Ok (tn, fp, fn, tp)
  | _ => Raise ValueError
  end.

(** [[1 if ele >= threshold else 0 for ele in scores]] *)
Definition binarize_at (threshold : Q) (scores : list Q) : list bool :=
  (λ ele, if Qle_bool threshold ele then true else false) <$> scores.

Definition show_class (b : bool) : string := if b then "1" else "0".

Definition skip_message (scores_new : list bool) : string :=
  "y_preds_new did only contain the element " +:+ show_class (hd false scores_new)
  +:+ "... Continuing with next iteration!".

(** The body of the loop over the thresholds. *)
Definition pr_curve_body (labels : list bool) (scores : list Q)
    (acc : pr_lists) (threshold : Q) : M pr_lists :=
  let scores_new := binarize_at threshold scores in
  cm ← lift (Sklearn.confusion_matrix labels scores_new);
  '(tn, fp, fn, tp) ← lift (unpack4 (Sklearn.ravel cm));
  if size (list_to_set scores_new : gset bool) =? 1 then
    print (skip_message scores_new);; ret acc
  else
    '(precision, recall, _, _) ←
      lift (Sklearn.precision_recall_fscore_support labels scores_new);
    ret (PrLists (precisions acc ++ [precision]) (recalls acc ++ [recall])
                 (tn_counts acc ++ [tn]) (fp_counts acc ++ [fp])
                 (fn_counts acc ++ [fn]) (tp_counts acc ++ [tp])).

(** The seven values the sampler returns, in the order of the source. *)
Record pr_curve_values := PrCurveValues {
  out_tp : list nat;
  out_fp : list nat;
  out_tn : list nat;
  out_fn : list nat;
  out_precision : list Q;
  out_recall : list Q;
  out_count : nat }.

Definition get_values_for_pr_curve (labels : list bool) (scores thresholds : list Q)
    : M pr_curve_values :=
  acc ← for_each thresholds (pr_curve_body labels scores) (PrLists [] [] [] [] [] []);
  ret (PrCurveValues (tp_counts acc) (fp_counts acc) (tn_counts acc) (fn_counts acc)
                     (precisions acc) (recalls acc) (length thresholds)).


(** ** What the sampler records for one threshold *)

Section PrCurveFacts.

Variables (labels : list bool) (scores : list Q).

Definition confusion_at (i j : bool) (threshold : Q) : nat :=
  Sklearn.count_pairs i j (zip labels (binarize_at threshold scores)).

Definition tn_at := confusion_at false false.
Definition fp_at := confusion_at false true.
Definition fn_at := confusion_at true false.
Definition tp_at := confusion_at true true.

Definition precision_at (threshold : Q) : Q :=
  Sklearn.prf_divide (tp_at threshold)
    (Sklearn.count_true (binarize_at threshold scores)).

Definition recall_at (threshold : Q) : Q :=
  Sklearn.prf_divide (tp_at threshold) (Sklearn.count_true labels).

(** The binarized predictions are all one class. *)
Definition one_class (preds : list bool) : Prop :=
  Forall (λ p, p = true) preds ∨ Forall (λ p, p = false) preds.

#[global] Instance one_class_dec preds : Decision (one_class preds).
Proof. unfold one_class. apply _. Defined.

(** The guard of the source: [len(set(scores_new)) == 1]. *)
Definition skipped (threshold : Q) : Prop :=
  size (list_to_set (binarize_at threshold scores) : gset bool) = 1.

#[global] Instance skipped_dec threshold : Decision (skipped threshold).
Proof. unfold skipped. apply _. Defined.

Definition retained (thresholds : list Q) : list Q :=
  filter (λ t, ¬ skipped t) thresholds.

(** The lists after the entries of the thresholds [ts] were appended. *)
Definition extend (acc : pr_lists) (ts : list Q) : pr_lists :=
  PrLists (precisions acc ++ (precision_at <$> ts)) (recalls acc ++ (recall_at <$> ts))
          (tn_counts acc ++ (tn_at <$> ts)) (fp_counts acc ++ (fp_at <$> ts))
          (fn_counts acc ++ (fn_at <$> ts)) (tp_counts acc ++ (tp_at <$> ts)).

(** The diagnostics printed for the thresholds of [ts] that are skipped. *)
Definition diagnostics (ts : list Q) : list string :=
  (λ t, skip_message (binarize_at t scores)) <$> filter skipped ts.

Definition with_stdout (w : world) (lines : list string) : world :=
  World (arrays w) (stdout w ++ lines) (files w) (board w).

(** The confusion matrix at the threshold is the full two-by-two one:
    sequences of one length, and both classes among the labels and the
    binarized predictions taken together. *)
Definition two_by_two (threshold : Q) : Prop :=
  length labels = length scores
  ∧ false ∈ labels ++ binarize_at threshold scores
  ∧ true ∈ labels ++ binarize_at threshold scores.

#[global] Instance two_by_two_dec threshold : Decision (two_by_two threshold).
Proof. unfold two_by_two. apply _. Defined.

End PrCurveFacts.

(** A world in which nothing has happened yet. *)
Definition w0 : world := World ∅ [] [] [].

(** ** Sorting, as numpy's stable sort does it *)

Fixpoint insert_by {A} (key : A -> Q) (x : A) (l : list A) : list A :=
  match l with
  | [] => [x]
  | y :: l' => if Qle_bool (key y) (key x) then y :: insert_by key x l' else x :: l
  end.

(** Stable ascending sort by [key]: elements with equal keys keep their
    order. *)
Definition stable_sort_by {A} (key : A -> Q) (l : list A) : list A :=
  foldr (λ x sorted, insert_by key x sorted) [] (reverse l).

(** [keys.argsort()]: the positions of [keys] in ascending order of their
    keys.  Ties are ordered as a stable sort orders them; which position
    comes first among equal keys is all that the sort kind decides. *)
Definition argsort (keys : list Q) : list nat :=
  snd <$> stable_sort_by fst (zip keys (seq 0 (length keys))).

(** ** sklearn's ROC routines *)

Module Roc.

Import Sklearn.

(** A threshold of a curve: a score of the input, or the [np.inf] that
    [roc_curve] puts in front of the scores. *)
Inductive cut : Type :=
  | Inf
  | Finite (s : Q).

(** The order of thresholds: [np.inf] lies above every score. *)
Definition cut_lt (a b : cut) : Prop :=
  match a, b with
  | Finite x, Finite y => (x < y)%Q
  | Finite _, Inf => True
  | Inf, _ => False
  end.

(** One point of the curve before normalisation: the false positives and
    the true positives among the samples scored at least [thr]. *)
Record point := Point { fps : nat; tps : nat; thr : cut }.

(** The samples in decreasing order of score:
    [np.argsort(y_score, kind="mergesort")[::-1]]. *)
Definition by_decreasing_score (y_true : list bool) (y_score : list Q)
  : list (Q * bool) :=
  reverse (stable_sort_by fst (zip y_score y_true)).

(** The running counts along the sorted samples, recorded at the last
    sample of every run of equal scores: the cumulative sums taken at
    [threshold_idxs]. *)
Fixpoint clf_walk (fp tp : nat) (l : list (Q * bool)) : list point :=
  match l with
  | [] => []
  | (s, y) :: rest =>
      let fp' := if y then fp else S fp in
      let tp' := if y then S tp else tp in
      match rest with
      | [] => [Point fp' tp' (Finite s)]
      | (s', _) :: _ =>
          if Qeq_bool s s' then clf_walk fp' tp' rest
          else Point fp' tp' (Finite s) :: clf_walk fp' tp' rest
      end
  end.

(** [_binary_clf_curve(y_true, y_score)] *)
Definition binary_clf_curve (y_true : list bool) (y_score : list Q) : res (list point) :=
  if negb (length y_true =? length y_score) then Raise ValueError
  else match y_true with
       | [] => Raise IndexError
       | _ => Ok (clf_walk 0 0 (by_decreasing_score y_true y_score))
       end.

(** A point is on a straight stretch when the second differences of both
    counts vanish around it. *)
Definition bends (p c n : point) : bool :=
  negb ((Z.of_nat (fps n) - 2 * Z.of_nat (fps c) + Z.of_nat (fps p) =? 0)%Z
        && (Z.of_nat (tps n) - 2 * Z.of_nat (tps c) + Z.of_nat (tps p) =? 0)%Z).

Fixpoint drop_straight (p : point) (l : list point) : list point :=
  match l with
  | c :: ((n :: _) as rest) =>
      if bends p c n then c :: drop_straight c rest else drop_straight c rest
  | _ => l
  end.

(** [drop_intermediate=True]: the first and the last point stay, a point
    in between stays when the curve bends there. *)
Definition drop_intermediate (l : list point) : list point :=
  match l with
  | p :: rest => if 2 <? length l then p :: drop_straight p rest else l
  | [] => []
  end.

(** The counts of a curve divided by those of its last point. *)
Definition false_positive_rates (final : point) (curve : list point) : list Q :=
  (λ c, of_count (fps c) / of_count (fps final))%Q <$> curve.

Definition true_positive_rates (final : point) (curve : list point) : list Q :=
  (λ c, of_count (tps c) / of_count (tps final))%Q <$> curve.

Definition rate_point (final c : point) : Q * Q :=
  ((of_count (fps c) / of_count (fps final))%Q,
   (of_count (tps c) / of_count (tps final))%Q).

(** [roc_curve(y_true, y_score)].  The curve starts at (0, 0) under the
    added threshold [np.inf]; the counts are divided by their last values.
    A class without samples leaves a rate undefined: sklearn answers with
    NaN rates there, which are outside this model ([UndefinedRate]). *)
Definition roc_curve (y_true : list bool) (y_score : list Q)
  : res (list Q * list Q * list cut) :=
  match binary_clf_curve y_true y_score with
  | Raise e => Raise e
  | Ok curve =>
      let curve := Point 0 0 Inf :: drop_intermediate curve in
      match last curve with
      | None => Raise IndexError
      | Some final =>
          if (fps final =? 0) || (tps final =? 0) then Raise UndefinedRate
          else Ok (false_positive_rates final curve,
                   true_positive_rates final curve,
                   thr <$> curve)
      end
  end.

(** Along a curve neither count decreases. *)
Definition monotone (curve : list point) : Prop :=
  StronglySorted (λ a b, fps a ≤ fps b ∧ tps a ≤ tps b) curve.

(** The samples of one class in a list of scored samples. *)
Definition of_class (b : bool) (l : list (Q * bool)) : list (Q * bool) :=
  filter (λ p, p.2 = b) l.

(** [np.trapz(y, x)] *)
Fixpoint trapz (y x : list Q) : Q :=
  match x, y with
  | x0 :: ((x1 :: _) as xs), y0 :: ((y1 :: _) as ys) =>
      ((x1 - x0) * (y1 + y0) / 2 + trapz ys xs)%Q
  | _, _ => 0%Q
  end.

(** [np.diff(x)] *)
Fixpoint diff (x : list Q) : list Q :=
  match x with
  | x0 :: ((x1 :: _) as xs) => (x1 - x0)%Q :: diff xs
  | _ => []
  end.

(** [auc(x, y)]: the trapezoidal area, for abscissae that do not change
    direction. *)
Definition auc (x y : list Q) : res Q :=
  if negb (length x =? length y) then Raise ValueError
  else if length x <? 2 then Raise ValueError
  else
    let dx := diff x in
    if existsb (λ d, negb (Qle_bool 0 d)) dx then
      if forallb (λ d, Qle_bool d 0) dx then Ok (- trapz y x)%Q
      else Raise ValueError
    else Ok (trapz y x).

(** The recall at a point of the curve, for [p] positive samples in all;
    without a positive sample sklearn sets the recall to one at every
    threshold. *)
Definition recall_of (p : nat) (c : point) : Q :=
  if p =? 0 then 1%Q else (of_count (tps c) / of_count p)%Q.

(** [average_precision_score(y_true, y_score)]: the sum over the
    thresholds, in decreasing order, of the gain in recall times the
    precision reached. *)
Fixpoint ap_sum (p : nat) (prev_recall : Q) (curve : list point) : Q :=
  match curve with
  | [] => 0%Q
  | c :: rest =>
      let precision := prf_divide (tps c) (tps c + fps c) in
      let recall := recall_of p c in
      ((recall - prev_recall) * precision + ap_sum p recall rest)%Q
  end.

Definition average_precision_score (y_true : list bool) (y_score : list Q) : res Q :=
  match binary_clf_curve y_true y_score with
  | Raise e => Raise e
  | Ok curve =>
      match last curve with
      | None => Raise IndexError
      | Some final => Ok (ap_sum (tps final) 0%Q curve)
      end
  end.

End Roc.

(** ** The area under the ROC curve in double precision

    [roc_curve] divides the counts and [auc] sums the trapezoids in IEEE
    754 binary64, where every operation rounds to the nearest double.  The
    operations are those of the reference implementation [SpecFloat]. *)

Module Binary64.

Definition float : Type := SpecFloat.spec_float.

Definition prec : Z := 53.
Definition emax : Z := 1024.

Definition add : float -> float -> float := SpecFloat.SFadd prec emax.
Definition sub : float -> float -> float := SpecFloat.SFsub prec emax.
Definition mul : float -> float -> float := SpecFloat.SFmul prec emax.
Definition div : float -> float -> float := SpecFloat.SFdiv prec emax.
Definition ltb : float -> float -> bool := SpecFloat.SFltb.
Definition leb : float -> float -> bool := SpecFloat.SFleb.
Definition eqb : float -> float -> bool := SpecFloat.SFeqb.
Definition opp : float -> float := SpecFloat.SFopp.

(** A count as a double. *)
Definition of_count (n : nat) : float :=
  SpecFloat.binary_normalize prec emax (Z.of_nat n) 0 false.

Definition zero : float := of_count 0.
Definition one : float := of_count 1.
Definition two : float := of_count 2.

(** [fps / fps[-1]] and [tps / tps[-1]] *)
Definition false_positive_rates (final : Roc.point) (curve : list Roc.point)
  : list float :=
  (λ c, div (of_count (Roc.fps c)) (of_count (Roc.fps final))) <$> curve.

Definition true_positive_rates (final : Roc.point) (curve : list Roc.point)
  : list float :=
  (λ c, div (of_count (Roc.tps c)) (of_count (Roc.tps final))) <$> curve.

(** [np.diff(x)] *)
Fixpoint diff (x : list float) : list float :=
  match x with
  | x0 :: ((x1 :: _) as xs) => sub x1 x0 :: diff xs
  | _ => []
  end.

(** One pass of numpy's unrolled loop: the next eight terms are added to
    the eight partial sums. *)
Definition add_block (r block : list float) : list float := zip_with add r block.

Fixpoint add_blocks (blocks : nat) (r a : list float) : list float * list float :=
  match blocks with
  | O => (r, a)
  | S blocks' => add_blocks blocks' (add_block r (take 8 a)) (drop 8 a)
  end.

(** [a.sum()] on an array of doubles, numpy's pairwise summation: fewer
    than eight terms are added from left to right; up to 128 terms are
    added into eight partial sums, which are then added in pairs, and the
    terms left over are added last; a longer array is split in two.  The
    sign of a zero sum is left out. *)
Fixpoint pairwise_sum (fuel : nat) (a : list float) : float :=
  let n := length a in
  if n <? 8 then foldl add zero a
  else if n <=? 128 then
    let '(r, rest) := add_blocks (n / 8 - 1) (take 8 a) (drop 8 a) in
    match r with
    | [r0; r1; r2; r3; r4; r5; r6; r7] =>
        foldl add (add (add (add r0 r1) (add r2 r3)) (add (add r4 r5) (add r6 r7))) rest
    | _ => zero
    end
  else
    match fuel with
    | O => zero
    | S fuel' =>
        let n2 := (n / 2 - (n / 2) mod 8)%nat in
        add (pairwise_sum fuel' (take n2 a)) (pairwise_sum fuel' (drop n2 a))
    end.

Definition np_sum (a : list float) : float := pairwise_sum (length a) a.

(** [np.trapz(y, x)]: [(diff(x) * (y[1:] + y[:-1]) / 2.0).sum()] *)
Definition trapz (y x : list float) : float :=
  np_sum ((λ v, div v two) <$> zip_with mul (diff x) (zip_with add (tail y) y)).

(** [auc(x, y)] *)
Definition auc (x y : list float) : res float :=
  if negb (length x =? length y) then Raise ValueError
  else if length x <? 2 then Raise ValueError
  else
    let dx := diff x in
    if existsb (λ d, ltb d zero) dx then
      if forallb (λ d, leb d zero) dx then Ok (opp (trapz y x))
      else Raise ValueError
    else Ok (trapz y x).

(** [roc_auc] as [roc] computes it: [roc_curve] on the labels and the
    scores, then [auc] on its rates. *)
Definition roc_auc (y_true : list bool) (y_score : list Q) : res float :=
  match Roc.binary_clf_curve y_true y_score with
  | Raise e => Raise e
  | Ok curve =>
      let curve := Roc.Point 0 0 Roc.Inf :: Roc.drop_intermediate curve in
      match last curve with
      | None => Raise IndexError
      | Some final =>
          if (Roc.fps final =? 0) || (Roc.tps final =? 0) then Raise UndefinedRate
          else auc (false_positive_rates final curve) (true_positive_rates final curve)
      end
  end.

End Binary64.

Definition Qltb (x y : Q) : bool := negb (Qle_bool y x).

(** Two values of opposite signs. *)
Definition sign_change (u v : Q) : Prop :=
  (u < 0 ∧ 0 < v)%Q ∨ (0 < u ∧ v < 0)%Q.

(** ** scipy's linear interpolant and root finder *)

Module Scipy.

(** [np.interp(x, xp, fp)] inside the range of [xp]: with [j] the last
    position such that [xp[j] <= x], the value is [fp[j]] when [j] is the
    last position or [xp[j] = x], and on the segment to the next point
    otherwise. *)
Fixpoint np_interp (pts : list (Q * Q)) (x : Q) : Q :=
  match pts with
  | [] => 0%Q
  | (x0, y0) :: rest =>
      match rest with
      | [] => y0
      | (x1, y1) :: _ =>
          if Qle_bool x1 x then np_interp rest x
          else if Qeq_bool x0 x then y0
          else ((y1 - y0) / (x1 - x0) * (x - x0) + y0)%Q
      end
  end.

(** [interp1d(x, y)]: the points sorted by abscissa; a call outside their
    range is an error ([bounds_error]). *)
Definition interp1d (x y : list Q) : res (Q -> res Q) :=
  if negb (length x =? length y) then Raise ValueError
  else
    let pts := stable_sort_by fst (zip x y) in
    match pts with
    | [] => Raise ValueError
    | (lo, _) :: _ =>
        match last pts with
        | None => Raise ValueError
        | Some (hi, _) =>
            Ok (λ x_new, if Qle_bool lo x_new && Qle_bool x_new hi
                         then Ok (np_interp pts x_new)
                         else Raise ValueError)
        end
    end.

(** A root finder after [scipy.optimize.brentq], run in exact arithmetic
    with scipy's default tolerances and iteration bound. *)
Record brent := Brent {
  xpre : Q; fpre : Q; xcur : Q; fcur : Q; xblk : Q; fblk : Q; spre : Q; scur : Q }.

Definition xtol : Q := 2e-12%Q.
Definition rtol : Q := (4 * (1 # 4503599627370496))%Q.
Definition maxiter : nat := 100.

Definition opposite (a b : Q) : bool :=
  negb (Qeq_bool a 0) && negb (Qeq_bool b 0)
  && negb (Bool.eqb (Qle_bool 0 a) (Qle_bool 0 b)).

Definition Qlt_abs (a b : Q) : bool := negb (Qle_bool (Qabs b) (Qabs a)).

Definition rebracket (s : brent) : brent :=
  if opposite (fpre s) (fcur s)
  then Brent (xpre s) (fpre s) (xcur s) (fcur s) (xpre s) (fpre s)
             (xcur s - xpre s) (xcur s - xpre s)
  else s.

Definition best_last (s : brent) : brent :=
  if Qlt_abs (fblk s) (fcur s)
  then Brent (xcur s) (fcur s) (xblk s) (fblk s) (xcur s) (fcur s) (spre s) (scur s)
  else s.

Definition trial_step (s : brent) : Q :=
  if Qeq_bool (xpre s) (xblk s)
  then (- fcur s * (xcur s - xpre s) / (fcur s - fpre s))%Q
  else
    let dpre := ((fpre s - fcur s) / (xpre s - xcur s))%Q in
    let dblk := ((fblk s - fcur s) / (xblk s - xcur s))%Q in
    (- fcur s * (fblk s * dblk - fpre s * dpre) / (dblk * dpre * (fblk s - fpre s)))%Q.

Fixpoint brent_loop (f : Q -> res Q) (iter : nat) (s : brent) : res Q :=
  match iter with
  | O => Raise RuntimeError
  | S iter' =>
      let s := best_last (rebracket s) in
      let delta := ((xtol + rtol * Qabs (xcur s)) / 2)%Q in
      let sbis := ((xblk s - xcur s) / 2)%Q in
      if Qeq_bool (fcur s) 0 || Qlt_abs sbis delta then Ok (xcur s)
      else
        let '(spre', scur') :=
          if Qlt_abs delta (spre s) && Qlt_abs (fcur s) (fpre s) then
            let stry := trial_step s in
            if Qlt_abs (2 * stry) (Qmin (Qabs (spre s)) (3 * Qabs sbis - delta))
            then (scur s, stry) else (sbis, sbis)
          else (sbis, sbis) in
        let x := if Qlt_abs delta scur' then (xcur s + scur')%Q
                 else if Qltb 0 sbis then (xcur s + delta)%Q
                 else (xcur s - delta)%Q in
        let x := Qred x in
        match f x with
        | Raise e => Raise e
        | Ok fx =>
            brent_loop f iter'
              (Brent (xcur s) (fcur s) x fx (xblk s) (fblk s) spre' scur')
        end
  end.

Definition brentq (f : Q -> res Q) (xa xb : Q) : res Q :=
  match f xa, f xb with
  | Raise e, _ => Raise e
  | _, Raise e => Raise e
  | Ok fa, Ok fb =>
      if Qeq_bool fa 0 then Ok xa
      else if Qeq_bool fb 0 then Ok xb
      else if Bool.eqb (Qle_bool 0 fa) (Qle_bool 0 fb) then Raise ValueError
      else brent_loop f maxiter (Brent xa fa xb fb 0 0 0 0)
  end.

(** What holds of the state of the iteration whenever the loop is entered:
    the values belong to the points, and either the last two points or the
    bracketing point and the last one see a change of sign. *)
Definition brent_inv (f : Q -> res Q) (s : brent) : Prop :=
  f (xpre s) = Ok (fpre s) ∧ f (xcur s) = Ok (fcur s) ∧ ¬ (fpre s == 0)%Q
  ∧ (sign_change (fpre s) (fcur s)
     ∨ (f (xblk s) = Ok (fblk s)
        ∧ ((fcur s == 0)%Q ∨ sign_change (fblk s) (fcur s)))).

(** What holds of an answer [x] of the loop. *)
Definition brent_post (f : Q -> res Q) (x : Q) : Prop :=
  ∃ fx, f x = Ok fx
    ∧ ((fx == 0)%Q
       ∨ ∃ y fy, f y = Ok fy ∧ sign_change fx fy
                 ∧ (Qabs fx <= Qabs fy)%Q
                 ∧ (Qabs (y - x) < xtol + rtol * Qabs x)%Q).

End Scipy.

(** ** lib/evaluate.py: the metric evaluator *)

Inductive eval_result : Type :=
  | RocResult (roc_auc : Q) (threshold : Roc.cut) (t : list Roc.cut)
  | Score (value : Q).

(** [str(n)] for an integer. *)
Definition str (n : Z) : string := NilZero.string_of_int (Z.to_int n).

(** [a[mask(a)] = v]: every entry that satisfies the mask is replaced, in
    the array itself. *)
Definition masked_assign (r : loc) (mask : Q -> bool) (v : Q) : M unit :=
  a ← read_array r;
  write_array r ((λ x, if mask x then v else x) <$> a).

(** An array of scores read as class labels, as sklearn does: only [0] and
    [1] are classes. *)
Definition as_class (x : Q) : res bool :=
  if Qeq_bool x 1 then Ok true
  else if Qeq_bool x 0 then Ok false
  else Raise ValueError.

Fixpoint as_classes (a : list Q) : res (list bool) :=
  match a with
  | [] => Ok []
  | x :: a' =>
      match as_class x, as_classes a' with
      | Ok b, Ok bs => Ok (b :: bs)
      | Raise e, _ => Raise e
      | _, Raise e => Raise e
      end
  end.

(** [col.iloc[rows]] *)
Fixpoint iloc {A} (col : list A) (rows : list nat) : res (list A) :=
  match rows with
  | [] => Ok []
  | k :: rows' =>
      match col !! k, iloc col rows' with
      | Some x, Ok xs => Ok (x :: xs)
      | None, _ => Raise IndexError
      | _, Raise e => Raise e
      end
  end.

(** [a - b] on two arrays: they must have one length. *)
Definition array_sub (a b : list Q) : res (list Q) :=
  if length a =? length b then Ok (zip_with Qminus a b) else Raise ValueError.

(** [pd.Series(values, index=index)]: one value per index entry. *)
Definition series {A} (values : list A) (index : list nat) : res (list A) :=
  if length values =? length index then Ok values else Raise ValueError.

(** [list(col)[0]] *)
Definition first_of {A} (col : list A) : res A :=
  match col with
  | x :: _ => Ok x
  | [] => Raise IndexError
  end.


(** The array with every entry replaced by [1] when it is at least the
    threshold and by [0] otherwise. *)
Definition binarized (threshold : Q) (a : list Q) : list Q :=
  (λ x, if Qle_bool threshold x then 1%Q else 0%Q) <$> a.

Section Evaluate.

(** The root finder [scipy.optimize.brentq] is taken as it comes: what it
    answers depends on its floating-point iteration. *)
Variable brentq : (Q -> res Q) -> Q -> Q -> res Q.

(** The function whose root is the equal error rate:
    [lambda x: 1. - x - interp1d(fpr, tpr)(x)] *)
Definition eer_function (fpr tpr : list Q) (x : Q) : res Q :=
  match Scipy.interp1d fpr tpr with
  | Raise e => Raise e
  | Ok g => match g x with
            | Raise e => Raise e
            | Ok y => Ok (1 - x - y)%Q
            end
  end.

Definition roc_path (output_directory : string) (epoch : Z) : string :=
  output_directory +:+ "/ROC" +:+ str epoch +:+ ".png".

Definition roc (labels : list bool) (scores : loc) (saveto : bool)
    (output_directory : string) (epoch : Z) : M eval_result :=
  s ← read_array scores;
  '(fpr, tpr, t) ← lift (Roc.roc_curve labels s);
  roc_auc ← lift (Roc.auc fpr tpr);
  let i := seq 0 (length tpr) in
  d ← lift (array_sub tpr ((λ x, 1 - x)%Q <$> fpr));
  tf ← lift (series d i);
  thresholds ← lift (series t i);
  let order := argsort ((λ x, Qabs (x - 0)) <$> tf) in
  roc_t ← lift (iloc thresholds (take 1 order));
  threshold ← lift (first_of roc_t);
  eer ← lift (brentq (eer_function fpr tpr) 0%Q 1%Q);
  (if saveto
   then write_file (SaveFig (roc_path output_directory epoch)
                            (Figure fpr tpr roc_auc eer))
   else mret tt);;
  mret (RocResult roc_auc threshold t).

Definition auprc (labels : list bool) (scores : loc) : M eval_result :=
  s ← read_array scores;
  ap ← lift (Roc.average_precision_score labels s);
  mret (Score ap).

Definition evaluate (labels : list bool) (scores : loc) (metric : string)
    (output_directory : string) (epoch : Z) : M eval_result :=
  if String.eqb metric "roc" then
    roc labels scores true output_directory epoch
  else if String.eqb metric "auprc" then
    auprc labels scores
  else if String.eqb metric "f1_score" then
    let threshold := 0.20%Q in
    masked_assign scores (λ x, Qle_bool threshold x) 1%Q;;
    masked_assign scores (λ x, Qltb x threshold) 0%Q;;
    s ← read_array scores;
    preds ← lift (as_classes s);
    f ← lift (Sklearn.f1_score labels preds);
    mret (Score f)
  else raise (NotImplementedError "Check the evaluation metric.").

End Evaluate.

(** What the program relies on from [brentq f a b], whatever its iteration
    does.  It evaluates [f] at both ends first and answers [a] at once when
    [f a] is zero.  Any answer [x] is the end [a] with [f a] zero, the end
    [b] with [f b] zero, or a point where [f] is zero or changes sign within
    the tolerance: another point [y] with a value of the other sign, not
    smaller in magnitude, at a distance below [xtol + rtol * |x|]. *)
Definition brentq_contract (brentq : (Q -> res Q) -> Q -> Q -> res Q) : Prop :=
  ∀ (f : Q -> res Q) (a b : Q),
    (∀ ya yb, f a = Ok ya → f b = Ok yb → (ya == 0)%Q → brentq f a b = Ok a)
    ∧ (∀ x, brentq f a b = Ok x →
         ∃ ya yb, f a = Ok ya ∧ f b = Ok yb
           ∧ (((ya == 0)%Q ∧ x = a)
              ∨ ((yb == 0)%Q ∧ x = b)
              ∨ ∃ fx, f x = Ok fx
                  ∧ ((fx == 0)%Q
                     ∨ ∃ y fy, f y = Ok fy ∧ sign_change fx fy
                               ∧ (Qabs fx <= Qabs fy)%Q
                               ∧ (Qabs (y - x) < Scipy.xtol + Scipy.rtol * Qabs x)%Q))).

(** Every positive sample scores higher than every negative one. *)
Definition perfect_separator (labels : list bool) (scores : list Q) : Prop :=
  ∀ i j si sj,
    labels !! i = Some true → labels !! j = Some false →
    scores !! i = Some si → scores !! j = Some sj → (sj < si)%Q.

(** A curve that runs up the left edge to the corner [(0, p)] and then along
    the top edge. *)
Definition corner_shaped (p : nat) (curve : list Roc.point) : Prop :=
  ∃ L c R,
    curve = L ++ c :: R
    ∧ Forall (λ q, Roc.fps q = 0) L
    ∧ Roc.fps c = 0 ∧ Roc.tps c = p
    ∧ R ≠ []
    ∧ Forall (λ q, 0 < Roc.fps q ∧ Roc.tps q = p) R.

(** A curve that runs from (0, 0) to (1, 1) along the left and the top
    edge of the unit square: every point has the false-positive rate 0 or
    the true-positive rate 1. *)
Definition along_the_edges (fpr tpr : list Q) : Prop :=
  (∃ f0 t0, head fpr = Some f0 ∧ head tpr = Some t0 ∧ (f0 == 0)%Q ∧ (t0 == 0)%Q)
  ∧ (∃ f1 t1, last fpr = Some f1 ∧ last tpr = Some t1 ∧ (f1 == 1)%Q ∧ (t1 == 1)%Q)
  ∧ Forall2 (λ f t, (f == 0)%Q ∨ (t == 1)%Q) fpr tpr.

(** Labels and scores on which the doubles of [auc] miss the area 1: one
    positive sample above six negative ones. *)
Definition rounding_labels : list bool :=
  [true; false; false; false; false; false; false].
Definition rounding_scores : list Q := [0.9; 0.5; 0.5; 0.4; 0.4; 0.4; 0.1]%Q.

(** Labels and scores on which the doubles of [auc] exceed the area 1:
    one positive sample above 27 negative ones, whose scores fall into runs
    of 1, 5, 1, 2, 1, 3 and 14. *)
Definition excess_labels : list bool := true :: replicate 27 false.
Definition excess_scores : list Q :=
  [0.9%Q] ++ replicate 1 0.8%Q ++ replicate 5 0.7%Q ++ replicate 1 0.6%Q
  ++ replicate 2 0.5%Q ++ replicate 1 0.4%Q ++ replicate 3 0.3%Q
  ++ replicate 14 0.2%Q.

(** The example of sklearn's documentation. *)
Definition example_labels : list bool := [false; false; true; true].
Definition example_scores : list Q := [0.1; 0.4; 0.35; 0.8]%Q.
Definition example_fpr : list Q := [0 # 2; 0 # 2; 1 # 2; 1 # 2; 2 # 2]%Q.
Definition example_tpr : list Q := [0 # 2; 1 # 2; 1 # 2; 2 # 2; 2 # 2]%Q.
Definition example_thresholds : list Roc.cut :=
  [Roc.Inf; Roc.Finite 0.8; Roc.Finite 0.4; Roc.Finite 0.35; Roc.Finite 0.1]%Q.

(** The world after the ROC figure was saved. *)
Definition roc_world (w : world) (path : string) (fig : figure) : world :=
  World (arrays w) (stdout w) (files w ++ [SaveFig path fig]) (board w).

(** ** lib/visualizer.py *)

Module Visualizer.

(** The fields of the object that the methods below read: the dashboard
    writer, present only when [opt.display] was set, and the image
    directory of the run. *)
Record visualizer := Build {
  writer : option string;
  img_dir : string }.

(** [os.path.join(a, *p)] *)
Definition starts_with_slash (s : string) : bool :=
  match s with
  | String c _ => Ascii.eqb c "/"%char
  | EmptyString => false
  end.

Fixpoint ends_with_slash (s : string) : bool :=
  match s with
  | EmptyString => false
  | String c EmptyString => Ascii.eqb c "/"%char
  | String _ s' => ends_with_slash s'
  end.

Definition join2 (path b : string) : string :=
  if starts_with_slash b then b
  else if String.eqb path "" || ends_with_slash path then path +:+ b
  else path +:+ "/" +:+ b.

Definition path_join (a : string) (p : list string) : string := foldl join2 a p.

(** [self.img_dir], as the constructor sets it. *)
Definition train_image_dir (outf name : string) : string :=
  path_join outf [name; "train"; "images"].

Definition eps : Q := 1e-5%Q.

(** [inp.min()] and [inp.max()]: there is none for an empty array. *)
Definition array_min (inp : list Q) : res Q :=
  match inp with
  | [] => Raise ValueError
  | x :: rest => Ok (foldl Qmin x rest)
  end.

Definition array_max (inp : list Q) : res Q :=
  match inp with
  | [] => Raise ValueError
  | x :: rest => Ok (foldl Qmax x rest)
  end.

(** [(inp - inp.min()) / (inp.max() - inp.min() + 1e-5)] *)
Definition normalize (inp : list Q) : res (list Q) :=
  match array_min inp, array_max inp with
  | Ok lo, Ok hi => Ok ((λ v, (v - lo) / (hi - lo + eps))%Q <$> inp)
  | Raise e, _ => Raise e
  | _, Raise e => Raise e
  end.

(** What normalisation promises of its output [out] for the batch [inp]:
    values between 0 and 1; all of them 0 when the batch is constant;
    otherwise a largest value [r / (r + eps)], for the range [r] of the
    batch. *)
Definition normalized_batch (inp out : list Q) : Prop :=
  length out = length inp
  ∧ Forall (λ v, 0 <= v ∧ v <= 1)%Q out
  ∧ ∀ lo hi, array_min inp = Ok lo → array_max inp = Ok hi →
      (hi == lo → Forall (λ v, v == 0)%Q out)
      ∧ ((lo < hi)%Q →
         ∃ top, top ∈ out
                ∧ (top == (hi - lo) / (hi - lo + eps))%Q
                ∧ Forall (λ v, v <= top)%Q out).

(** [self.writer.add_images(tag, img, global_step=global_step)] *)
Definition add_images (self : visualizer) (tag : string) (img : list Q)
    (global_step : Z) : M unit :=
  match writer self with
  | None => raise AttributeError
  | Some _ => to_board (AddImages tag img global_step)
  end.

Definition display_current_images (self : visualizer) (reals fakes fixed : list Q)
    (train_or_test : string) (global_step : Z) : M unit :=
  reals ← lift (normalize reals);
  fakes ← lift (normalize fakes);
  add_images self ("Reals from " +:+ train_or_test +:+ " step: ") reals global_step;;
  add_images self ("Fakes from " +:+ train_or_test +:+ " step: ") fakes global_step.

(** ['%03d' % n]: the decimal digits, with zeros on the left up to three
    characters, the sign included. *)
Definition zero_pad (width : nat) (digits : string) : string :=
  String.concat "" (replicate (width - String.length digits) "0") +:+ digits.

Definition format_03d (n : Z) : string :=
  if (n <? 0)%Z
  then "-" +:+ zero_pad 2 (NilZero.string_of_uint (N.to_uint (Z.abs_N n)))
  else zero_pad 3 (NilZero.string_of_uint (N.to_uint (Z.abs_N n))).

(** [vutils.save_image(tensor, path, normalize=flag)] *)
Definition save_image (tensor : list Q) (path : string) (flag : bool) : M unit :=
  write_file (SaveImage path tensor flag).

Definition save_current_images (self : visualizer) (epoch : Z)
    (reals fakes fixed : list Q) : M unit :=
  save_image reals (img_dir self +:+ "/reals.png") true;;
  save_image fakes (img_dir self +:+ "/fakes.png") true;;
  save_image fixed
    (img_dir self +:+ "/fixed_fakes_" +:+ format_03d (epoch + 1) +:+ ".png") true.

End Visualizer.

(** ** lib/visualizer.py: the scalar plots, the PR curve and the loss log *)

Module Reports.

(** A value of a metric dictionary: a number, or the confusion matrix. *)
Inductive metric_value : Type :=
  | Number (q : Q)
  | Matrix (m : list (list nat)).

(** The calls that reach the dashboard writer besides [add_images]. *)
Inductive writer_call : Type :=
  | AddScalars (main_tag : string) (tag_scalar_dict : list (string * metric_value))
      (global_step : Z)
  | AddPrCurveRaw (tag : string)
      (true_positive_counts false_positive_counts : list nat)
      (true_negative_counts false_negative_counts : list nat)
      (precision recall : list Q) (num_thresholds : nat) (global_step : Z).

(** What these methods act on: the world of the evaluator, the further
    calls made on the writer, and the text files by path. *)
Record session := Session {
  base : world;
  calls : list writer_call;
  texts : gmap string string }.

Definition R (A : Type) : Type := session -> res A * session.

#[global] Instance R_ret : MRet R := fun A a s => (Ok a, s).
#[global] Instance R_bind : MBind R := fun A B k m s =>
  match m s with
  | (Ok a, s') => k a s'
  | (Raise e, s') => (Raise e, s')
  end.

(** A computation of the evaluator, run in the world of the session. *)
Definition in_world {A} (m : M A) : R A :=
  fun s => match m (base s) with
           | (r, w') => (r, Session w' (calls s) (texts s))
           end.

(** [self.writer.<method>(...)]: without a writer the attribute lookup on
    [None] fails. *)
Definition to_writer (self : Visualizer.visualizer) (c : writer_call) : R unit :=
  fun s => match Visualizer.writer self with
           | None => (Raise AttributeError, s)
           | Some _ => (Ok tt, Session (base s) (calls s ++ [c]) (texts s))
           end.

(** [with open(path, "a") as f: f.write(text)]: the file is created when
    it is not there; its directory is taken to exist. *)
Definition append_text (path text : string) : R unit :=
  fun s => (Ok tt, Session (base s) (calls s)
                           (<[path := (texts s !!! path) +:+ text]> (texts s))).

(** The fields that the log methods read: [self.log_name] and
    [self.opt.niter]. *)
Record log_fields := LogFields {
  log_name : string;
  niter : Z }.

Definition newline : string := String "010"%char "".

(** [round(x)] for a rational that is not negative, ties to the even
    integer. *)
Definition round_half_even (x : Q) : Z :=
  let n := Qnum x in
  let d := Z.pos (Qden x) in
  let f := (n / d)%Z in
  match (2 * (n mod d) ?= d)%Z with
  | Lt => f
  | Gt => (f + 1)%Z
  | Eq => if Z.even f then f else (f + 1)%Z
  end.

(** ['%.3f' % x]: three decimals, correctly rounded; the sign of a negative
    value is kept when all the digits are zero. *)
Definition format_3f (x : Q) : string :=
  let m := round_half_even (Qabs x * 1000) in
  (if Qltb x 0 then "-" else "")
  +:+ str (m / 1000) +:+ "." +:+ Visualizer.zero_pad 3 (str (m mod 1000)).

Definition plot_current_errors (self : Visualizer.visualizer) (epoch total_steps : Z)
    (errors : list (string * Q)) : R unit :=
  to_writer self (AddScalars "Loss over time" (prod_map id Number <$> errors) total_steps).

Definition plot_performance (self : Visualizer.visualizer) (epoch : Z) (counter_ratio : Q)
    (performance : list (string * metric_value)) : R unit :=
  to_writer self
    (AddScalars "Performance Metrics"
       (filter (λ kv, kv.1 ≠ "conf_matrix" ∧ kv.1 ≠ "Avg Run Time (ms/batch)") performance)
       epoch).

(** The line that [print_current_errors] builds. *)
Definition errors_message (opt_niter epoch : Z) (errors : list (string * Q)) : string :=
  foldl (λ message kv, message +:+ (kv.1 +:+ ": " +:+ format_3f kv.2 +:+ " "))
        ("   Loss: [" +:+ str epoch +:+ "/" +:+ str opt_niter +:+ "] ") errors.

Definition write_to_log_file (self : log_fields) (text : string) : R unit :=
  append_text (log_name self) (text +:+ newline).

Definition print_current_errors (self : log_fields) (epoch : Z)
    (errors : list (string * Q)) : R unit :=
  let message := errors_message (niter self) epoch errors in
  in_world (print message);;
  append_text (log_name self) (message +:+ newline).

Definition plot_pr_curve (self : Visualizer.visualizer) (labels : list bool)
    (scores thresholds : list Q) (global_step : Z) : R unit :=
  out ← in_world (get_values_for_pr_curve labels scores thresholds);
  to_writer self
    (AddPrCurveRaw "Precision_recall_curve" (out_tp out) (out_fp out) (out_tn out)
       (out_fn out) (out_precision out) (out_recall out) (out_count out) global_step).

(** A session in which nothing has happened yet. *)
Definition s0 : session := Session w0 [] ∅.

End Reports.

(** * Properties *)

(** ** Facts about the sklearn routines *)

Lemma unique_labels_cases (y_true y_pred : list bool) :
  Sklearn.unique_labels y_true y_pred =
    (if decide (false ∈ y_true ++ y_pred) then [false] else [])
    ++ (if decide (true ∈ y_true ++ y_pred) then [true] else []).
Proof.
  unfold Sklearn.unique_labels.
  rewrite !filter_cons, filter_nil.
  destruct (decide (false ∈ y_true ++ y_pred)), (decide (true ∈ y_true ++ y_pred)); reflexivity.
Qed.

Lemma count_pairs_total (ps : list (bool * bool)) :
  Sklearn.count_pairs true true ps + Sklearn.count_pairs false true ps
  + Sklearn.count_pairs false false ps + Sklearn.count_pairs true false ps = length ps.
Proof.
  unfold Sklearn.count_pairs.
  induction ps as [|[[] []] ps IH]; [reflexivity| ..];
    rewrite !filter_cons; repeat case_decide; try congruence; simpl; lia.
Qed.

Lemma confusion_matrix_unpack (y_true y_pred : list bool) :
  match Sklearn.confusion_matrix y_true y_pred with
  | Ok cm =>
      unpack4 (Sklearn.ravel cm) =
        if decide (false ∈ y_true ++ y_pred ∧ true ∈ y_true ++ y_pred)
        then Ok (Sklearn.count_pairs false false (zip y_true y_pred),
                 Sklearn.count_pairs false true (zip y_true y_pred),
                 Sklearn.count_pairs true false (zip y_true y_pred),
                 Sklearn.count_pairs true true (zip y_true y_pred))
        else Raise ValueError
  | Raise e => e = ValueError ∧ length y_true ≠ length y_pred
  end.
Proof.
  unfold Sklearn.confusion_matrix.
  destruct (Nat.eqb_spec (length y_true) (length y_pred)) as [Hlen|Hlen]; simpl; [|done].
  rewrite unique_labels_cases.
  destruct (decide (false ∈ y_true ++ y_pred)), (decide (true ∈ y_true ++ y_pred));
    simpl; case_decide; try reflexivity; tauto.
Qed.

Lemma confusion_matrix_length (y_true y_pred : list bool) cm :
  Sklearn.confusion_matrix y_true y_pred = Ok cm → length y_true = length y_pred.
Proof.
  unfold Sklearn.confusion_matrix.
  destruct (Nat.eqb_spec (length y_true) (length y_pred)); simpl; [done|discriminate].
Qed.

Lemma unique_labels_has_true (y_true y_pred : list bool) :
  true ∉ Sklearn.unique_labels y_true y_pred →
  length (Sklearn.unique_labels y_true y_pred) < 2.
Proof.
  rewrite unique_labels_cases.
  destruct (decide (false ∈ y_true ++ y_pred)), (decide (true ∈ y_true ++ y_pred));
    simpl; intros H; try lia; exfalso; apply H; apply list_elem_of_In; simpl; tauto.
Qed.

(** With binary labels the support routine only refuses sequences of
    different lengths and sequences without samples. *)
Lemma precision_recall_fscore_support_ok (y_true y_pred : list bool) :
  length y_true = length y_pred → y_true ≠ [] →
  ∃ f, Sklearn.precision_recall_fscore_support y_true y_pred =
         Ok (Sklearn.prf_divide (Sklearn.count_pairs true true (zip y_true y_pred))
                                (Sklearn.count_true y_pred),
             Sklearn.prf_divide (Sklearn.count_pairs true true (zip y_true y_pred))
                                (Sklearn.count_true y_true), f, None).
Proof.
  intros Hlen Hne. unfold Sklearn.precision_recall_fscore_support.
  rewrite <- Hlen, Nat.eqb_refl. cbn [negb].
  destruct y_true as [|b y_true'] eqn:Hy; [done|]. cbn [length Nat.eqb]. rewrite <- Hy.
  destruct (bool_decide (true ∈ Sklearn.unique_labels y_true y_pred)) eqn:Hin; cbn [negb andb].
  - eexists; reflexivity.
  - apply bool_decide_eq_false in Hin. apply unique_labels_has_true in Hin.
    apply Nat.leb_gt in Hin. rewrite Hin. eexists; reflexivity.
Qed.

(** ** The loop body of the sampler, case by case *)

Lemma pr_curve_body_eq (labels : list bool) (scores : list Q) acc t w :
  pr_curve_body labels scores acc t w =
    if decide (two_by_two labels scores t) then
      if decide (skipped scores t)
      then (Ok acc, with_stdout w [skip_message (binarize_at t scores)])
      else (Ok (extend labels scores acc [t]), w)
    else (Raise ValueError, w).
Proof.
  unfold pr_curve_body, mbind, M_bind, bind, lift, two_by_two.
  pose proof (confusion_matrix_unpack labels (binarize_at t scores)) as Hcm.
  assert (Hl : length (binarize_at t scores) = length scores)
    by (unfold binarize_at; apply length_fmap).
  destruct (Sklearn.confusion_matrix labels (binarize_at t scores)) as [cm|e] eqn:Hok.
  - rewrite Hcm. clear Hcm.
    apply confusion_matrix_length in Hok. rewrite Hl in Hok.
    destruct (decide (false ∈ labels ++ binarize_at t scores
                      ∧ true ∈ labels ++ binarize_at t scores)) as [Hboth|Hnot].
    + rewrite (decide_True (P := _ ∧ _ ∧ _)) by tauto.
      unfold skipped.
      destruct (Nat.eqb_spec (size (list_to_set (binarize_at t scores) : gset bool)) 1)
        as [Hone|Hmany].
      * rewrite decide_True by done. reflexivity.
      * rewrite decide_False by done.
        destruct (precision_recall_fscore_support_ok labels (binarize_at t scores))
          as [f ->]; [congruence| |reflexivity].
        intros ->. destruct scores; [|discriminate].
        destruct Hboth as [Hin _]. by apply elem_of_nil in Hin.
    + rewrite (decide_False (P := _ ∧ _ ∧ _)) by tauto. reflexivity.
  - destruct Hcm as [-> Hne]. rewrite Hl in Hne.
    case_decide; [tauto|reflexivity].
Qed.

Lemma with_stdout_nil w : with_stdout w [] = w.
Proof. destruct w. unfold with_stdout. simpl. by rewrite app_nil_r. Qed.

Lemma with_stdout_app w a b : with_stdout (with_stdout w a) b = with_stdout w (a ++ b).
Proof. unfold with_stdout. simpl. by rewrite app_assoc. Qed.

Lemma extend_nil labels scores acc : extend labels scores acc [] = acc.
Proof. destruct acc. unfold extend. simpl. by rewrite !app_nil_r. Qed.

Lemma extend_app labels scores acc a b :
  extend labels scores (extend labels scores acc a) b = extend labels scores acc (a ++ b).
Proof. unfold extend. simpl. by rewrite !fmap_app, !app_assoc. Qed.

(** ** The whole loop *)

(** When every threshold has a two-by-two confusion matrix the loop runs to
    its end: it appends one entry per threshold that the guard lets through
    and prints one diagnostic per threshold that it skips. *)
Lemma for_each_pr_curve_ok (labels : list bool) (scores : list Q) ts :
  Forall (two_by_two labels scores) ts →
  ∀ acc w,
    for_each ts (pr_curve_body labels scores) acc w =
      (Ok (extend labels scores acc (retained scores ts)),
       with_stdout w (diagnostics scores ts)).
Proof.
  induction 1 as [|t ts Ht _ IH]; intros acc w.
  - simpl. unfold mret, M_ret, ret, diagnostics, retained.
    by rewrite filter_nil, extend_nil, with_stdout_nil.
  - cbn [for_each]. unfold mbind, M_bind, bind.
    rewrite pr_curve_body_eq, decide_True by done.
    unfold retained, diagnostics in *. rewrite !filter_cons.
    destruct (decide (skipped scores t)) as [Hs|Hs].
    + rewrite decide_False by tauto.
      rewrite IH, fmap_cons, with_stdout_app. reflexivity.
    + rewrite decide_True by done.
      rewrite IH, extend_app. reflexivity.
Qed.

(** Conversely the loop only runs to its end when every threshold has a
    two-by-two confusion matrix. *)
Lemma for_each_pr_curve_inv (labels : list bool) (scores : list Q) ts :
  ∀ acc w acc' w',
    for_each ts (pr_curve_body labels scores) acc w = (Ok acc', w') →
    Forall (two_by_two labels scores) ts.
Proof.
  induction ts as [|t ts IH]; intros acc w acc' w' Hrun; [constructor|].
  cbn [for_each] in Hrun. unfold mbind, M_bind, bind in Hrun.
  rewrite pr_curve_body_eq in Hrun.
  destruct (decide (two_by_two labels scores t)) as [Ht|Ht]; [|discriminate].
  constructor; [done|].
  destruct (decide (skipped scores t)); eapply IH, Hrun.
Qed.

Lemma get_values_for_pr_curve_ok (labels : list bool) (scores thresholds : list Q) w :
  Forall (two_by_two labels scores) thresholds →
  get_values_for_pr_curve labels scores thresholds w =
    (Ok (PrCurveValues (tp_at labels scores <$> retained scores thresholds)
                       (fp_at labels scores <$> retained scores thresholds)
                       (tn_at labels scores <$> retained scores thresholds)
                       (fn_at labels scores <$> retained scores thresholds)
                       (precision_at labels scores <$> retained scores thresholds)
                       (recall_at labels scores <$> retained scores thresholds)
                       (length thresholds)),
     with_stdout w (diagnostics scores thresholds)).
Proof.
  intros Hall. unfold get_values_for_pr_curve, mbind, M_bind, bind.
  rewrite for_each_pr_curve_ok by done. reflexivity.
Qed.

Lemma get_values_for_pr_curve_inv (labels : list bool) (scores thresholds : list Q) w out w' :
  get_values_for_pr_curve labels scores thresholds w = (Ok out, w') →
  Forall (two_by_two labels scores) thresholds.
Proof.
  unfold get_values_for_pr_curve, mbind, M_bind, bind.
  destruct (for_each thresholds _ _ w) as [[acc|e] w1] eqn:Hrun; [|discriminate].
  intros _. eapply for_each_pr_curve_inv, Hrun.
Qed.

(** ** The guard and the classes of the predictions *)

Lemma skipped_one_class (scores : list Q) (t : Q) :
  scores ≠ [] → skipped scores t ↔ one_class (binarize_at t scores).
Proof.
  intros Hne. unfold skipped, one_class.
  assert (Hp : binarize_at t scores ≠ []).
  { unfold binarize_at. destruct scores; [done|discriminate]. }
  revert Hp. generalize (binarize_at t scores) as preds. intros preds Hp.
  split.
  - intros Hsize. apply size_1_elem_of in Hsize as [c Hc].
    assert (Hall : Forall (λ p, p = c) preds).
    { apply Forall_forall. intros p Hin.
      assert (p ∈ (list_to_set preds : gset bool)) as Hin' by (by apply elem_of_list_to_set).
      rewrite Hc in Hin'. by apply elem_of_singleton in Hin'. }
    destruct c; [left|right]; exact Hall.
  - intros Hone.
    assert (∃ c, Forall (λ p, p = c) preds) as [c Hall] by (destruct Hone; eauto).
    assert ((list_to_set preds : gset bool) = {[c]}) as ->; [|apply size_singleton].
    apply set_eq. intros p. rewrite elem_of_list_to_set, elem_of_singleton.
    rewrite Forall_forall in Hall. split; [apply Hall|].
    intros ->. destruct preds as [|q preds]; [done|].
    rewrite (Hall q) by left. left.
Qed.

Lemma retained_one_class (scores thresholds : list Q) :
  scores ≠ [] →
  retained scores thresholds =
    filter (λ t, ¬ one_class (binarize_at t scores)) thresholds.
Proof.
  intros Hne. unfold retained. apply list_filter_iff.
  intros t. by rewrite skipped_one_class.
Qed.

(** ** Claims about the PR-curve sampler *)

Lemma two_by_two_of_labels (labels : list bool) (scores : list Q) t :
  length labels = length scores → true ∈ labels → false ∈ labels →
  two_by_two labels scores t.
Proof.
  intros Hlen Ht Hf. unfold two_by_two.
  split; [done|]. split; apply elem_of_app; by left.
Qed.

(** C1 (amended).  For labels in which both classes occur, scores of the same
    length and any thresholds, the sampler returns; its six output sequences
    hold, in order, exactly one entry per threshold whose binarized
    predictions are not all one class, so they are equally long and no
    longer than the threshold sequence; the returned count is the number of
    requested thresholds. *)
Theorem pr_curve_parallel_outputs (labels : list bool) (scores thresholds : list Q) w :
  length labels = length scores → true ∈ labels → false ∈ labels →
  ∃ out,
    get_values_for_pr_curve labels scores thresholds w =
      (Ok out, with_stdout w (diagnostics scores thresholds))
    ∧ let kept := filter (λ t, ¬ one_class (binarize_at t scores)) thresholds in
      out_tp out = (tp_at labels scores <$> kept)
      ∧ out_fp out = (fp_at labels scores <$> kept)
      ∧ out_tn out = (tn_at labels scores <$> kept)
      ∧ out_fn out = (fn_at labels scores <$> kept)
      ∧ out_precision out = (precision_at labels scores <$> kept)
      ∧ out_recall out = (recall_at labels scores <$> kept)
      ∧ length (out_tp out) = length kept
      ∧ length (out_fp out) = length kept
      ∧ length (out_tn out) = length kept
      ∧ length (out_fn out) = length kept
      ∧ length (out_precision out) = length kept
      ∧ length (out_recall out) = length kept
      ∧ length kept ≤ length thresholds
      ∧ out_count out = length thresholds.
Proof.
  intros Hlen Ht Hf.
  assert (Hne : scores ≠ []).
  { intros ->. destruct labels; [by apply elem_of_nil in Ht|discriminate]. }
  eexists. split.
  - apply get_values_for_pr_curve_ok, Forall_forall.
    intros t _. by apply two_by_two_of_labels.
  - cbn [out_tp out_fp out_tn out_fn out_precision out_recall out_count].
    rewrite (retained_one_class scores thresholds Hne).
    rewrite !length_fmap. repeat split; try reflexivity. apply length_filter.
Qed.

Lemma pr_curve_parallel_outputs_witness :
  ∃ out w',
    get_values_for_pr_curve [false; false; true; true] [0.1; 0.4; 0.35; 0.8]%Q
        [0.05; 0.2; 0.5; 0.9]%Q w0 = (Ok out, w')
    ∧ out_tp out = [2; 1] ∧ out_fp out = [1; 0] ∧ out_tn out = [1; 2]
    ∧ out_fn out = [0; 1] ∧ out_count out = 4.
Proof.
  destruct (pr_curve_parallel_outputs [false; false; true; true]
              [0.1; 0.4; 0.35; 0.8]%Q [0.05; 0.2; 0.5; 0.9]%Q w0)
    as (out & Hrun & Htp & Hfp & Htn & Hfn & _ & _ & _ & _ & _ & _ & _ & _ & _ & Hcount).
  - reflexivity.
  - apply list_elem_of_In; simpl; tauto.
  - apply list_elem_of_In; simpl; tauto.
  - exists out. eexists. split; [exact Hrun|].
    rewrite Htp, Hfp, Htn, Hfn, Hcount. vm_compute. tauto.
Defined.

(** C1 as it is written also promises a result for labels in which a class
    is missing.  With no sample at all the confusion matrix has no entry to
    unpack, and the call raises instead of returning; so it does for labels
    of one class at a threshold that collapses the predictions to it. *)
Lemma pr_curve_parallel_outputs_counterexample :
  get_values_for_pr_curve [] [] [0.5]%Q w0 = (Raise ValueError, w0)
  ∧ (¬ ∃ out w', get_values_for_pr_curve [] [] [0.5]%Q w0 = (Ok out, w'))
  ∧ ¬ ∃ out w', get_values_for_pr_curve [true; true] [0.7; 0.9]%Q [0.5]%Q w0
                = (Ok out, w').
Proof.
  split; [vm_compute; reflexivity|].
  split; intros (out & w' & H); vm_compute in H; discriminate.
Qed.

(** C4 (code defect).  Labels all negative and a threshold above every
    score: the predictions collapse to the class of the labels, the
    confusion matrix has a single entry, and unpacking it into four counts
    raises before the guard that would skip the threshold is reached.  No
    diagnostic is printed. *)
Theorem pr_curve_collapsed_threshold_raises :
  get_values_for_pr_curve [false; false] [0.1; 0.2]%Q [0.5]%Q w0
  = (Raise ValueError, w0).
Proof. vm_compute. reflexivity. Qed.

(** The same happens for every input of that shape, at the first threshold. *)
Lemma pr_curve_single_class_raises (c : bool) (labels : list bool)
    (scores : list Q) t ts w :
  labels ≠ [] →
  Forall (λ l, l = c) labels →
  Forall (λ p, p = c) (binarize_at t scores) →
  get_values_for_pr_curve labels scores (t :: ts) w = (Raise ValueError, w).
Proof.
  intros Hne Hl Hp.
  unfold get_values_for_pr_curve, mbind, M_bind, bind. cbn [for_each].
  unfold mbind, M_bind, bind.
  rewrite pr_curve_body_eq, decide_False; [reflexivity|].
  intros (_ & Hf & Ht).
  assert (Hall : Forall (λ p, p = c) (labels ++ binarize_at t scores))
    by (by apply Forall_app).
  rewrite Forall_forall in Hall.
  apply Hall in Hf. apply Hall in Ht. congruence.
Qed.

(** Where both classes occur among the labels, a threshold that collapses
    the predictions is skipped with a diagnostic and the loop goes on. *)
Lemma pr_curve_body_skips (labels : list bool) (scores : list Q) acc t w :
  length labels = length scores → true ∈ labels → false ∈ labels →
  one_class (binarize_at t scores) →
  pr_curve_body labels scores acc t w =
    (Ok acc, with_stdout w [skip_message (binarize_at t scores)]).
Proof.
  intros Hlen Ht Hf Hone.
  assert (Hne : scores ≠ []).
  { intros ->. destruct labels; [by apply elem_of_nil in Ht|discriminate]. }
  rewrite pr_curve_body_eq, decide_True by (by apply two_by_two_of_labels).
  rewrite decide_True by (by apply skipped_one_class). reflexivity.
Qed.

(** C5.  Whenever the sampler returns, the four counts recorded at one
    position of its outputs add up to the number of labels. *)
Theorem pr_curve_counts_sum (labels : list bool) (scores thresholds : list Q)
    w out w' :
  get_values_for_pr_curve labels scores thresholds w = (Ok out, w') →
  ∀ i tp fp tn fn,
    out_tp out !! i = Some tp → out_fp out !! i = Some fp →
    out_tn out !! i = Some tn → out_fn out !! i = Some fn →
    tp + fp + tn + fn = length labels.
Proof.
  intros Hrun.
  pose proof (get_values_for_pr_curve_inv _ _ _ _ _ _ Hrun) as Hall.
  rewrite (get_values_for_pr_curve_ok _ _ _ _ Hall) in Hrun.
  injection Hrun as <- _.
  cbn [out_tp out_fp out_tn out_fn].
  intros i tp fp tn fn. rewrite !list_lookup_fmap.
  destruct (retained scores thresholds !! i) as [t|] eqn:Hi; [|discriminate].
  cbn. intros [= <-] [= <-] [= <-] [= <-].
  assert (Hin : t ∈ thresholds).
  { apply list_elem_of_lookup_2 in Hi. unfold retained in Hi.
    by apply list_elem_of_filter in Hi as [_ ?]. }
  rewrite Forall_forall in Hall. destruct (Hall t Hin) as (Hlen & _).
  unfold tp_at, fp_at, tn_at, fn_at, confusion_at.
  rewrite count_pairs_total, length_zip.
  unfold binarize_at. rewrite length_fmap. lia.
Qed.

Lemma pr_curve_counts_sum_witness :
  2 + 1 + 1 + 0 = length [false; false; true; true].
Proof.
  eapply (pr_curve_counts_sum [false; false; true; true] [0.1; 0.4; 0.35; 0.8]%Q
            [0.05; 0.2; 0.5; 0.9]%Q w0 _ _ ltac:(vm_compute; reflexivity) 0);
    reflexivity.
Defined.

(** ** C3: an unknown metric *)

(** C3.  A metric name other than the three known ones makes [evaluate]
    raise [NotImplementedError] at once: the world it was called in, the
    score arrays, the files and the output, is the world it leaves. *)
Theorem evaluate_unknown_metric
    (brentq : (Q → res Q) → Q → Q → res Q) (labels : list bool) (scores : loc)
    (metric output_directory : string) (epoch : Z) (w : world) :
  metric ≠ "roc" → metric ≠ "auprc" → metric ≠ "f1_score" →
  evaluate brentq labels scores metric output_directory epoch w =
    (Raise (NotImplementedError "Check the evaluation metric."), w).
Proof.
  intros H1 H2 H3. unfold evaluate.
  apply String.eqb_neq in H1, H2, H3. rewrite H1, H2, H3. reflexivity.
Qed.

Lemma evaluate_unknown_metric_witness :
  evaluate Scipy.brentq [false; true] 0 "unknown" "./" 0
    (World {[ 0 := [0.1; 0.9]%Q ]} [] [] []) =
  (Raise (NotImplementedError "Check the evaluation metric."),
   World {[ 0 := [0.1; 0.9]%Q ]} [] [] []).
Proof. apply evaluate_unknown_metric; discriminate. Defined.

(** ** C2: the F1 score at the fixed threshold *)

Lemma masked_assign_twice (threshold : Q) (a : list Q) :
  Qle_bool threshold 1 = true →
  (λ x, if Qltb x threshold then 0%Q else x)
    <$> ((λ x, if Qle_bool threshold x then 1%Q else x) <$> a)
  = binarized threshold a.
Proof.
  intros H1. unfold binarized. rewrite <- list_fmap_compose.
  apply list_fmap_ext. intros _ x _. simpl. unfold Qltb.
  destruct (Qle_bool threshold x) eqn:Hx; [by rewrite H1|by rewrite Hx].
Qed.

Lemma as_classes_binarized (threshold : Q) (a : list Q) :
  as_classes (binarized threshold a) = Ok (binarize_at threshold a).
Proof.
  unfold binarized, binarize_at.
  induction a as [|x a IH]; [reflexivity|].
  rewrite !fmap_cons. cbn [as_classes]. rewrite IH.
  destruct (Qle_bool threshold x); reflexivity.
Qed.

Lemma count_pairs_true_true_le (a b : list bool) :
  Sklearn.count_pairs true true (zip a b) ≤ Sklearn.count_true a
  ∧ Sklearn.count_pairs true true (zip a b) ≤ Sklearn.count_true b.
Proof.
  unfold Sklearn.count_pairs, Sklearn.count_true.
  revert b. induction a as [|x a IH]; intros [|y b]; simpl; try (split; lia).
  destruct (IH b) as [IHa IHb].
  rewrite !filter_cons.
  destruct x, y; repeat case_decide; try congruence; simpl; split; lia.
Qed.

Lemma of_count_nonneg n : (0 <= Sklearn.of_count n)%Q.
Proof.
  unfold Sklearn.of_count. change 0%Q with (inject_Z 0).
  rewrite <- Zle_Qle. lia.
Qed.

Lemma prf_divide_bounds (n d : nat) :
  n ≤ d → (0 <= Sklearn.prf_divide n d)%Q ∧ (Sklearn.prf_divide n d <= 1)%Q.
Proof.
  intros Hle. unfold Sklearn.prf_divide.
  destruct (Nat.eqb_spec d 0) as [->|Hd]; [split; discriminate|].
  assert (Hpos : (0 < Sklearn.of_count d)%Q).
  { unfold Sklearn.of_count. change 0%Q with (inject_Z 0).
    rewrite <- Zlt_Qlt. lia. }
  split.
  - apply Qle_shift_div_l; [done|]. rewrite Qmult_0_l. apply of_count_nonneg.
  - apply Qle_shift_div_r; [done|]. rewrite Qmult_1_l.
    unfold Sklearn.of_count. rewrite <- Zle_Qle. lia.
Qed.

(** The harmonic mean of two rates is a rate. *)
Lemma f_score_bounds (p r : Q) :
  (0 <= p)%Q → (p <= 1)%Q → (0 <= r)%Q → (r <= 1)%Q →
  let denom := (p + r)%Q in
  let denom := if Qeq_bool denom 0 then 1%Q else denom in
  (0 <= 2 * p * r / denom)%Q ∧ (2 * p * r / denom <= 1)%Q.
Proof.
  intros Hp0 Hp1 Hr0 Hr1. cbv zeta.
  destruct (Qeq_bool (p + r) 0) eqn:Hz.
  - apply Qeq_bool_eq in Hz.
    assert (Hp : p == 0) by lra.
    assert (He : (2 * p * r / 1 == 0)%Q) by (rewrite Hp; field).
    rewrite He. split; lra.
  - apply Qeq_bool_neq in Hz.
    assert (Hpos : (0 < p + r)%Q) by lra.
    split.
    + apply Qle_shift_div_l; [done|]. nra.
    + apply Qle_shift_div_r; [done|]. nra.
Qed.

Lemma f1_score_bounds (y_true y_pred : list bool) :
  length y_true = length y_pred → y_true ≠ [] →
  ∃ f, Sklearn.f1_score y_true y_pred = Ok f ∧ (0 <= f)%Q ∧ (f <= 1)%Q.
Proof.
  intros Hlen Hne. unfold Sklearn.f1_score, Sklearn.precision_recall_fscore_support.
  rewrite <- Hlen, Nat.eqb_refl. cbn [negb].
  destruct y_true as [|b y_true'] eqn:Hy; [done|]. cbn [length Nat.eqb]. rewrite <- Hy.
  clear Hne.
  assert (Hcheck : negb (bool_decide (true ∈ Sklearn.unique_labels y_true y_pred))
                   && (2 <=? length (Sklearn.unique_labels y_true y_pred)) = false).
  { destruct (bool_decide (true ∈ Sklearn.unique_labels y_true y_pred)) eqn:Hin;
      [reflexivity|].
    apply bool_decide_eq_false in Hin. apply unique_labels_has_true in Hin.
    apply Nat.leb_gt in Hin. by rewrite Hin. }
  rewrite Hcheck. eexists. split; [reflexivity|].
  destruct (count_pairs_true_true_le y_true y_pred) as [Ha Hb].
  destruct (prf_divide_bounds _ _ Ha), (prf_divide_bounds _ _ Hb).
  by apply f_score_bounds.
Qed.

(** C2 (amended).  With at least one sample and as many labels as scores,
    [evaluate] under the metric ["f1_score"] replaces, in the caller's
    array, every score that is at least 0.20 by 1 and every other score by
    0, touches nothing else, and returns the F1 score of these predictions
    against the labels, a value between 0 and 1. *)
Theorem evaluate_f1_score
    (brentq : (Q → res Q) → Q → Q → res Q) (labels : list bool) (scores : loc)
    (output_directory : string) (epoch : Z) (w : world) :
  labels ≠ [] →
  length labels = length (arrays w !!! scores) →
  ∃ f,
    evaluate brentq labels scores "f1_score" output_directory epoch w =
      (Ok (Score f),
       World (<[scores := binarized 0.20 (arrays w !!! scores)]> (arrays w))
             (stdout w) (files w) (board w))
    ∧ Sklearn.f1_score labels (binarize_at 0.20 (arrays w !!! scores)) = Ok f
    ∧ (0 <= f)%Q ∧ (f <= 1)%Q.
Proof.
  intros Hne Hlen.
  destruct (f1_score_bounds labels (binarize_at 0.20 (arrays w !!! scores)))
    as (f & Hf & H0 & H1); [|done|].
  { unfold binarize_at. by rewrite length_fmap. }
  exists f. split; [|done].
  unfold evaluate. cbn [String.eqb Ascii.eqb Bool.eqb].
  unfold masked_assign, read_array, write_array, mbind, M_bind, bind, lift, mret, M_ret, ret.
  cbn [arrays stdout files board].
  rewrite !lookup_total_insert_eq, insert_insert_eq.
  rewrite masked_assign_twice by reflexivity.
  rewrite as_classes_binarized, Hf. reflexivity.
Qed.

Lemma evaluate_f1_score_witness :
  ∃ f,
    evaluate Scipy.brentq [false; false; true; true] 0 "f1_score" "./" 0
      (World {[ 0 := [0.1; 0.4; 0.35; 0.8]%Q ]} [] [] []) =
      (Ok (Score f), World {[ 0 := [0; 1; 1; 1]%Q ]} [] [] [])
    ∧ (f == 4 # 5)%Q.
Proof.
  destruct (evaluate_f1_score Scipy.brentq [false; false; true; true] 0 "./" 0
              (World {[ 0 := [0.1; 0.4; 0.35; 0.8]%Q ]} [] [] []))
    as (f & Hrun & Hf & _); [discriminate|reflexivity|].
  exists f. split.
  - rewrite Hrun. f_equal.
  - vm_compute in Hf. injection Hf as <-. reflexivity.
Defined.

(** C2 as it is written promises a score for every input.  Without
    samples the scoring routine refuses its input, and the call raises
    [ValueError] instead of returning a score; the empty array behind the
    reference is left as it was. *)
Lemma evaluate_f1_score_counterexample :
  evaluate Scipy.brentq [] 0 "f1_score" "./" 0 (World {[ 0 := [] ]} [] [] [])
    = (Raise ValueError, World {[ 0 := [] ]} [] [] [])
  ∧ ¬ ∃ f w', evaluate Scipy.brentq [] 0 "f1_score" "./" 0
                (World {[ 0 := [] ]} [] [] []) = (Ok (Score f), w').
Proof.
  split; [vm_compute; reflexivity|].
  intros (f & w' & H). vm_compute in H. discriminate.
Qed.

(** ** The stable sort *)

Section StableSort.

Context {A : Type} (key : A → Q).

Lemma insert_by_Permutation x l : insert_by key x l ≡ₚ x :: l.
Proof.
  induction l as [|y l IH]; simpl; [done|].
  destruct (Qle_bool (key y) (key x)); [|done].
  rewrite IH. apply Permutation_swap.
Qed.

Lemma stable_sort_by_Permutation l : stable_sort_by key l ≡ₚ l.
Proof.
  unfold stable_sort_by. rewrite <- (reverse_Permutation l) at 2.
  induction (reverse l) as [|x r IH]; simpl; [done|].
  by rewrite insert_by_Permutation, IH.
Qed.

Lemma insert_by_sorted x l :
  StronglySorted (λ a b, key a <= key b)%Q l → StronglySorted (λ a b, key a <= key b)%Q (insert_by key x l).
Proof.
  induction 1 as [|y l Hs IH Hy]; simpl.
  - repeat constructor.
  - destruct (Qle_bool (key y) (key x)) eqn:Hle.
    + constructor; [done|].
      rewrite insert_by_Permutation. constructor; [|done].
      by apply Qle_bool_iff.
    + assert (Hlt : (key x < key y)%Q).
      { apply Qnot_le_lt. intros H. apply Qle_bool_iff in H. congruence. }
      constructor; [by constructor|].
      constructor; [by apply Qlt_le_weak|].
      eapply Forall_impl; [exact Hy|].
      intros z Hz. simpl in *. lra.
Qed.

Lemma stable_sort_by_sorted l : StronglySorted (λ a b, key a <= key b)%Q (stable_sort_by key l).
Proof.
  unfold stable_sort_by.
  induction (reverse l) as [|x r IH]; simpl; [constructor|].
  by apply insert_by_sorted.
Qed.

(** The first element of the sorted list has the least key. *)
Lemma stable_sort_by_head a rest l :
  stable_sort_by key l = a :: rest →
  a ∈ l ∧ ∀ b, b ∈ l → (key a <= key b)%Q.
Proof.
  intros Hsort.
  pose proof (stable_sort_by_Permutation l) as Hperm.
  pose proof (stable_sort_by_sorted l) as Hsorted.
  rewrite Hsort in Hperm, Hsorted.
  split.
  - rewrite <- Hperm. left.
  - intros b Hb. rewrite <- Hperm in Hb.
    apply StronglySorted_inv in Hsorted as [_ Hall].
    apply elem_of_cons in Hb as [->|Hb]; [apply Qle_refl|].
    rewrite Forall_forall in Hall. by apply Hall.
Qed.

End StableSort.

Lemma elem_of_zip_seq (keys : list Q) (x : Q) (k : nat) :
  (x, k) ∈ zip keys (seq 0 (length keys)) ↔ keys !! k = Some x.
Proof.
  rewrite list_elem_of_lookup. split.
  - intros [i Hi]. apply lookup_zip_Some in Hi as [Hx Hk].
    apply lookup_seq in Hk as [-> _]. done.
  - intros Hk. exists k. apply lookup_zip_Some. split; [done|].
    apply lookup_seq. split; [done|]. by eapply lookup_lt_Some.
Qed.

(** The first position that [argsort] gives holds a least key. *)
Lemma argsort_head (keys : list Q) k rest :
  argsort keys = k :: rest →
  ∃ x, keys !! k = Some x ∧ ∀ j y, keys !! j = Some y → (x <= y)%Q.
Proof.
  unfold argsort. intros Hsort.
  destruct (stable_sort_by fst (zip keys (seq 0 (length keys))))
    as [|[x k'] sorted] eqn:Hs; [discriminate|].
  rewrite fmap_cons in Hsort. injection Hsort as -> _.
  apply stable_sort_by_head in Hs as [Hin Hmin].
  exists x. split; [by apply elem_of_zip_seq|].
  intros j y Hj. apply (Hmin (y, j)). by apply elem_of_zip_seq.
Qed.

Lemma argsort_length (keys : list Q) : length (argsort keys) = length keys.
Proof.
  unfold argsort. rewrite length_fmap.
  rewrite (Permutation_length (stable_sort_by_Permutation fst _)).
  rewrite length_zip, length_seq. lia.
Qed.

(** ** The curve that [roc_curve] builds *)

Section CurveFacts.

Import Sklearn Roc.

Lemma StronglySorted_sublist {A} (R : relation A) (l1 l2 : list A) :
  l1 `sublist_of` l2 → StronglySorted R l2 → StronglySorted R l1.
Proof.
  induction 1 as [|x l1 l2 Hsub IH|x l1 l2 Hsub IH]; intros Hs.
  - constructor.
  - apply StronglySorted_inv in Hs as [Hs Hall]. constructor; [by apply IH|].
    apply Forall_forall. intros y Hy. rewrite Forall_forall in Hall.
    apply Hall. by eapply elem_of_sublist.
  - apply StronglySorted_inv in Hs as [Hs _]. by apply IH.
Qed.

(** The walk records counts that never decrease, starting from the counts
    it is given. *)
Lemma clf_walk_monotone (l : list (Q * bool)) :
  ∀ fp tp,
    monotone (clf_walk fp tp l)
    ∧ Forall (λ c, fp ≤ fps c ∧ tp ≤ tps c) (clf_walk fp tp l).
Proof.
  unfold monotone.
  induction l as [|[s y] rest IH]; intros fp tp; [split; constructor|].
  cbn [clf_walk].
  set (fp' := if y then fp else S fp). set (tp' := if y then S tp else tp).
  assert (Hfp : fp ≤ fp') by (unfold fp'; destruct y; lia).
  assert (Htp : tp ≤ tp') by (unfold tp'; destruct y; lia).
  destruct rest as [|[s' y'] rest'].
  - split; repeat constructor; simpl; lia.
  - destruct (IH fp' tp') as [Hs Hall].
    assert (Hall' : Forall (λ c, fp ≤ fps c ∧ tp ≤ tps c)
                      (clf_walk fp' tp' ((s', y') :: rest'))).
    { eapply Forall_impl; [exact Hall|]. simpl. intros c [? ?]. lia. }
    destruct (Qeq_bool s s'); [done|].
    split.
    + constructor; [done|]. exact Hall.
    + constructor; [simpl; lia|done].
Qed.

(** Its last point counts every sample, under the score of the last one. *)
Lemma clf_walk_last (l : list (Q * bool)) :
  ∀ fp tp,
    last (clf_walk fp tp l) =
      (λ p, Point (fp + length (of_class false l)) (tp + length (of_class true l)) (Finite p.1))
        <$> last l.
Proof.
  unfold of_class.
  induction l as [|[s y] rest IH]; intros fp tp; [reflexivity|].
  cbn [clf_walk]. rewrite !filter_cons. cbn [snd].
  destruct rest as [|[s' y'] rest'].
  - destruct y; repeat case_decide; try congruence; simpl; f_equal; f_equal; lia.
  - rewrite last_cons_cons.
    assert (Hrec : ∀ X, last X = last (clf_walk (if y then fp else S fp)
                                          (if y then S tp else tp) ((s', y') :: rest')) →
              last X = (λ p, Point (fp + length (if decide (y = false)
                                                 then (s, y) :: filter (λ p, p.2 = false) ((s', y') :: rest')
                                                 else filter (λ p, p.2 = false) ((s', y') :: rest')))
                                   (tp + length (if decide (y = true)
                                                 then (s, y) :: filter (λ p, p.2 = true) ((s', y') :: rest')
                                                 else filter (λ p, p.2 = true) ((s', y') :: rest')))
                                   (Finite p.1))
                         <$> last ((s', y') :: rest')).
    { intros X ->. rewrite IH.
      destruct (last ((s', y') :: rest')) as [q|]; [|reflexivity].
      simpl. destruct y; repeat case_decide; try congruence; simpl; f_equal; f_equal; lia. }
    destruct (Qeq_bool s s'); [by apply Hrec|].
    rewrite last_cons.
    destruct (last (clf_walk _ _ ((s', y') :: rest'))) as [c|] eqn:Hc.
    + rewrite <- Hc. by apply Hrec.
    + exfalso. rewrite IH in Hc. rewrite last_cons in Hc.
      destruct (last rest'); discriminate.
Qed.

(** Dropping the straight stretches keeps a sublist with the same ends. *)
Lemma drop_straight_sublist (l : list point) : ∀ p, drop_straight p l `sublist_of` l.
Proof.
  induction l as [|c [|n rest] IH]; intros p; simpl; [done|done|].
  destruct (bends p c n).
  - apply sublist_skip, IH.
  - apply sublist_cons, IH.
Qed.

Lemma drop_straight_last (l : list point) : ∀ p, last (drop_straight p l) = last l.
Proof.
  induction l as [|c [|n rest] IH]; intros p; [done|done|].
  change (drop_straight p (c :: n :: rest))
    with (if bends p c n then c :: drop_straight c (n :: rest)
          else drop_straight c (n :: rest)).
  rewrite last_cons_cons.
  destruct (bends p c n); [|apply IH].
  rewrite last_cons, IH.
  destruct (last (n :: rest)) eqn:E; [done|].
  rewrite last_cons in E. destruct (last rest); discriminate.
Qed.

Lemma drop_intermediate_sublist (l : list point) : drop_intermediate l `sublist_of` l.
Proof.
  destruct l as [|p rest]; [done|]. unfold drop_intermediate.
  destruct (2 <? length (p :: rest)); [|done].
  apply sublist_skip, drop_straight_sublist.
Qed.

Lemma drop_intermediate_head (l : list point) : head (drop_intermediate l) = head l.
Proof.
  destruct l as [|p rest]; [done|]. unfold drop_intermediate.
  by destruct (2 <? length (p :: rest)).
Qed.

Lemma drop_intermediate_last (l : list point) : last (drop_intermediate l) = last l.
Proof.
  destruct l as [|p rest]; [done|]. unfold drop_intermediate.
  destruct (2 <? length (p :: rest)); [|done].
  rewrite !last_cons, drop_straight_last. done.
Qed.

Lemma of_count_le a b : a ≤ b → (of_count a <= of_count b)%Q.
Proof. intros H. unfold of_count. rewrite <- Zle_Qle. lia. Qed.

Lemma of_count_pos n : 0 < n → (0 < of_count n)%Q.
Proof.
  intros H. unfold of_count. change 0%Q with (inject_Z 0). rewrite <- Zlt_Qlt. lia.
Qed.

Lemma rate_le a b n : a ≤ b → 0 < n → (of_count a / of_count n <= of_count b / of_count n)%Q.
Proof.
  intros Hab Hn. apply of_count_le in Hab. apply of_count_pos in Hn.
  apply Qle_shift_div_l; [done|].
  unfold Qdiv. rewrite <- Qmult_assoc, (Qmult_comm (/ _)), Qmult_inv_r by lra. lra.
Qed.

(** The structure of what [roc_curve] returns. *)
Lemma roc_curve_inv (y_true : list bool) (y_score fpr tpr : list Q) (t : list cut) :
  roc_curve y_true y_score = Ok (fpr, tpr, t) →
  ∃ final,
    let walk := clf_walk 0 0 (by_decreasing_score y_true y_score) in
    let curve := Point 0 0 Inf :: drop_intermediate walk in
    length y_true = length y_score
    ∧ last walk = Some final
    ∧ 0 < fps final ∧ 0 < tps final
    ∧ monotone curve
    ∧ fpr = false_positive_rates final curve
    ∧ tpr = true_positive_rates final curve
    ∧ t = (thr <$> curve).
Proof.
  unfold roc_curve, binary_clf_curve.
  destruct (Nat.eqb_spec (length y_true) (length y_score)) as [Hlen|]; [|discriminate].
  cbn [negb]. destruct y_true as [|y0 y_true']; [discriminate|].
  set (walk := clf_walk 0 0 (by_decreasing_score (y0 :: y_true') y_score)).
  rewrite last_cons, drop_intermediate_last.
  destruct (last walk) as [final|] eqn:Hfinal; [|discriminate].
  destruct (Nat.eqb_spec (fps final) 0) as [|Hn]; [discriminate|].
  destruct (Nat.eqb_spec (tps final) 0) as [|Hp]; [discriminate|].
  cbn [orb]. intros [= <- <- <-].
  exists final. cbv zeta. repeat split; try done; try lia.
  constructor.
  - eapply StronglySorted_sublist; [apply drop_intermediate_sublist|].
    apply clf_walk_monotone.
  - apply Forall_forall. intros c _. simpl. lia.
Qed.

(** The rates along a monotone curve do not decrease. *)
Lemma diff_false_positive_rates (final : point) (curve : list point) :
  0 < fps final → monotone curve →
  Forall (λ d, 0 <= d)%Q (diff (false_positive_rates final curve)).
Proof.
  intros Hn. unfold monotone, false_positive_rates.
  induction curve as [|c0 [|c1 rest] IH]; intros Hs; [constructor|constructor|].
  rewrite !fmap_cons. cbn [diff].
  apply StronglySorted_inv in Hs as [Hs Hall].
  constructor; [|by apply IH].
  apply Forall_cons in Hall as [[Hle _] _].
  pose proof (rate_le _ _ _ Hle Hn). lra.
Qed.

(** On such a curve [auc] is the trapezoidal sum. *)
Lemma auc_of_curve (final : point) (curve : list point) :
  0 < fps final → monotone curve → 2 ≤ length curve →
  auc (false_positive_rates final curve) (true_positive_rates final curve) =
    Ok (trapz (true_positive_rates final curve) (false_positive_rates final curve)).
Proof.
  intros Hn Hs Hlen. unfold auc.
  assert (Hl1 : length (false_positive_rates final curve) = length curve)
    by (unfold false_positive_rates; apply length_fmap).
  assert (Hl2 : length (true_positive_rates final curve) = length curve)
    by (unfold true_positive_rates; apply length_fmap).
  rewrite Hl1, Hl2, Nat.eqb_refl. cbn [negb].
  destruct (Nat.ltb_spec (length curve) 2); [lia|].
  pose proof (diff_false_positive_rates final curve Hn Hs) as Hd.
  assert (Hex : existsb (λ d, negb (Qle_bool 0 d))
                  (diff (false_positive_rates final curve)) = false).
  { induction Hd as [|d ds Hd0 _ IH]; [reflexivity|].
    simpl. apply Qle_bool_iff in Hd0. by rewrite Hd0, IH. }
  by rewrite Hex.
Qed.

Lemma roc_curve_auc (y_true : list bool) (y_score fpr tpr : list Q) (t : list cut) :
  roc_curve y_true y_score = Ok (fpr, tpr, t) → auc fpr tpr = Ok (trapz tpr fpr).
Proof.
  intros Hc. apply roc_curve_inv in Hc as (final & Hc). cbv zeta in Hc.
  destruct Hc as (_ & Hlast & Hn & _ & Hs & -> & -> & _).
  apply auc_of_curve; [done|done|].
  cbn [length].
  destruct (drop_intermediate _) eqn:E; [|simpl; lia].
  apply (f_equal last) in E. rewrite drop_intermediate_last, Hlast in E. discriminate.
Qed.

Lemma by_decreasing_score_Permutation (y_true : list bool) (y_score : list Q) :
  by_decreasing_score y_true y_score ≡ₚ zip y_score y_true.
Proof.
  unfold by_decreasing_score.
  by rewrite reverse_Permutation, stable_sort_by_Permutation.
Qed.

Lemma elem_of_zip_label (y_true : list bool) (y_score : list Q) (b : bool) :
  length y_true = length y_score → b ∈ y_true → ∃ s, (s, b) ∈ zip y_score y_true.
Proof.
  intros Hlen Hb. apply list_elem_of_lookup in Hb as [i Hi].
  destruct (lookup_lt_is_Some_2 y_score i) as [s Hs].
  { rewrite <- Hlen. by eapply lookup_lt_Some. }
  exists s. apply list_elem_of_lookup. exists i. by apply lookup_zip_Some.
Qed.

Lemma of_class_nonempty (b : bool) (s : Q) (l : list (Q * bool)) :
  (s, b) ∈ l → 0 < length (of_class b l).
Proof.
  intros Hin. unfold of_class.
  assert (Hf : (s, b) ∈ filter (λ p, p.2 = b) l) by (by apply list_elem_of_filter).
  destruct (filter _ l); [by apply elem_of_nil in Hf|simpl; lia].
Qed.

(** [roc_curve] answers whenever the labels hold both classes and there is
    one score per label. *)
Lemma roc_curve_ok (y_true : list bool) (y_score : list Q) :
  length y_true = length y_score → true ∈ y_true → false ∈ y_true →
  ∃ fpr tpr t, roc_curve y_true y_score = Ok (fpr, tpr, t).
Proof.
  intros Hlen Ht Hf.
  destruct (elem_of_zip_label _ _ _ Hlen Ht) as [st Hst].
  destruct (elem_of_zip_label _ _ _ Hlen Hf) as [sf Hsf].
  rewrite <- by_decreasing_score_Permutation in Hst, Hsf.
  unfold roc_curve, binary_clf_curve.
  rewrite Hlen, Nat.eqb_refl. cbn [negb].
  destruct y_true as [|y0 y_true']; [by apply elem_of_nil in Ht|].
  set (sorted := by_decreasing_score (y0 :: y_true') y_score) in *.
  pose proof (clf_walk_last sorted 0 0) as Hlast.
  destruct (last sorted) as [q|] eqn:Hq.
  2: { apply last_None in Hq. rewrite Hq in Hst. by apply elem_of_nil in Hst. }
  cbn [fmap option_fmap option_map] in Hlast.
  rewrite last_cons, drop_intermediate_last, Hlast.
  cbn [fps tps].
  apply of_class_nonempty in Hst, Hsf.
  destruct (Nat.eqb_spec (0 + length (of_class false sorted)) 0); [lia|].
  destruct (Nat.eqb_spec (0 + length (of_class true sorted)) 0); [lia|].
  cbn [orb]. by eexists _, _, _.
Qed.

End CurveFacts.

(** ** The root finder run in exact arithmetic meets the contract *)

Section Brent.

Import Scipy.

Lemma Qeq_bool_false (u v : Q) : ¬ (u == v)%Q → Qeq_bool u v = false.
Proof.
  intros H. destruct (Qeq_bool u v) eqn:E; [|done].
  apply Qeq_bool_eq in E. contradiction.
Qed.

Lemma Qle_bool_false (u v : Q) : (v < u)%Q → Qle_bool u v = false.
Proof.
  intros H. destruct (Qle_bool u v) eqn:E; [|done].
  apply Qle_bool_iff in E. lra.
Qed.

Lemma Qle_bool_true (u v : Q) : (u <= v)%Q → Qle_bool u v = true.
Proof. apply Qle_bool_iff. Qed.

Lemma opposite_sign_change (u v : Q) : opposite u v = true ↔ sign_change u v.
Proof.
  unfold opposite, sign_change.
  destruct (Q_dec u 0) as [[Hu|Hu]|Hu], (Q_dec v 0) as [[Hv|Hv]|Hv];
    try (rewrite (Qeq_eq_bool u 0) by done);
    try (rewrite (Qeq_eq_bool v 0) by done);
    try (rewrite (Qeq_bool_false u 0) by lra);
    try (rewrite (Qeq_bool_false v 0) by lra);
    try (rewrite (Qle_bool_false 0 u) by lra);
    try (rewrite (Qle_bool_false 0 v) by lra);
    try (rewrite (Qle_bool_true 0 u) by lra);
    try (rewrite (Qle_bool_true 0 v) by lra);
    cbn [negb andb Bool.eqb];
    (split; [try discriminate; intros _; first [left; split; lra|right; split; lra]
            |try done; intros [[? ?]|[? ?]]; lra]).
Qed.

Lemma Qlt_abs_spec (u v : Q) : Qlt_abs u v = true ↔ (Qabs u < Qabs v)%Q.
Proof.
  unfold Qlt_abs. destruct (Qle_bool (Qabs v) (Qabs u)) eqn:H; cbn [negb].
  - apply Qle_bool_iff in H. split; [discriminate|]. intros. lra.
  - split; [|done]. intros _. apply Qnot_le_lt. intros H'.
    apply Qle_bool_iff in H'. congruence.
Qed.

Lemma sign_change_sym u v : sign_change u v → sign_change v u.
Proof. unfold sign_change. tauto. Qed.

Lemma rebracket_best_last (f : Q → res Q) (s : brent) :
  brent_inv f s →
  let s2 := best_last (rebracket s) in
  f (xcur s2) = Ok (fcur s2) ∧ f (xblk s2) = Ok (fblk s2)
  ∧ (Qabs (fcur s2) <= Qabs (fblk s2))%Q
  ∧ ((fcur s2 == 0)%Q ∨ sign_change (fblk s2) (fcur s2)).
Proof.
  intros (Hpre & Hcur & Hnz & Hdis). cbv zeta.
  assert (H1 : f (xcur (rebracket s)) = Ok (fcur (rebracket s))
               ∧ f (xblk (rebracket s)) = Ok (fblk (rebracket s))
               ∧ ((fcur (rebracket s) == 0)%Q
                  ∨ sign_change (fblk (rebracket s)) (fcur (rebracket s)))).
  { unfold rebracket. destruct (opposite (fpre s) (fcur s)) eqn:Hop.
    - apply opposite_sign_change in Hop. simpl. auto.
    - destruct Hdis as [Hsc|[Hblk Hsc]].
      + apply opposite_sign_change in Hsc. congruence.
      + auto. }
  destruct H1 as (Hc & Hb & Hs). revert Hc Hb Hs.
  generalize (rebracket s). intros s1 Hc Hb Hs.
  unfold best_last. destruct (Qlt_abs (fblk s1) (fcur s1)) eqn:Hlt.
  - apply Qlt_abs_spec in Hlt. simpl. repeat split; try done; [lra|].
    destruct Hs as [Hz|Hs]; [|right; by apply sign_change_sym].
    exfalso. rewrite Hz in Hlt. change (Qabs 0) with 0%Q in Hlt.
    pose proof (Qabs_nonneg (fblk s1)). lra.
  - repeat split; try done.
    apply Qnot_lt_le. intros H'. apply Qlt_abs_spec in H'. congruence.
Qed.

Lemma brent_loop_post (f : Q → res Q) (iter : nat) :
  ∀ s x, brent_inv f s → brent_loop f iter s = Ok x → brent_post f x.
Proof.
  induction iter as [|iter IH]; intros s x Hinv; [discriminate|].
  cbn [brent_loop].
  pose proof (rebracket_best_last f s Hinv) as H2. cbv zeta in H2.
  revert H2. generalize (best_last (rebracket s)). intros s2 (Hc & Hb & Habs & Hs).
  set (delta := ((xtol + rtol * Qabs (xcur s2)) / 2)%Q).
  set (sbis := ((xblk s2 - xcur s2) / 2)%Q).
  destruct (Qeq_bool (fcur s2) 0) eqn:Hz.
  { cbn [orb]. intros [= <-]. apply Qeq_bool_eq in Hz.
    exists (fcur s2). split; [done|]. by left. }
  apply Qeq_bool_neq in Hz. cbn [orb].
  destruct Hs as [Hs|Hs]; [done|].
  destruct (Qlt_abs sbis delta) eqn:Hconv.
  { intros [= <-]. apply Qlt_abs_spec in Hconv.
    exists (fcur s2). split; [done|]. right.
    exists (xblk s2), (fblk s2). repeat split; [done|by apply sign_change_sym|done|].
    unfold sbis, delta in Hconv.
    assert (Hd : (0 <= xtol + rtol * Qabs (xcur s2))%Q).
    { pose proof (Qabs_nonneg (xcur s2)).
      assert (0 <= rtol * Qabs (xcur s2))%Q by (apply Qmult_le_0_compat; [done|done]).
      assert (0 <= xtol)%Q by done. lra. }
    assert (E1 : (Qabs ((xblk s2 - xcur s2) / 2) == Qabs (xblk s2 - xcur s2) / 2)%Q).
    { unfold Qdiv. rewrite Qabs_Qmult. reflexivity. }
    assert (E2 : (Qabs ((xtol + rtol * Qabs (xcur s2)) / 2)
                  == (xtol + rtol * Qabs (xcur s2)) / 2)%Q).
    { apply Qabs_pos. apply Qle_shift_div_l; [done|]. lra. }
    rewrite E1, E2 in Hconv.
    apply Qmult_lt_r with (z := (/ 2)%Q); [reflexivity|]. exact Hconv. }
  destruct (if Qlt_abs delta (spre s2) && Qlt_abs (fcur s2) (fpre s2)
            then if Qlt_abs (2 * trial_step s2)
                      (Qmin (Qabs (spre s2)) (3 * Qabs sbis - delta))
                 then (scur s2, trial_step s2) else (sbis, sbis)
            else (sbis, sbis)) as [spre' scur'].
  set (x' := Qred (if Qlt_abs delta scur' then (xcur s2 + scur')%Q
                   else if Qltb 0 sbis then (xcur s2 + delta)%Q
                   else (xcur s2 - delta)%Q)).
  destruct (f x') as [fx|e] eqn:Hfx; [|discriminate].
  apply IH. unfold brent_inv. simpl. repeat split; try done.
  destruct (Qeq_bool fx 0) eqn:Hfz.
  { apply Qeq_bool_eq in Hfz. right. auto. }
  apply Qeq_bool_neq in Hfz.
  destruct (Q_dec 0 fx) as [[Hpos|Hneg]|Heq]; [| |exfalso; apply Hfz; by symmetry].
  - destruct Hs as [[Hb1 Hc1]|[Hb1 Hc1]].
    + right. split; [done|]. right. left. split; lra.
    + left. left. split; lra.
  - destruct Hs as [[Hb1 Hc1]|[Hb1 Hc1]].
    + left. right. split; lra.
    + right. split; [done|]. right. right. split; lra.
Qed.

(** The reference root finder meets the contract. *)
Lemma brentq_meets_contract : brentq_contract brentq.
Proof.
  intros f a b. split.
  - intros ya yb Ha Hb Hz. unfold brentq. rewrite Ha, Hb.
    apply Qeq_eq_bool in Hz. by rewrite Hz.
  - intros x. unfold brentq.
    destruct (f a) as [ya|e] eqn:Ha; [|discriminate].
    destruct (f b) as [yb|e] eqn:Hb; [|discriminate].
    intros Hrun. exists ya, yb. split; [done|]. split; [done|].
    destruct (Qeq_bool ya 0) eqn:Hya.
    { injection Hrun as <-. apply Qeq_bool_eq in Hya. by left. }
    destruct (Qeq_bool yb 0) eqn:Hyb.
    { injection Hrun as <-. apply Qeq_bool_eq in Hyb. right. by left. }
    destruct (Bool.eqb _ _) eqn:Hsame; [discriminate|].
    right. right.
    apply (brent_loop_post f maxiter (Brent a ya b yb 0 0 0 0) x); [|done].
    unfold brent_inv. simpl. pose proof (Qeq_bool_neq _ _ Hya) as Hnz.
    repeat split; try done. left.
    apply opposite_sign_change. unfold opposite. by rewrite Hya, Hyb, Hsame.
Qed.

End Brent.

(** ** A perfect separator *)

Section Separator.

Import Sklearn Roc.

Lemma StronglySorted_reverse {A} (R : relation A) (l : list A) :
  StronglySorted R l → StronglySorted (flip R) (reverse l).
Proof.
  induction 1 as [|x l Hs IH Hall]; [constructor|].
  rewrite reverse_cons. apply StronglySorted_app_2.
  - intros x1 x2 Hx1 Hx2. apply list_elem_of_singleton in Hx2 as ->.
    rewrite elem_of_reverse in Hx1. rewrite Forall_forall in Hall.
    unfold flip. by apply Hall.
  - exact IH.
  - repeat constructor.
Qed.

Lemma by_decreasing_score_sorted (y_true : list bool) (y_score : list Q) :
  StronglySorted (λ a b, b.1 <= a.1)%Q (by_decreasing_score y_true y_score).
Proof.
  unfold by_decreasing_score.
  apply (StronglySorted_reverse (λ a b, a.1 <= b.1)%Q), stable_sort_by_sorted.
Qed.

Lemma perfect_separator_sorted (y_true : list bool) (y_score : list Q) :
  perfect_separator y_true y_score →
  ∀ st sf, (st, true) ∈ by_decreasing_score y_true y_score →
           (sf, false) ∈ by_decreasing_score y_true y_score → (sf < st)%Q.
Proof.
  intros Hsep st sf Ht Hf.
  rewrite by_decreasing_score_Permutation in Ht, Hf.
  apply list_elem_of_lookup in Ht as [i Hi], Hf as [j Hj].
  apply lookup_zip_Some in Hi as [Hsi Hyi], Hj as [Hsj Hyj].
  by eapply Hsep.
Qed.

(** Sorted by decreasing score, the samples of a perfect separator are the
    positive ones followed by the negative ones. *)
Lemma separated_split (l : list (Q * bool)) :
  StronglySorted (λ a b, b.1 <= a.1)%Q l →
  (∀ st sf, (st, true) ∈ l → (sf, false) ∈ l → (sf < st)%Q) →
  ∃ P N, l = P ++ N ∧ Forall (λ p, p.2 = true) P ∧ Forall (λ p, p.2 = false) N.
Proof.
  induction 1 as [|[s y] l Hs IH Hall]; intros Hsep.
  - exists [], []. repeat split; constructor.
  - destruct IH as (P & N & -> & HP & HN).
    { intros st sf Ht Hf. apply Hsep; by right. }
    destruct y.
    + exists ((s, true) :: P), N. repeat split; [by constructor|done].
    + exists [], ((s, false) :: P ++ N). repeat split; [constructor|].
      constructor; [done|]. apply Forall_app. split; [|done].
      apply Forall_forall. intros [st y] Hin.
      rewrite Forall_forall in HP, Hall. specialize (HP _ Hin). simpl in HP. subst y.
      exfalso.
      assert (Hlt : (s < st)%Q).
      { apply Hsep; [right; apply elem_of_app; by left|left]. }
      assert (Hle : (st <= s)%Q).
      { apply (Hall (st, true)). apply elem_of_app. by left. }
      lra.
Qed.

(** The walk over negative samples only. *)
Lemma clf_walk_negatives (N : list (Q * bool)) :
  Forall (λ p, p.2 = false) N →
  ∀ fp tp, Forall (λ q, fp < fps q ∧ tps q = tp) (clf_walk fp tp N).
Proof.
  induction 1 as [|[s y] N Hy _ IH]; intros fp tp; [constructor|].
  simpl in Hy. subst y. cbn [clf_walk].
  destruct N as [|[s' y'] N'].
  - repeat constructor.
  - specialize (IH (S fp) tp).
    assert (IH' : Forall (λ q, fp < fps q ∧ tps q = tp)
                    (clf_walk (S fp) tp ((s', y') :: N'))).
    { eapply Forall_impl; [exact IH|]. simpl. intros q [? ?]. split; [lia|done]. }
    destruct (Qeq_bool s s'); [done|].
    constructor; [simpl; split; [lia|done]|done].
Qed.

Lemma clf_walk_nonempty (l : list (Q * bool)) fp tp :
  l ≠ [] → clf_walk fp tp l ≠ [].
Proof.
  intros Hl Hw. apply (f_equal last) in Hw. rewrite clf_walk_last in Hw.
  destruct (last l) eqn:E; [discriminate|]. by apply last_None in E.
Qed.

(** The walk over a perfect separator runs up the left edge and then along
    the top edge. *)
Lemma clf_walk_separated (P N : list (Q * bool)) :
  Forall (λ p, p.2 = true) P → Forall (λ p, p.2 = false) N →
  P ≠ [] → N ≠ [] →
  (∀ a b, a ∈ P → b ∈ N → (b.1 < a.1)%Q) →
  ∀ tp, corner_shaped (tp + length P) (clf_walk 0 tp (P ++ N)).
Proof.
  intros HP HN HPne HNne.
  induction HP as [|[s y] P Hy HP IH]; [done|]. clear HPne.
  simpl in Hy. subst y. intros Hsep tp.
  destruct P as [|[s2 y2] P'].
  - destruct N as [|[s' y'] N']; [done|].
    assert (Hy' : y' = false) by (by inversion HN).
    subst y'. cbn [app clf_walk].
    assert (Hne : Qeq_bool s s' = false).
    { apply Qeq_bool_false.
      assert ((s' < s)%Q) by (apply (Hsep (s, true) (s', false)); left).
      lra. }
    rewrite Hne.
    exists [], (Point 0 (S tp) (Finite s)), (clf_walk 0 (S tp) ((s', false) :: N')).
    repeat split; try done; [simpl; lia|by apply clf_walk_nonempty|].
    eapply Forall_impl; [by apply clf_walk_negatives|].
    simpl. intros q [? ?]. split; [lia|lia].
  - assert (Hy2 : y2 = true) by (by inversion HP). subst y2.
    destruct (IH ltac:(done)) with (tp := S tp) as (L & c & R & Hw & HL & Hc0 & Hcp & HR & HRall).
    { intros a b Ha Hb. apply Hsep; [by right|done]. }
    change (clf_walk 0 tp (((s, true) :: (s2, true) :: P') ++ N))
      with (if Qeq_bool s s2 then clf_walk 0 (S tp) (((s2, true) :: P') ++ N)
            else Point 0 (S tp) (Finite s) :: clf_walk 0 (S tp) (((s2, true) :: P') ++ N)).
    rewrite Hw.
    assert (Hlen : S tp + length ((s2, true) :: P') = tp + length ((s, true) :: (s2, true) :: P'))
      by (simpl; lia).
    rewrite Hlen in Hcp, HRall.
    destruct (Qeq_bool s s2).
    + by exists L, c, R.
    + exists (Point 0 (S tp) (Finite s) :: L), c, R. repeat split; try done.
      constructor; [done|done].
Qed.

Lemma drop_straight_nonempty (l : list point) p : l ≠ [] → drop_straight p l ≠ [].
Proof.
  intros Hl He. apply (f_equal last) in He. rewrite drop_straight_last in He.
  by apply last_None in He.
Qed.

Lemma Forall_sublist {A} (Q : A → Prop) (l1 l2 : list A) :
  l1 `sublist_of` l2 → Forall Q l2 → Forall Q l1.
Proof.
  intros Hsub. rewrite !Forall_forall. intros H x Hx.
  apply H. by eapply elem_of_sublist.
Qed.

(** Dropping the straight stretches keeps the corner. *)
Lemma drop_straight_corner (p : nat) (c : point) (R : list point) :
  fps c = 0 → tps c = p → R ≠ [] → Forall (λ q, 0 < fps q ∧ tps q = p) R →
  ∀ L prev, fps prev = 0 → Forall (λ q, fps q = 0) L →
    ∃ L' R', drop_straight prev (L ++ c :: R) = L' ++ c :: R'
             ∧ Forall (λ q, fps q = 0) L'
             ∧ R' ≠ []
             ∧ Forall (λ q, 0 < fps q ∧ tps q = p) R'.
Proof.
  intros Hc0 Hcp HR HRall.
  induction L as [|q L IH]; intros prev Hprev HL.
  - destruct R as [|n R']; [done|].
    change (drop_straight prev ([] ++ c :: n :: R'))
      with (if bends prev c n then c :: drop_straight c (n :: R')
            else drop_straight c (n :: R')).
    assert (Hb : bends prev c n = true).
    { unfold bends. apply Forall_cons in HRall as [[Hn _] _].
      destruct (Z.eqb_spec (Z.of_nat (fps n) - 2 * Z.of_nat (fps c) + Z.of_nat (fps prev)) 0);
        [lia|reflexivity]. }
    rewrite Hb. exists [], (drop_straight c (n :: R')).
    repeat split; [constructor|by apply drop_straight_nonempty|].
    eapply Forall_sublist; [apply drop_straight_sublist|done].
  - apply Forall_cons in HL as [Hq HL].
    destruct (IH q Hq HL) as (L' & R' & Heq & HL' & HR' & HRall').
    assert (Hstep : ∃ n rest, L ++ c :: R = n :: rest).
    { destruct L; simpl; eauto. }
    destruct Hstep as (n & rest & Hnr).
    change ((q :: L) ++ c :: R) with (q :: (L ++ c :: R)).
    rewrite Hnr in Heq |- *.
    change (drop_straight prev (q :: n :: rest))
      with (if bends prev q n then q :: drop_straight q (n :: rest)
            else drop_straight q (n :: rest)).
    rewrite Heq. destruct (bends prev q n).
    + exists (q :: L'), R'. repeat split; try done. by constructor.
    + by exists L', R'.
Qed.

Lemma drop_intermediate_corner (p : nat) (curve : list point) :
  corner_shaped p curve → corner_shaped p (drop_intermediate curve).
Proof.
  intros (L & c & R & -> & HL & Hc0 & Hcp & HR & HRall).
  unfold drop_intermediate.
  destruct L as [|q L].
  - cbn [app]. destruct (2 <? length (c :: R)).
    + exists [], c, (drop_straight c R). repeat split; try done.
      * by apply drop_straight_nonempty.
      * eapply Forall_sublist; [apply drop_straight_sublist|done].
    + by exists [], c, R.
  - change ((q :: L) ++ c :: R) with (q :: (L ++ c :: R)).
    destruct (2 <? length (q :: L ++ c :: R)).
    + apply Forall_cons in HL as [Hq HL].
      destruct (drop_straight_corner p c R Hc0 Hcp HR HRall L q Hq HL)
        as (L' & R' & -> & HL' & HR' & HRall').
      exists (q :: L'), c, R'. repeat split; try done. by constructor.
    + by exists (q :: L), c, R.
Qed.

(** ** The area under a corner-shaped curve *)

Lemma rate_zero n : (of_count 0 / of_count n == 0)%Q.
Proof. unfold Qdiv. change (of_count 0) with 0%Q. ring. Qed.

Lemma rate_one n : 0 < n → (of_count n / of_count n == 1)%Q.
Proof.
  intros Hn. apply of_count_pos in Hn. unfold Qdiv. apply Qmult_inv_r. lra.
Qed.

Lemma trapz_step (y0 y1 : Q) (ys : list Q) (x0 x1 : Q) (xs : list Q) :
  trapz (y0 :: y1 :: ys) (x0 :: x1 :: xs) =
    ((x1 - x0) * (y1 + y0) / 2 + trapz (y1 :: ys) (x1 :: xs))%Q.
Proof. reflexivity. Qed.

(** Along the left edge nothing is added to the area. *)
Lemma trapz_left_edge (final c : point) (R L : list point) :
  Forall (λ q, fps q = 0) L → fps c = 0 →
  (trapz (true_positive_rates final (L ++ c :: R))
         (false_positive_rates final (L ++ c :: R))
   == trapz (true_positive_rates final (c :: R))
            (false_positive_rates final (c :: R)))%Q.
Proof.
  intros HL Hc. induction HL as [|q L Hq HL IH]; [reflexivity|].
  assert (Hstep : ∃ n rest, L ++ c :: R = n :: rest ∧ fps n = 0).
  { destruct HL as [|n L' Hn _]; simpl; eauto. }
  destruct Hstep as (n & rest & Hnr & Hn).
  change ((q :: L) ++ c :: R) with (q :: (L ++ c :: R)).
  rewrite Hnr in IH |- *.
  etransitivity; [|exact IH].
  unfold true_positive_rates, false_positive_rates.
  rewrite !fmap_cons, trapz_step, Hq, Hn. unfold Qdiv. ring.
Qed.

(** Along the top edge the area grows with the false positive rate. *)
Lemma trapz_top_edge (final : point) (p : nat) (R : list point) :
  0 < p → tps final = p →
  ∀ c, Forall (λ q, tps q = p) (c :: R) →
    ∃ e, last (c :: R) = Some e
         ∧ (trapz (true_positive_rates final (c :: R))
                  (false_positive_rates final (c :: R))
            == of_count (fps e) / of_count (fps final)
               - of_count (fps c) / of_count (fps final))%Q.
Proof.
  intros Hp Hfinal.
  induction R as [|n R IH]; intros c Hall.
  - exists c. split; [done|]. simpl. unfold Qdiv. ring.
  - apply Forall_cons in Hall as [Hc Hall].
    destruct (IH n Hall) as (e & He & Harea).
    exists e. split; [by rewrite last_cons_cons|].
    unfold true_positive_rates, false_positive_rates in *.
    rewrite !fmap_cons in *. rewrite trapz_step, Harea.
    apply Forall_cons in Hall as [Hn _].
    rewrite Hc, Hn, Hfinal. rewrite (rate_one p Hp). unfold Qdiv.
    generalize (/ of_count (fps final))%Q. intros inv. field.
Qed.

(** The area under a corner-shaped curve is the whole unit square. *)
Lemma trapz_corner (final : point) (p : nat) (curve : list point) :
  corner_shaped p curve → last curve = Some final → 0 < p → 0 < fps final →
  (trapz (true_positive_rates final curve) (false_positive_rates final curve) == 1)%Q.
Proof.
  intros (L & c & R & -> & HL & Hc0 & Hcp & HR & HRall) Hlast Hp Hn.
  rewrite last_app_cons in Hlast.
  assert (Hfinal : tps final = p).
  { destruct R as [|r R']; [done|]. rewrite last_cons_cons in Hlast.
    apply last_Some_elem_of in Hlast. rewrite Forall_forall in HRall.
    by apply HRall. }
  rewrite trapz_left_edge by done.
  destruct (trapz_top_edge final p R Hp Hfinal c) as (e & He & ->).
  { constructor; [done|]. eapply Forall_impl; [exact HRall|]. by intros q [_ ?]. }
  assert (e = final) as -> by congruence.
  rewrite Hc0, (rate_one _ Hn), rate_zero. ring.
Qed.

(** ** The interpolant on a corner-shaped curve *)

Lemma zip_rates (final : point) (curve : list point) :
  zip (false_positive_rates final curve) (true_positive_rates final curve)
  = (rate_point final <$> curve).
Proof.
  unfold false_positive_rates, true_positive_rates.
  induction curve as [|c curve IH]; [done|].
  rewrite !fmap_cons. cbn [zip zip_with]. f_equal. exact IH.
Qed.

Lemma insert_by_last {A} (key : A → Q) (x : A) (l : list A) :
  Forall (λ y, key y <= key x)%Q l → insert_by key x l = l ++ [x].
Proof.
  induction 1 as [|y l Hy _ IH]; [done|].
  simpl. apply Qle_bool_iff in Hy. by rewrite Hy, IH.
Qed.

(** The stable sort leaves an ascending list as it is. *)
Lemma stable_sort_by_ascending {A} (key : A → Q) (l : list A) :
  StronglySorted (λ a b, key a <= key b)%Q l → stable_sort_by key l = l.
Proof.
  unfold stable_sort_by.
  induction l as [|x l IH] using rev_ind; intros Hs; [done|].
  apply StronglySorted_app in Hs as (Hle & Hs & _).
  rewrite reverse_app. cbn [reverse app foldr]. change (reverse [x]) with [x].
  cbn [app foldr]. rewrite IH by done.
  apply insert_by_last. apply Forall_forall. intros y Hy.
  apply Hle; [done|left].
Qed.

Lemma rate_points_ascending (final : point) (curve : list point) :
  0 < fps final → monotone curve →
  StronglySorted (λ a b, a.1 <= b.1)%Q (rate_point final <$> curve).
Proof.
  intros Hn. unfold monotone.
  induction 1 as [|c curve Hs IH Hall]; [constructor|].
  rewrite fmap_cons. constructor; [done|].
  apply Forall_fmap. eapply Forall_impl; [exact Hall|].
  intros q [Hle _]. simpl. by apply rate_le.
Qed.

Lemma np_interp_step (x0 y0 x1 y1 : Q) (rest : list (Q * Q)) (x : Q) :
  Scipy.np_interp ((x0, y0) :: (x1, y1) :: rest) x =
    if Qle_bool x1 x then Scipy.np_interp ((x1, y1) :: rest) x
    else if Qeq_bool x0 x then y0
    else ((y1 - y0) / (x1 - x0) * (x - x0) + y0)%Q.
Proof. reflexivity. Qed.

(** At abscissa 0 the interpolant takes the value of the corner. *)
Lemma np_interp_corner (final c : point) (R : list point) :
  0 < fps final → fps c = 0 → R ≠ [] → Forall (λ q, 0 < fps q) R →
  ∀ L, Forall (λ q, fps q = 0) L →
    Scipy.np_interp (rate_point final <$> (L ++ c :: R)) 0
    = (of_count (tps c) / of_count (tps final))%Q.
Proof.
  intros Hn Hc HR HRall L HL.
  induction HL as [|q L Hq HL IH].
  - destruct R as [|r R']; [done|].
    cbn [app]. rewrite !fmap_cons. unfold rate_point at 1 2.
    rewrite np_interp_step.
    apply Forall_cons in HRall as [Hr _].
    rewrite Qle_bool_false.
    2: { apply Qlt_shift_div_l; [by apply of_count_pos|].
         rewrite Qmult_0_l. by apply of_count_pos. }
    rewrite Hc, (Qeq_eq_bool _ 0) by apply rate_zero. reflexivity.
  - assert (Hstep : ∃ n rest, L ++ c :: R = n :: rest ∧ fps n = 0).
    { destruct HL as [|n L' Hn' _]; simpl; eauto. }
    destruct Hstep as (n & rest & Hnr & Hn0).
    change ((q :: L) ++ c :: R) with (q :: (L ++ c :: R)).
    rewrite Hnr in IH |- *. rewrite !fmap_cons in *.
    unfold rate_point at 1 2. rewrite np_interp_step.
    rewrite Qle_bool_true; [exact IH|].
    rewrite Hn0, rate_zero. apply Qle_refl.
Qed.

(** On a corner-shaped curve the function whose root is sought vanishes
    at 0 and has a value at 1. *)
Lemma eer_function_corner (final : point) (p : nat) (curve : list point) :
  corner_shaped p curve → monotone curve → last curve = Some final →
  0 < p → 0 < fps final →
  (∃ y0, eer_function (false_positive_rates final curve)
           (true_positive_rates final curve) 0 = Ok y0 ∧ (y0 == 0)%Q)
  ∧ (∃ y1, eer_function (false_positive_rates final curve)
             (true_positive_rates final curve) 1 = Ok y1).
Proof.
  intros Hcorner Hmono Hlast Hp Hn.
  pose proof Hcorner as (L & c & R & Hcurve & HL & Hc0 & Hcp & HR & HRall).
  assert (Hfinal : tps final = p).
  { rewrite Hcurve, last_app_cons in Hlast.
    destruct R as [|r R']; [done|]. rewrite last_cons_cons in Hlast.
    apply last_Some_elem_of in Hlast. rewrite Forall_forall in HRall.
    by apply HRall. }
  unfold eer_function, Scipy.interp1d.
  assert (Hl1 : length (false_positive_rates final curve) = length curve)
    by (unfold false_positive_rates; apply length_fmap).
  assert (Hl2 : length (true_positive_rates final curve) = length curve)
    by (unfold true_positive_rates; apply length_fmap).
  rewrite Hl1, Hl2, Nat.eqb_refl. cbn [negb].
  rewrite zip_rates, stable_sort_by_ascending by (by apply rate_points_ascending).
  assert (Hhead : ∃ h rest, curve = h :: rest ∧ fps h = 0).
  { rewrite Hcurve. destruct HL as [|h L' Hh _]; simpl; eauto. }
  destruct Hhead as (h & rest & Hh & Hh0).
  rewrite fmap_last, Hlast.
  assert (Hinterp : Scipy.np_interp (rate_point final <$> curve) 0
                    = (of_count (tps c) / of_count (tps final))%Q).
  { rewrite Hcurve. apply np_interp_corner; try done.
    eapply Forall_impl; [exact HRall|]. by intros q [? _]. }
  rewrite Hh in Hinterp |- *. rewrite fmap_cons in Hinterp |- *.
  cbn [fmap option_fmap option_map].
  unfold rate_point in Hinterp |- *.
  cbv beta iota zeta in Hinterp |- *.
  assert (Hlo : (of_count (fps h) / of_count (fps final) == 0)%Q)
    by (rewrite Hh0; apply rate_zero).
  assert (Hhi : (of_count (fps final) / of_count (fps final) == 1)%Q)
    by (by apply rate_one).
  rewrite !(Qle_bool_true (of_count (fps h) / of_count (fps final))) by (rewrite Hlo; done).
  rewrite !(Qle_bool_true _ (of_count (fps final) / of_count (fps final)))
    by (rewrite Hhi; done).
  cbn [andb]. split.
  - eexists. split; [reflexivity|].
    rewrite Hinterp, Hcp, Hfinal, (rate_one p Hp). ring.
  - by eexists.
Qed.

(** What [roc_curve] returns for a perfect separator. *)
Lemma perfect_separator_curve (y_true : list bool) (y_score : list Q) :
  length y_true = length y_score → true ∈ y_true → false ∈ y_true →
  perfect_separator y_true y_score →
  ∃ final p curve,
    roc_curve y_true y_score =
      Ok (false_positive_rates final curve, true_positive_rates final curve,
          thr <$> curve)
    ∧ corner_shaped p curve ∧ monotone curve ∧ last curve = Some final
    ∧ 0 < p ∧ 0 < fps final
    ∧ head curve = Some (Point 0 0 Inf).
Proof.
  intros Hlen Ht Hf Hsep.
  destruct (roc_curve_ok _ _ Hlen Ht Hf) as (fpr & tpr & t & Hroc).
  pose proof (roc_curve_inv _ _ _ _ _ Hroc) as (final & Hinv).
  cbv zeta in Hinv.
  destruct Hinv as (_ & Hlast & Hn & Hpf & Hmono & -> & -> & ->).
  set (sorted := by_decreasing_score y_true y_score) in *.
  destruct (separated_split sorted) as (P & N & Hsorted & HP & HN).
  { apply by_decreasing_score_sorted. }
  { by apply perfect_separator_sorted. }
  destruct (elem_of_zip_label _ _ _ Hlen Ht) as [st Hst].
  destruct (elem_of_zip_label _ _ _ Hlen Hf) as [sf Hsf].
  rewrite <- by_decreasing_score_Permutation in Hst, Hsf.
  fold sorted in Hst, Hsf. rewrite Hsorted in Hst, Hsf.
  assert (HPne : P ≠ []).
  { intros ->. rewrite Forall_forall in HN. by specialize (HN _ Hst). }
  assert (HNne : N ≠ []).
  { intros ->. rewrite app_nil_r in Hsf. rewrite Forall_forall in HP.
    by specialize (HP _ Hsf). }
  assert (Hwalk : corner_shaped (0 + length P) (clf_walk 0 0 sorted)).
  { rewrite Hsorted. apply clf_walk_separated; try done.
    intros [sa ya] [sb yb] Ha Hb.
    rewrite Forall_forall in HP, HN.
    pose proof (HP _ Ha) as Hya. pose proof (HN _ Hb) as Hyb. simpl in Hya, Hyb. subst.
    simpl. apply (perfect_separator_sorted y_true y_score Hsep).
    - fold sorted. rewrite Hsorted. apply elem_of_app. by left.
    - fold sorted. rewrite Hsorted. apply elem_of_app. by right. }
  exists final, (0 + length P), (Point 0 0 Inf
                                  :: drop_intermediate (clf_walk 0 0 sorted)).
  split; [done|]. split.
  { apply drop_intermediate_corner in Hwalk
      as (L & c & R & -> & HL & Hc0 & Hcp & HR & HRall).
    exists (Point 0 0 Inf :: L), c, R.
    repeat split; try done. by constructor. }
  split; [done|]. split.
  { rewrite last_cons, drop_intermediate_last, Hlast. done. }
  split; [destruct P; [done|simpl; lia]|]. split; [done|reflexivity].
Qed.

(** The rates of a corner-shaped curve that starts at the origin. *)
Lemma corner_along_the_edges (final : point) (p : nat) (curve : list point) :
  corner_shaped p curve → last curve = Some final → 0 < p → 0 < fps final →
  head curve = Some (Point 0 0 Inf) →
  along_the_edges (false_positive_rates final curve) (true_positive_rates final curve).
Proof.
  intros (L & c & R & -> & HL & Hc0 & Hcp & HR & HRall) Hlast Hp Hn Hhead.
  rewrite last_app_cons in Hlast.
  assert (Hfinal : tps final = p).
  { destruct R as [|r R']; [done|]. rewrite last_cons_cons in Hlast.
    apply last_Some_elem_of in Hlast. rewrite Forall_forall in HRall.
    by apply HRall. }
  unfold along_the_edges, false_positive_rates, true_positive_rates.
  split; [|split].
  - destruct (L ++ c :: R) as [|h rest]; [discriminate|].
    injection Hhead as ->. eexists _, _. cbn [fmap list_fmap head fps tps].
    split; [reflexivity|]. split; [reflexivity|]. split; apply rate_zero.
  - eexists _, _. rewrite !fmap_last, last_app_cons, Hlast.
    cbn [fmap option_fmap option_map].
    split; [reflexivity|]. split; [reflexivity|].
    split; apply rate_one; lia.
  - apply Forall2_fmap, Forall_Forall2_diag.
    rewrite Forall_app, Forall_cons. split; [|split].
    + eapply Forall_impl; [exact HL|]. intros q Hq. simpl in *.
      left. rewrite Hq. apply rate_zero.
    + left. rewrite Hc0. apply rate_zero.
    + eapply Forall_impl; [exact HRall|]. intros q [_ Hq]. simpl.
      right. rewrite Hq, Hfinal. apply rate_one. lia.
Qed.

End Separator.

(** ** The ROC branch of the evaluator *)

Lemma roc_curve_lengths (y_true : list bool) (y_score fpr tpr : list Q)
    (t : list Roc.cut) :
  Roc.roc_curve y_true y_score = Ok (fpr, tpr, t) →
  length fpr = length t ∧ length tpr = length t ∧ 0 < length t.
Proof.
  unfold Roc.roc_curve.
  destruct (Roc.binary_clf_curve y_true y_score) as [curve|e]; [|discriminate].
  destruct (last _) as [final|]; [|discriminate].
  destruct (_ || _); [discriminate|].
  intros [= <- <- <-]. unfold Roc.false_positive_rates, Roc.true_positive_rates.
  cbn [fmap list_fmap length]. rewrite !length_fmap. lia.
Qed.

Section RocBranch.

Variable brentq : (Q → res Q) → Q → Q → res Q.

(** How [roc] runs once the curve and the root are there. *)
Lemma roc_run (labels : list bool) (scores : loc) (saveto : bool)
    (output_directory : string) (epoch : Z) (w : world)
    (fpr tpr : list Q) (t : list Roc.cut) (eer : Q) :
  Roc.roc_curve labels (arrays w !!! scores) = Ok (fpr, tpr, t) →
  brentq (eer_function fpr tpr) 0%Q 1%Q = Ok eer →
  ∃ k thr fk tk,
    roc brentq labels scores saveto output_directory epoch w =
      (Ok (RocResult (Roc.trapz tpr fpr) thr t),
       if saveto
       then roc_world w (roc_path output_directory epoch) (Figure fpr tpr (Roc.trapz tpr fpr) eer)
       else w)
    ∧ t !! k = Some thr ∧ fpr !! k = Some fk ∧ tpr !! k = Some tk
    ∧ ∀ j fj tj, fpr !! j = Some fj → tpr !! j = Some tj →
        (Qabs (tk - (1 - fk)) <= Qabs (tj - (1 - fj)))%Q.
Proof.
  intros Hcurve Hroot.
  pose proof (roc_curve_auc _ _ _ _ _ Hcurve) as Hauc.
  destruct (roc_curve_lengths _ _ _ _ _ Hcurve) as (Hf & Ht & Hpos).
  unfold roc, mbind, M_bind, bind, read_array, lift.
  rewrite Hcurve, Hauc.
  unfold array_sub, series. rewrite length_fmap, Ht, Hf, Nat.eqb_refl.
  rewrite length_zip_with, length_fmap, length_seq, Hf, Ht, Nat.min_id, !Nat.eqb_refl.
  set (tf := zip_with Qminus tpr ((λ x, (1 - x)%Q) <$> fpr)).
  set (keys := (λ x, Qabs (x - 0)) <$> tf).
  assert (Hlk : length keys = length t).
  { unfold keys, tf. rewrite length_fmap, length_zip_with, length_fmap. lia. }
  destruct (argsort keys) as [|k order] eqn:Hsort.
  { apply (f_equal length) in Hsort. rewrite argsort_length in Hsort.
    simpl in Hsort. lia. }
  apply argsort_head in Hsort as (x & Hx & Hmin).
  assert (Hk : k < length t) by (rewrite <- Hlk; by eapply lookup_lt_Some).
  destruct (lookup_lt_is_Some_2 t k Hk) as [thr Hthr].
  destruct (lookup_lt_is_Some_2 fpr k ltac:(lia)) as [fk Hfk].
  destruct (lookup_lt_is_Some_2 tpr k ltac:(lia)) as [tk Htk].
  exists k, thr, fk, tk.
  assert (Hkey : ∀ j fj tj, fpr !! j = Some fj → tpr !! j = Some tj →
                   keys !! j = Some (Qabs (tj - (1 - fj) - 0))).
  { intros j fj tj Hfj Htj. unfold keys, tf.
    rewrite list_lookup_fmap, lookup_zip_with, Htj, list_lookup_fmap, Hfj.
    reflexivity. }
  split; [|repeat split; try done].
  - cbn [take iloc]. rewrite Hthr. cbn [first_of]. rewrite Hroot.
    destruct saveto; reflexivity.
  - intros j fj tj Hfj Htj.
    assert (Hxe : x = Qabs (tk - (1 - fk) - 0)).
    { pose proof (Hkey k fk tk Hfk Htk) as Hxk. congruence. }
    specialize (Hmin j _ (Hkey j fj tj Hfj Htj)). subst x.
    assert (E : ∀ q, (q - 0 == q)%Q) by (intros; ring).
    by rewrite !E in Hmin.
Qed.

(** The same for [evaluate], which passes the flag at its default. *)
Lemma evaluate_roc_run (labels : list bool) (scores : loc)
    (output_directory : string) (epoch : Z) (w : world)
    (fpr tpr : list Q) (t : list Roc.cut) (eer : Q) :
  Roc.roc_curve labels (arrays w !!! scores) = Ok (fpr, tpr, t) →
  brentq (eer_function fpr tpr) 0%Q 1%Q = Ok eer →
  ∃ k thr fk tk,
    evaluate brentq labels scores "roc" output_directory epoch w =
      (Ok (RocResult (Roc.trapz tpr fpr) thr t),
       roc_world w (roc_path output_directory epoch) (Figure fpr tpr (Roc.trapz tpr fpr) eer))
    ∧ t !! k = Some thr ∧ fpr !! k = Some fk ∧ tpr !! k = Some tk
    ∧ ∀ j fj tj, fpr !! j = Some fj → tpr !! j = Some tj →
        (Qabs (tk - (1 - fk)) <= Qabs (tj - (1 - fj)))%Q.
Proof.
  intros Hcurve Hroot. unfold evaluate. cbn [String.eqb Ascii.eqb Bool.eqb].
  apply (roc_run labels scores true output_directory epoch w _ _ _ _ Hcurve Hroot).
Qed.

(** C6.  When [roc_curve] and the root finder answer, [evaluate] under the
    metric ["roc"] returns the trapezoidal area under the curve, the balanced
    threshold and the whole threshold sequence of the curve; the balanced
    threshold is the entry of that sequence at a curve point where
    [|TPR - (1 - FPR)|] is least among all curve points. *)
Theorem evaluate_roc_balanced_threshold (labels : list bool) (scores : loc)
    (output_directory : string) (epoch : Z) (w : world)
    (fpr tpr : list Q) (t : list Roc.cut) (eer : Q) :
  Roc.roc_curve labels (arrays w !!! scores) = Ok (fpr, tpr, t) →
  brentq (eer_function fpr tpr) 0%Q 1%Q = Ok eer →
  ∃ k thr fk tk,
    evaluate brentq labels scores "roc" output_directory epoch w =
      (Ok (RocResult (Roc.trapz tpr fpr) thr t),
       roc_world w (roc_path output_directory epoch) (Figure fpr tpr (Roc.trapz tpr fpr) eer))
    ∧ t !! k = Some thr ∧ fpr !! k = Some fk ∧ tpr !! k = Some tk
    ∧ ∀ j fj tj, fpr !! j = Some fj → tpr !! j = Some tj →
        (Qabs (tk - (1 - fk)) <= Qabs (tj - (1 - fj)))%Q.
Proof.
  intros Hcurve Hroot. by apply evaluate_roc_run.
Qed.

(** How [roc] can return at all: the curve and the root were found. *)
Lemma roc_ok_inv (labels : list bool) (scores : loc) (saveto : bool)
    (output_directory : string) (epoch : Z) (w w' : world) (r : eval_result) :
  roc brentq labels scores saveto output_directory epoch w = (Ok r, w') →
  ∃ fpr tpr t eer,
    Roc.roc_curve labels (arrays w !!! scores) = Ok (fpr, tpr, t)
    ∧ brentq (eer_function fpr tpr) 0%Q 1%Q = Ok eer.
Proof.
  unfold roc, mbind, M_bind, bind, read_array, lift.
  destruct (Roc.roc_curve labels (arrays w !!! scores)) as [[[fpr tpr] t]|e] eqn:Hcurve;
    [|discriminate].
  destruct (Roc.auc fpr tpr) as [a|e] eqn:Hauc; [|discriminate].
  destruct (array_sub _ _) as [d|e]; [|discriminate].
  destruct (series d _) as [tf|e]; [|discriminate].
  destruct (series t _) as [ts|e]; [|discriminate].
  destruct (iloc ts _) as [roc_t|e]; [|discriminate].
  destruct (first_of roc_t) as [thr|e]; [|discriminate].
  destruct (brentq _ _ _) as [eer|e] eqn:Hroot; [|discriminate].
  intros _. by exists fpr, tpr, t, eer.
Qed.

(** C10.  Whenever [evaluate] under the metric ["roc"] returns a result,
    it has saved the ROC figure to [<output_directory>/ROC<epoch>.png], as
    the one change to the world, and nothing that the caller passes can
    prevent it.  The figure is the one of the input: it shows the curve of
    the labels and the scores behind the reference, the trapezoidal area
    under that curve, which is also the area returned, and the root that
    the root finder gave for that curve. *)
Theorem evaluate_roc_saves_plot (labels : list bool) (scores : loc)
    (output_directory : string) (epoch : Z) (w w' : world) (r : eval_result) :
  evaluate brentq labels scores "roc" output_directory epoch w = (Ok r, w') →
  ∃ fpr tpr t thr eer,
    Roc.roc_curve labels (arrays w !!! scores) = Ok (fpr, tpr, t)
    ∧ brentq (eer_function fpr tpr) 0%Q 1%Q = Ok eer
    ∧ r = RocResult (Roc.trapz tpr fpr) thr t
    ∧ w' = World (arrays w) (stdout w)
               (files w ++ [SaveFig (output_directory +:+ "/ROC" +:+ str epoch +:+ ".png")
                                    (Figure fpr tpr (Roc.trapz tpr fpr) eer)])
               (board w).
Proof.
  unfold evaluate. cbn [String.eqb Ascii.eqb Bool.eqb]. intros Hrun.
  destruct (roc_ok_inv _ _ _ _ _ _ _ _ Hrun) as (fpr & tpr & t & eer & H1 & H2).
  destruct (roc_run labels scores true output_directory epoch w _ _ _ _ H1 H2)
    as (k & thr & fk & tk & Hrun' & _).
  rewrite Hrun' in Hrun. injection Hrun as <- <-.
  by exists fpr, tpr, t, thr, eer.
Qed.

(** With the flag off, which [evaluate] never passes, nothing is saved. *)
Lemma roc_without_saveto (labels : list bool) (scores : loc)
    (output_directory : string) (epoch : Z) (w w' : world) (r : eval_result) :
  roc brentq labels scores false output_directory epoch w = (Ok r, w') → w' = w.
Proof.
  intros Hrun.
  destruct (roc_ok_inv _ _ _ _ _ _ _ _ Hrun) as (fpr & tpr & t & eer & H1 & H2).
  destruct (roc_run labels scores false output_directory epoch w _ _ _ _ H1 H2)
    as (k & thr & fk & tk & Hrun' & _).
  rewrite Hrun' in Hrun. by injection Hrun as _ <-.
Qed.

End RocBranch.

(** The inputs of sklearn's documentation, behind reference 0. *)
Lemma evaluate_roc_balanced_threshold_witness :
  ∃ a thr t w',
    evaluate Scipy.brentq [false; false; true; true] 0 "roc" "out" 7
      (World {[ 0 := [0.1; 0.4; 0.35; 0.8]%Q ]} [] [] []) = (Ok (RocResult a thr t), w')
    ∧ (a == 3 # 4)%Q ∧ thr = Roc.Finite 0.4%Q
    ∧ t = [Roc.Inf; Roc.Finite 0.8; Roc.Finite 0.4; Roc.Finite 0.35; Roc.Finite 0.1]%Q.
Proof.
  edestruct (evaluate_roc_balanced_threshold Scipy.brentq [false; false; true; true] 0
               "out" 7 (World {[ 0 := [0.1; 0.4; 0.35; 0.8]%Q ]} [] [] []))
    as (k & thr & fk & tk & Hrun & Hthr & _).
  - vm_compute. reflexivity.
  - vm_compute. reflexivity.
  - eexists _, thr, _, _. split; [exact Hrun|].
    split; [reflexivity|]. split; [|reflexivity].
    vm_compute in Hrun. by injection Hrun as <-.
Defined.

Lemma evaluate_roc_saves_plot_witness :
  ∃ r w' eer,
    evaluate Scipy.brentq [false; false; true; true] 0 "roc" "out" 7
      (World {[ 0 := [0.1; 0.4; 0.35; 0.8]%Q ]} [] [] []) = (Ok r, w')
    ∧ files w' = [SaveFig "out/ROC7.png"
                    (Figure example_fpr example_tpr
                       (Roc.trapz example_tpr example_fpr) eer)].
Proof.
  edestruct (evaluate_roc_saves_plot Scipy.brentq [false; false; true; true] 0
               "out" 7 (World {[ 0 := [0.1; 0.4; 0.35; 0.8]%Q ]} [] [] []))
    as (fpr & tpr & t & thr & eer & Hcurve & _ & _ & Hw).
  - vm_compute. reflexivity.
  - eexists _, _, eer. split; [vm_compute; reflexivity|].
    vm_compute in Hcurve. injection Hcurve as <- <- <-.
    apply (f_equal files) in Hw. cbn [files] in Hw.
    etransitivity; [|exact Hw]. vm_compute. reflexivity.
Defined.

(** ** The visualisation sink *)

Section VisualizerFacts.

Import Visualizer.

Lemma Qmin_cases (x y : Q) : Qmin x y = x ∨ Qmin x y = y.
Proof. unfold Qmin, GenericMinMax.gmin. destruct (x ?= y)%Q; auto. Qed.

Lemma Qmax_cases (x y : Q) : Qmax x y = x ∨ Qmax x y = y.
Proof. unfold Qmax, GenericMinMax.gmax. destruct (x ?= y)%Q; auto. Qed.

Lemma foldl_Qmin_spec (rest : list Q) (x : Q) :
  foldl Qmin x rest ∈ x :: rest
  ∧ Forall (λ v, foldl Qmin x rest <= v)%Q (x :: rest).
Proof.
  revert x. induction rest as [|y rest IH]; intros x; simpl.
  - split; [left|]. repeat constructor. apply Qle_refl.
  - destruct (IH (Qmin x y)) as [Hin Hall].
    apply Forall_cons in Hall as [Hm Hall].
    pose proof (Q.le_min_l x y). pose proof (Q.le_min_r x y).
    split.
    + apply elem_of_cons in Hin as [Hin|Hin]; [|by do 2 right].
      rewrite Hin. destruct (Qmin_cases x y) as [->| ->]; [left|right; left].
    + repeat constructor; [lra|lra|done].
Qed.

Lemma foldl_Qmax_spec (rest : list Q) (x : Q) :
  foldl Qmax x rest ∈ x :: rest
  ∧ Forall (λ v, v <= foldl Qmax x rest)%Q (x :: rest).
Proof.
  revert x. induction rest as [|y rest IH]; intros x; simpl.
  - split; [left|]. repeat constructor. apply Qle_refl.
  - destruct (IH (Qmax x y)) as [Hin Hall].
    apply Forall_cons in Hall as [Hm Hall].
    pose proof (Q.le_max_l x y). pose proof (Q.le_max_r x y).
    split.
    + apply elem_of_cons in Hin as [Hin|Hin]; [|by do 2 right].
      rewrite Hin. destruct (Qmax_cases x y) as [->| ->]; [left|right; left].
    + repeat constructor; [lra|lra|done].
Qed.

Lemma array_min_spec (inp : list Q) lo :
  array_min inp = Ok lo → lo ∈ inp ∧ Forall (λ v, lo <= v)%Q inp.
Proof.
  destruct inp as [|x rest]; [discriminate|]. intros [= <-].
  apply foldl_Qmin_spec.
Qed.

Lemma array_max_spec (inp : list Q) hi :
  array_max inp = Ok hi → hi ∈ inp ∧ Forall (λ v, v <= hi)%Q inp.
Proof.
  destruct inp as [|x rest]; [discriminate|]. intros [= <-].
  apply foldl_Qmax_spec.
Qed.

Lemma eps_pos : (0 < eps)%Q.
Proof. reflexivity. Qed.

Lemma normalize_ok (inp : list Q) :
  inp ≠ [] →
  ∃ lo hi, array_min inp = Ok lo ∧ array_max inp = Ok hi
           ∧ normalize inp = Ok ((λ v, (v - lo) / (hi - lo + eps))%Q <$> inp).
Proof.
  destruct inp as [|x rest]; [done|]. intros _.
  eexists _, _. repeat split.
Qed.

Lemma normalize_spec (inp out : list Q) :
  normalize inp = Ok out → normalized_batch inp out.
Proof.
  intros Hn.
  assert (Hne : inp ≠ []) by (intros ->; discriminate).
  destruct (normalize_ok inp Hne) as (lo & hi & Hlo & Hhi & Heq).
  rewrite Heq in Hn. injection Hn as <-.
  destruct (array_min_spec _ _ Hlo) as [Hlo_in Hlo_le].
  destruct (array_max_spec _ _ Hhi) as [Hhi_in Hhi_le].
  rewrite Forall_forall in Hlo_le, Hhi_le.
  assert (Hrange : (lo <= hi)%Q) by (by apply Hlo_le).
  pose proof eps_pos as Heps.
  assert (Hden : (0 < hi - lo + eps)%Q) by lra.
  split; [by rewrite length_fmap|]. split.
  - apply Forall_fmap, Forall_forall. intros v Hv. simpl.
    specialize (Hlo_le v Hv). specialize (Hhi_le v Hv). split.
    + apply Qle_shift_div_l; [done|]. lra.
    + apply Qle_shift_div_r; [done|]. lra.
  - intros lo' hi' Hlo' Hhi'.
    assert (lo' = lo) as -> by congruence.
    assert (hi' = hi) as -> by congruence.
    split.
    + intros Hconst. apply Forall_fmap, Forall_forall. intros v Hv. simpl.
      specialize (Hlo_le v Hv). specialize (Hhi_le v Hv).
      assert (Hv0 : (v - lo == 0)%Q) by lra.
      rewrite Hv0. unfold Qdiv. ring.
    + intros Hlt. exists ((hi - lo) / (hi - lo + eps))%Q.
      split; [|split; [reflexivity|]].
      * apply (list_elem_of_fmap_2 (λ v, (v - lo) / (hi - lo + eps))%Q), Hhi_in.
      * apply Forall_fmap, Forall_forall. intros v Hv. simpl.
        specialize (Hhi_le v Hv).
        apply Qle_shift_div_l; [done|].
        unfold Qdiv. rewrite <- Qmult_assoc, (Qmult_comm (/ _)), Qmult_inv_r by lra.
        lra.
Qed.

End VisualizerFacts.




(** Without a dashboard writer the call fails on its first forward. *)
Lemma display_current_images_without_writer (img_dir : string)
    (reals fakes fixed : list Q) (train_or_test : string) (global_step : Z) (w : world) :
  reals ≠ [] → fakes ≠ [] →
  Visualizer.display_current_images (Visualizer.Build None img_dir)
    reals fakes fixed train_or_test global_step w = (Raise AttributeError, w).
Proof.
  intros Hr Hf.
  destruct (normalize_ok reals Hr) as (lo1 & hi1 & _ & _ & Hn1).
  destruct (normalize_ok fakes Hf) as (lo2 & hi2 & _ & _ & Hn2).
  unfold Visualizer.display_current_images, Visualizer.add_images,
    mbind, M_bind, bind, lift, raise.
  by rewrite Hn1, Hn2.
Qed.

(** C9 (amended).  [save_current_images] writes exactly three images into
    the image directory of the run, each with [normalize=True]:
    [reals.png], [fakes.png] and [fixed_fakes_<n>.png], where [<n>] is the
    epoch plus one, in decimal and padded with zeros to three characters. *)
Theorem save_current_images_files (self : Visualizer.visualizer) (epoch : Z)
    (reals fakes fixed : list Q) (w : world) :
  Visualizer.save_current_images self epoch reals fakes fixed w =
    (Ok tt,
     World (arrays w) (stdout w)
           (files w ++
              [SaveImage (Visualizer.img_dir self +:+ "/reals.png") reals true;
               SaveImage (Visualizer.img_dir self +:+ "/fakes.png") fakes true;
               SaveImage (Visualizer.img_dir self +:+ "/fixed_fakes_"
                          +:+ Visualizer.format_03d (epoch + 1) +:+ ".png") fixed true])
           (board w)).
Proof.
  unfold Visualizer.save_current_images, Visualizer.save_image, write_file,
    mbind, M_bind, bind.
  cbn [arrays stdout files board]. by rewrite <- !app_assoc.
Qed.

(** C9 as it is written names the third file after the epoch passed in.
    For epoch 5 the files are [reals.png], [fakes.png] and
    [fixed_fakes_006.png]; no file is named after 5. *)
Lemma save_current_images_counterexample :
  ∃ w', Visualizer.save_current_images (Visualizer.Build None "out/run/train/images")
          5 [0; 1]%Q [0; 2]%Q [1; 3; 2]%Q w0 = (Ok tt, w')
        ∧ files w' =
            [SaveImage "out/run/train/images/reals.png" [0; 1]%Q true;
             SaveImage "out/run/train/images/fakes.png" [0; 2]%Q true;
             SaveImage "out/run/train/images/fixed_fakes_006.png" [1; 3; 2]%Q true]
        ∧ ∀ img flag,
            (SaveImage "out/run/train/images/fixed_fakes_5.png" img flag ∉ files w')
            ∧ (SaveImage "out/run/train/images/fixed_fakes_005.png" img flag ∉ files w').
Proof.
  eexists. split; [vm_compute; reflexivity|]. split; [reflexivity|].
  intros img flag. cbn [files].
  split; intros Hin; repeat (apply elem_of_cons in Hin as [Hin|Hin]; [discriminate|]);
    by apply elem_of_nil in Hin.
Qed.

(** The image directory of a run, as the constructor joins it. *)
Example train_image_dir_example :
  Visualizer.train_image_dir "./output" "skipganomaly/casting"
  = "./output/skipganomaly/casting/train/images".
Proof. reflexivity. Qed.

(** The number in the third name for the first epochs. *)
Example format_03d_first_epochs :
  Visualizer.format_03d (0 + 1) = "001" ∧ Visualizer.format_03d (99 + 1) = "100"
  ∧ Visualizer.format_03d (999 + 1) = "1000".
Proof. repeat split. Qed.

(** ** The documented example *)

Lemma example_roc_curve :
  Roc.roc_curve example_labels example_scores =
    Ok (example_fpr, example_tpr, example_thresholds).
Proof. vm_compute. reflexivity. Qed.

Lemma example_area : (Roc.trapz example_tpr example_fpr == 3 # 4)%Q.
Proof. vm_compute. reflexivity. Qed.

(** The function whose root is sought on the example: a step from
    [1/2 - x] down to [- x] at [x = 1/2], without a zero. *)
Lemma example_eer_function (x fx : Q) :
  eer_function example_fpr example_tpr x = Ok fx →
  ((0 <= x)%Q ∧ (x < 1 # 2)%Q ∧ (fx == (1 # 2) - x)%Q)
  ∨ ((1 # 2 <= x)%Q ∧ (x <= 1)%Q ∧ (fx == - x)%Q).
Proof.
  unfold eer_function, Scipy.interp1d.
  assert (Hsort : stable_sort_by fst (zip example_fpr example_tpr)
                  = [(0 # 2, 0 # 2); (0 # 2, 1 # 2); (1 # 2, 1 # 2);
                     (1 # 2, 2 # 2); (2 # 2, 2 # 2)]%Q) by reflexivity.
  rewrite Hsort. cbn [length example_fpr example_tpr Nat.eqb negb last].
  destruct (Qle_bool (0 # 2) x) eqn:H0; [|discriminate].
  destruct (Qle_bool x (2 # 2)) eqn:H1; [|discriminate].
  cbn [andb]. apply Qle_bool_iff in H0, H1.
  rewrite !np_interp_step. rewrite (Qle_bool_true (0 # 2) x) by done.
  destruct (Qle_bool (1 # 2) x) eqn:H2.
  - apply Qle_bool_iff in H2. intros [= <-]. right.
    split; [done|]. split; [lra|].
    destruct (Qle_bool (2 # 2) x) eqn:H3.
    + apply Qle_bool_iff in H3. simpl. lra.
    + destruct (Qeq_bool (1 # 2) x) eqn:H4; [lra|].
      assert (E : ((2 # 2) - (2 # 2) == 0)%Q) by reflexivity.
      rewrite E. unfold Qdiv. rewrite Qmult_0_l, Qmult_0_l. lra.
  - assert (Hlt : (x < 1 # 2)%Q).
    { apply Qnot_le_lt. intros H. apply Qle_bool_iff in H. congruence. }
    intros [= <-]. left. split; [lra|]. split; [done|].
    destruct (Qeq_bool (0 # 2) x) eqn:H4; [lra|].
    assert (E : ((1 # 2) - (1 # 2) == 0)%Q) by reflexivity.
    rewrite E. unfold Qdiv. rewrite Qmult_0_l, Qmult_0_l. lra.
Qed.

(** ** C7: the perfect separator and the documented example *)

Section PerfectSeparator.

Variable brentq : (Q → res Q) → Q → Q → res Q.
Hypothesis brentq_ok : brentq_contract brentq.

(** For a perfect separator the evaluation returns: the curve in the
    figure it saves runs along the left and the top edge of the unit
    square, and the equal error rate in the figure is 0. *)
Lemma evaluate_roc_perfect_separator (labels : list bool) (scores : loc)
    (output_directory : string) (epoch : Z) (w : world) :
  length labels = length (arrays w !!! scores) →
  true ∈ labels → false ∈ labels →
  perfect_separator labels (arrays w !!! scores) →
  ∃ fpr tpr t roc_auc thr,
    evaluate brentq labels scores "roc" output_directory epoch w =
      (Ok (RocResult roc_auc thr t),
       roc_world w (roc_path output_directory epoch) (Figure fpr tpr roc_auc 0%Q))
    ∧ along_the_edges fpr tpr.
Proof.
  intros Hlen Ht Hf Hsep.
  destruct (perfect_separator_curve _ _ Hlen Ht Hf Hsep)
    as (final & p & curve & Hroc & Hcorner & Hmono & Hlast & Hp & Hn & Hhead).
  destruct (eer_function_corner final p curve Hcorner Hmono Hlast Hp Hn)
    as [(y0 & Hy0 & Hz) (y1 & Hy1)].
  destruct (brentq_ok (eer_function (Roc.false_positive_rates final curve)
                         (Roc.true_positive_rates final curve)) 0%Q 1%Q)
    as [Hleft _].
  specialize (Hleft y0 y1 Hy0 Hy1 Hz).
  destruct (evaluate_roc_run brentq labels scores output_directory
              epoch w _ _ _ _ Hroc Hleft) as (k & thr & fk & tk & Hrun & _).
  eexists _, _, _, _, thr. split; [exact Hrun|].
  by eapply corner_along_the_edges.
Qed.

(** On the example the area is 3/4, and any root that the root finder
    returns lies strictly between 0 and 1/2. *)
Lemma example_equal_error_rate (eer : Q) :
  brentq (eer_function example_fpr example_tpr) 0%Q 1%Q = Ok eer →
  (0 < eer)%Q ∧ (eer < 1 # 2)%Q.
Proof.
  intros Hrun.
  destruct (brentq_ok (eer_function example_fpr example_tpr) 0%Q 1%Q) as [_ Hpost].
  destruct (Hpost eer Hrun) as (ya & yb & Ha & Hb & Hcases).
  apply example_eer_function in Ha, Hb.
  assert (Hxtol : (Scipy.xtol == 2 # 1000000000000)%Q) by reflexivity.
  assert (Hrtol : (Scipy.rtol == 4 # 4503599627370496)%Q) by reflexivity.
  destruct Hcases as [[Hz _]|[[Hz _]|(fx & Hfx & Hroot)]].
  - destruct Ha as [(_ & _ & E)|(? & _ & _)]; lra.
  - destruct Hb as [(_ & ? & _)|(_ & _ & E)]; lra.
  - apply example_eer_function in Hfx.
    destruct Hroot as [Hz|(y & fy & Hfy & Hsign & Habs & Hclose)].
    { destruct Hfx as [(? & ? & E)|(? & ? & E)]; lra. }
    apply example_eer_function in Hfy.
    assert (Hx : (0 <= eer)%Q ∧ (eer <= 1)%Q)
      by (destruct Hfx as [(? & ? & _)|(? & ? & _)]; lra).
    rewrite (Qabs_pos eer) in Hclose by lra.
    rewrite Hxtol, Hrtol in Hclose.
    apply Qabs_Qlt_condition in Hclose as [Hc1 Hc2].
    destruct Hfx as [(Hx0 & Hx1 & Ex)|(Hx0 & Hx1 & Ex)].
    + destruct Hfy as [(Hy0 & Hy1 & Ey)|(Hy0 & Hy1 & Ey)].
      * destruct Hsign as [[? ?]|[? ?]]; lra.
      * split; [lra|done].
    + destruct Hfy as [(Hy0 & Hy1 & Ey)|(Hy0 & Hy1 & Ey)].
      * exfalso.
        rewrite (Qabs_neg fx), (Qabs_pos fy) in Habs by lra. lra.
      * destruct Hsign as [[? ?]|[? ?]]; lra.
Qed.


End PerfectSeparator.

Lemma perfect_separator_rounding :
  perfect_separator rounding_labels rounding_scores.
Proof.
  intros i j si sj Hi Hj Hsi Hsj.
  destruct i as [|[|[|[|[|[|[|i]]]]]]], j as [|[|[|[|[|[|[|j]]]]]]]; try discriminate;
    vm_compute in Hsi, Hsj; injection Hsi as <-; injection Hsj as <-; reflexivity.
Qed.



(** The rounding goes either way: with eight trapezoids, which numpy adds
    in pairs, the doubles can also give [1 + 2^-52], the double above
    1.0. *)
Lemma roc_area_above_one_in_doubles :
  Binary64.roc_auc excess_labels excess_scores
  = Ok (SpecFloat.S754_finite false 4503599627370497 (-52))
  ∧ Binary64.ltb Binary64.one (SpecFloat.S754_finite false 4503599627370497 (-52))
    = true.
Proof. split; vm_compute; reflexivity. Qed.

(** On the documented example every operation is exact, and the doubles
    give the area 3/4. *)
Lemma example_area_in_doubles :
  Binary64.roc_auc example_labels example_scores
  = Ok (Binary64.div (Binary64.of_count 3) (Binary64.of_count 4)).
Proof. vm_compute. reflexivity. Qed.

(** * Further properties of the code *)

(** ** The PR-curve sampler: when it fails, and what it leaves behind *)

(** The loop stops at the first threshold without a two-by-two confusion
    matrix; the diagnostics of the thresholds skipped before it stay
    printed. *)
Lemma for_each_pr_curve_raise (labels : list bool) (scores : list Q) pre t post :
  Forall (two_by_two labels scores) pre → ¬ two_by_two labels scores t →
  ∀ acc w,
    for_each (pre ++ t :: post) (pr_curve_body labels scores) acc w =
      (Raise ValueError, with_stdout w (diagnostics scores pre)).
Proof.
  intros Hpre Ht. induction Hpre as [|u pre Hu _ IH]; intros acc w.
  - cbn [app for_each]. unfold mbind, M_bind, bind.
    rewrite pr_curve_body_eq, decide_False by done.
    unfold diagnostics. by rewrite filter_nil, with_stdout_nil.
  - cbn [app for_each]. unfold mbind, M_bind, bind.
    rewrite pr_curve_body_eq, decide_True by done.
    unfold diagnostics in *. rewrite filter_cons.
    destruct (decide (skipped scores u)) as [Hs|Hs].
    + rewrite IH, fmap_cons, with_stdout_app. reflexivity.
    + rewrite IH. reflexivity.
Qed.

Lemma Forall_or_first_failure {A} (P : A → Prop) `{!∀ x, Decision (P x)} (l : list A) :
  Forall P l ∨ ∃ pre t post, l = pre ++ t :: post ∧ Forall P pre ∧ ¬ P t.
Proof.
  induction l as [|x l IH]; [left; constructor|].
  destruct (decide (P x)) as [Hx|Hx].
  - destruct IH as [Hall|(pre & t & post & -> & Hpre & Ht)].
    + left. by constructor.
    + right. exists (x :: pre), t, post. repeat split; [by constructor|done].
  - right. exists [], x, l. repeat split; [constructor|done].
Qed.

Lemma diagnostics_length (scores ts : list Q) :
  length (diagnostics scores ts) + length (retained scores ts) = length ts.
Proof.
  unfold diagnostics, retained. rewrite length_fmap.
  induction ts as [|t ts IH]; [reflexivity|].
  rewrite !filter_cons.
  destruct (decide (skipped scores t)); destruct (decide (¬ skipped scores t));
    try tauto; simpl; lia.
Qed.

Lemma diagnostics_app (scores a b : list Q) :
  diagnostics scores (a ++ b) = diagnostics scores a ++ diagnostics scores b.
Proof. unfold diagnostics. by rewrite filter_app, fmap_app. Qed.

(** Every outcome of the sampler, in one statement. *)
Lemma get_values_for_pr_curve_cases (labels : list bool) (scores thresholds : list Q) w :
  (Forall (two_by_two labels scores) thresholds
   ∧ get_values_for_pr_curve labels scores thresholds w =
       (Ok (PrCurveValues (tp_at labels scores <$> retained scores thresholds)
                          (fp_at labels scores <$> retained scores thresholds)
                          (tn_at labels scores <$> retained scores thresholds)
                          (fn_at labels scores <$> retained scores thresholds)
                          (precision_at labels scores <$> retained scores thresholds)
                          (recall_at labels scores <$> retained scores thresholds)
                          (length thresholds)),
        with_stdout w (diagnostics scores thresholds)))
  ∨ (∃ pre t post,
       thresholds = pre ++ t :: post
       ∧ Forall (two_by_two labels scores) pre ∧ ¬ two_by_two labels scores t
       ∧ get_values_for_pr_curve labels scores thresholds w =
           (Raise ValueError, with_stdout w (diagnostics scores pre))).
Proof.
  destruct (Forall_or_first_failure (two_by_two labels scores) thresholds)
    as [Hall|(pre & t & post & -> & Hpre & Ht)].
  - left. split; [done|]. by apply get_values_for_pr_curve_ok.
  - right. exists pre, t, post. repeat split; try done.
    unfold get_values_for_pr_curve, mbind, M_bind, bind.
    by rewrite for_each_pr_curve_raise.
Qed.

(** X1.  The sampler returns exactly when every threshold has a two-by-two
    confusion matrix: labels and scores of one length, and both classes
    among the labels and the predictions binarized at that threshold taken
    together.  In particular it returns for any labels and scores when
    there is no threshold. *)
Theorem get_values_for_pr_curve_returns_iff (labels : list bool)
    (scores thresholds : list Q) (w : world) :
  (∃ out w', get_values_for_pr_curve labels scores thresholds w = (Ok out, w'))
  ↔ Forall (λ t, length labels = length scores
                 ∧ false ∈ labels ++ binarize_at t scores
                 ∧ true ∈ labels ++ binarize_at t scores) thresholds.
Proof.
  split.
  - intros (out & w' & Hrun). by eapply get_values_for_pr_curve_inv.
  - intros Hall. eexists _, _. by apply get_values_for_pr_curve_ok.
Qed.

(** X2.  The sampler fails at the first threshold whose confusion matrix is
    not two-by-two: it raises [ValueError] there, the entries collected for
    the thresholds before it are lost, the thresholds after it are never
    looked at, and the only trace is the diagnostics already printed for
    the thresholds skipped before it. *)
Theorem get_values_for_pr_curve_first_failure (labels : list bool)
    (scores pre : list Q) (t : Q) (post : list Q) (w : world) :
  Forall (two_by_two labels scores) pre → ¬ two_by_two labels scores t →
  get_values_for_pr_curve labels scores (pre ++ t :: post) w =
    (Raise ValueError, with_stdout w (diagnostics scores pre)).
Proof.
  intros Hpre Ht. unfold get_values_for_pr_curve, mbind, M_bind, bind.
  by rewrite for_each_pr_curve_raise.
Qed.

Lemma get_values_for_pr_curve_first_failure_witness :
  get_values_for_pr_curve [true; true] [0.7; 0.9]%Q
    ([1.0; 0.8]%Q ++ 0.5%Q :: [0.3; 0.95]%Q) w0 =
  (Raise ValueError,
   World ∅ ["y_preds_new did only contain the element 0... Continuing with next iteration!"]
         [] []).
Proof.
  apply (get_values_for_pr_curve_first_failure [true; true] [0.7; 0.9]%Q
           [1.0; 0.8]%Q 0.5%Q [0.3; 0.95]%Q w0).
  - repeat constructor; vm_compute; try reflexivity;
      apply list_elem_of_In; simpl; tauto.
  - intros (_ & Hf & _). apply list_elem_of_In in Hf. vm_compute in Hf. intuition discriminate.
Defined.

(** X3.  Whatever the sampler does, it leaves the arrays, the files and the
    dashboard alone and only adds lines to the standard output; it raises
    nothing but [ValueError]; and when it returns, the number of
    diagnostics it printed plus the length of each of its six output
    sequences is the count it returns: every threshold is either kept or
    reported. *)
Theorem get_values_for_pr_curve_footprint (labels : list bool)
    (scores thresholds : list Q) (w : world) (r : res pr_curve_values) (w' : world) :
  get_values_for_pr_curve labels scores thresholds w = (r, w') →
  arrays w' = arrays w ∧ files w' = files w ∧ board w' = board w
  ∧ ∃ lines,
      stdout w' = stdout w ++ lines
      ∧ length lines ≤ length thresholds
      ∧ (∀ e, r = Raise e → e = ValueError)
      ∧ (∀ out, r = Ok out →
           length (out_tp out) + length lines = out_count out
           ∧ length (out_fp out) + length lines = out_count out
           ∧ length (out_tn out) + length lines = out_count out
           ∧ length (out_fn out) + length lines = out_count out
           ∧ length (out_precision out) + length lines = out_count out
           ∧ length (out_recall out) + length lines = out_count out).
Proof.
  intros Hrun.
  destruct (get_values_for_pr_curve_cases labels scores thresholds w)
    as [[_ Hok]|(pre & t & post & -> & _ & _ & Hfail)].
  - rewrite Hok in Hrun. injection Hrun as <- <-.
    split; [done|]. split; [done|]. split; [done|].
    exists (diagnostics scores thresholds).
    pose proof (diagnostics_length scores thresholds) as Hlen.
    split; [done|]. split; [lia|]. split; [discriminate|].
    intros out [= <-].
    cbn [out_tp out_fp out_tn out_fn out_precision out_recall out_count].
    rewrite !length_fmap. repeat split; lia.
  - rewrite Hfail in Hrun. injection Hrun as <- <-.
    repeat split. exists (diagnostics scores pre).
    pose proof (diagnostics_length scores pre) as Hlen.
    split; [done|]. split; [rewrite length_app; simpl; lia|].
    split; [congruence|discriminate].
Qed.

Lemma get_values_for_pr_curve_footprint_witness :
  ∃ lines out w',
    get_values_for_pr_curve [false; false; true; true] [0.1; 0.4; 0.35; 0.8]%Q
      [0.05; 0.2; 0.5; 0.9]%Q w0 = (Ok out, w')
    ∧ stdout w' = [] ++ lines
    ∧ length lines = 2
    ∧ out_count out = 4
    ∧ length (out_tp out) = 2 ∧ length (out_fp out) = 2
    ∧ length (out_tn out) = 2 ∧ length (out_fn out) = 2
    ∧ length (out_precision out) = 2 ∧ length (out_recall out) = 2.
Proof.
  edestruct (get_values_for_pr_curve_footprint [false; false; true; true]
               [0.1; 0.4; 0.35; 0.8]%Q [0.05; 0.2; 0.5; 0.9]%Q w0)
    as (_ & _ & _ & lines & Hout & _ & _ & Hlen); [vm_compute; reflexivity|].
  exists lines. eexists _, _. split; [vm_compute; reflexivity|].
  split; [exact Hout|].
  destruct (Hlen _ eq_refl) as (H1 & H2 & H3 & H4 & H5 & H6).
  vm_compute in Hout. subst lines.
  vm_compute in H1, H2, H3, H4, H5, H6 |- *. repeat split.
Defined.

(** ** The PR-curve sampler: the rates it records *)

Lemma count_true_zip (y_true y_pred : list bool) :
  length y_true = length y_pred →
  Sklearn.count_true y_pred =
    Sklearn.count_pairs true true (zip y_true y_pred)
    + Sklearn.count_pairs false true (zip y_true y_pred)
  ∧ Sklearn.count_true y_true =
      Sklearn.count_pairs true true (zip y_true y_pred)
      + Sklearn.count_pairs true false (zip y_true y_pred).
Proof.
  unfold Sklearn.count_true, Sklearn.count_pairs.
  revert y_pred. induction y_true as [|a y_true IH]; intros [|b y_pred] Hlen;
    try discriminate; [done|].
  destruct (IH y_pred) as [IH1 IH2]; [by injection Hlen|].
  cbn [zip zip_with]. rewrite !filter_cons.
  destruct a, b; repeat case_decide; try congruence; simpl; split; lia.
Qed.

Lemma count_true_pos (l : list bool) : true ∈ l → 0 < Sklearn.count_true l.
Proof.
  intros Hin. unfold Sklearn.count_true.
  assert (Hf : true ∈ filter (λ b, b = true) l) by (by apply list_elem_of_filter).
  destruct (filter _ l); [by apply elem_of_nil in Hf|simpl; lia].
Qed.

(** Predictions that the guard lets through hold a positive one. *)
Lemma not_skipped_has_true (scores : list Q) (t : Q) :
  scores ≠ [] → ¬ skipped scores t → true ∈ binarize_at t scores.
Proof.
  intros Hne Hs.
  destruct (decide (true ∈ binarize_at t scores)) as [|Hno]; [done|].
  exfalso. apply Hs. apply skipped_one_class; [done|]. right.
  apply Forall_forall. intros [] Hin; [done|reflexivity].
Qed.

(** X4.  At every position of the sampler's outputs the precision is
    [tp / (tp + fp)] with a positive denominator, so the zero-division
    fallback of the library never shows in it; the recall is
    [tp / (tp + fn)], or the fallback [0] when no label is positive; and
    both lie between 0 and 1. *)
Theorem get_values_for_pr_curve_rates (labels : list bool)
    (scores thresholds : list Q) (w : world) (out : pr_curve_values) (w' : world) :
  get_values_for_pr_curve labels scores thresholds w = (Ok out, w') →
  ∀ i p r tp fp fn,
    out_precision out !! i = Some p → out_recall out !! i = Some r →
    out_tp out !! i = Some tp → out_fp out !! i = Some fp →
    out_fn out !! i = Some fn →
    0 < tp + fp
    ∧ p = (Sklearn.of_count tp / Sklearn.of_count (tp + fp))%Q
    ∧ r = (if tp + fn =? 0 then 0 else Sklearn.of_count tp / Sklearn.of_count (tp + fn))%Q
    ∧ (0 <= p)%Q ∧ (p <= 1)%Q ∧ (0 <= r)%Q ∧ (r <= 1)%Q.
Proof.
  intros Hrun.
  pose proof (get_values_for_pr_curve_inv _ _ _ _ _ _ Hrun) as Hall.
  rewrite (get_values_for_pr_curve_ok _ _ _ _ Hall) in Hrun.
  injection Hrun as <- _.
  cbn [out_tp out_fp out_fn out_precision out_recall].
  intros i p r tp fp fn. rewrite !list_lookup_fmap.
  destruct (retained scores thresholds !! i) as [t|] eqn:Hi; [|discriminate].
  cbn. intros [= <-] [= <-] [= <-] [= <-] [= <-].
  apply list_elem_of_lookup_2 in Hi. unfold retained in Hi.
  apply list_elem_of_filter in Hi as [Hkeep Hin].
  rewrite Forall_forall in Hall. destruct (Hall t Hin) as (Hlen & Hf & Ht).
  assert (Hne : scores ≠ []).
  { intros ->. destruct labels; [|discriminate]. by apply elem_of_nil in Hf. }
  assert (Hl : length labels = length (binarize_at t scores))
    by (unfold binarize_at; by rewrite length_fmap).
  destruct (count_true_zip labels (binarize_at t scores) Hl) as [Hpred Htrue].
  pose proof (count_true_pos _ (not_skipped_has_true scores t Hne Hkeep)) as Hpos.
  unfold precision_at, recall_at, tp_at, fp_at, fn_at, confusion_at in *.
  rewrite Hpred, Htrue in *.
  set (tp := Sklearn.count_pairs true true _) in *.
  set (fp := Sklearn.count_pairs false true _) in *.
  set (fn := Sklearn.count_pairs true false _) in *.
  split; [done|].
  destruct (prf_divide_bounds tp (tp + fp)) as [Hp0 Hp1]; [lia|].
  destruct (prf_divide_bounds tp (tp + fn)) as [Hr0 Hr1]; [lia|].
  repeat split; try done.
  unfold Sklearn.prf_divide. destruct (Nat.eqb_spec (tp + fp) 0); [lia|done].
Qed.

Lemma get_values_for_pr_curve_rates_witness :
  (0 < 2 + 1) ∧ (2 # 3 == Sklearn.of_count 2 / Sklearn.of_count (2 + 1))%Q.
Proof.
  destruct (get_values_for_pr_curve_rates [false; false; true; true]
              [0.1; 0.4; 0.35; 0.8]%Q [0.05; 0.2; 0.5; 0.9]%Q w0 _ _
              ltac:(vm_compute; reflexivity) 0 _ _ 2 1 0
              eq_refl eq_refl eq_refl eq_refl eq_refl) as (Hpos & _).
  split; [exact Hpos|reflexivity].
Defined.

(** ** The PR-curve sampler: raising the threshold *)

Lemma binarize_at_mono (t1 t2 x : Q) :
  (t1 <= t2)%Q → Qle_bool t2 x = true → Qle_bool t1 x = true.
Proof.
  intros Hle H2. apply Qle_bool_iff in H2. apply Qle_bool_iff. lra.
Qed.

(** A higher threshold predicts no more positives, in either true class. *)
Lemma confusion_at_mono (labels : list bool) (scores : list Q) (c : bool) (t1 t2 : Q) :
  (t1 <= t2)%Q →
  confusion_at labels scores c true t2 ≤ confusion_at labels scores c true t1
  ∧ confusion_at labels scores c false t1 ≤ confusion_at labels scores c false t2.
Proof.
  intros Hle. unfold confusion_at, Sklearn.count_pairs, binarize_at.
  revert scores. induction labels as [|a labels IH]; intros [|x scores]; try (split; reflexivity).
  destruct (IH scores) as [IH1 IH2].
  rewrite !fmap_cons. cbn [zip zip_with]. rewrite !filter_cons.
  pose proof (binarize_at_mono t1 t2 x Hle) as Hmono.
  destruct (Qle_bool t2 x); [rewrite Hmono by done|destruct (Qle_bool t1 x)];
    destruct a, c; repeat case_decide; try congruence; simpl; split; lia.
Qed.

Lemma prf_divide_mono (a b d : nat) :
  a ≤ b → (Sklearn.prf_divide a d <= Sklearn.prf_divide b d)%Q.
Proof.
  intros Hab. unfold Sklearn.prf_divide.
  destruct (Nat.eqb_spec d 0) as [|Hd]; [apply Qle_refl|].
  apply rate_le; [done|lia].
Qed.

(** X5.  For thresholds given in ascending order the recorded values move
    one way only: along the outputs the true positives, the false
    positives and the recall never increase, and the true negatives and
    the false negatives never decrease. *)
Theorem get_values_for_pr_curve_ascending (labels : list bool)
    (scores thresholds : list Q) (w : world) (out : pr_curve_values) (w' : world) :
  get_values_for_pr_curve labels scores thresholds w = (Ok out, w') →
  StronglySorted Qle thresholds →
  StronglySorted ge (out_tp out) ∧ StronglySorted ge (out_fp out)
  ∧ StronglySorted le (out_tn out) ∧ StronglySorted le (out_fn out)
  ∧ StronglySorted (λ a b, b <= a)%Q (out_recall out).
Proof.
  intros Hrun Hsorted.
  pose proof (get_values_for_pr_curve_inv _ _ _ _ _ _ Hrun) as Hall.
  rewrite (get_values_for_pr_curve_ok _ _ _ _ Hall) in Hrun.
  injection Hrun as <- _.
  cbn [out_tp out_fp out_tn out_fn out_recall].
  assert (Hkept : StronglySorted Qle (retained scores thresholds)).
  { eapply StronglySorted_sublist; [|exact Hsorted].
    unfold retained. apply sublist_filter. }
  repeat split; eapply (StronglySorted_fmap _ Qle); try exact Hkept;
    intros t1 t2 Hle; unfold recall_at, tp_at, fp_at, tn_at, fn_at, ge;
    try apply prf_divide_mono; by apply confusion_at_mono.
Qed.

Lemma get_values_for_pr_curve_ascending_witness :
  StronglySorted ge [2; 1] ∧ StronglySorted ge [1; 0]
  ∧ StronglySorted le [1; 2] ∧ StronglySorted le [0; 1]
  ∧ StronglySorted (λ a b, b <= a)%Q [2 # 2; 1 # 2]%Q.
Proof.
  eapply (get_values_for_pr_curve_ascending [false; false; true; true]
           [0.1; 0.4; 0.35; 0.8]%Q [0.05; 0.2; 0.5; 0.9]%Q w0
           (PrCurveValues [2; 1] [1; 0] [1; 2] [0; 1] _ [2 # 2; 1 # 2]%Q 4) _).
  - vm_compute. reflexivity.
  - repeat constructor; vm_compute; discriminate.
Defined.

(** X6.  At every position of the sampler's outputs the counts split the
    labels by their true class: the true positives and the false negatives
    add up to the number of positive labels, the false positives and the
    true negatives to the number of negative labels, whatever the
    threshold. *)
Theorem get_values_for_pr_curve_class_totals (labels : list bool)
    (scores thresholds : list Q) (w : world) (out : pr_curve_values) (w' : world) :
  get_values_for_pr_curve labels scores thresholds w = (Ok out, w') →
  ∀ i tp fp tn fn,
    out_tp out !! i = Some tp → out_fp out !! i = Some fp →
    out_tn out !! i = Some tn → out_fn out !! i = Some fn →
    tp + fn = length (filter (λ l, l = true) labels)
    ∧ fp + tn = length (filter (λ l, l = false) labels).
Proof.
  intros Hrun.
  pose proof (get_values_for_pr_curve_inv _ _ _ _ _ _ Hrun) as Hall.
  rewrite (get_values_for_pr_curve_ok _ _ _ _ Hall) in Hrun.
  injection Hrun as <- _.
  cbn [out_tp out_fp out_tn out_fn].
  intros i tp fp tn fn. rewrite !list_lookup_fmap.
  destruct (retained scores thresholds !! i) as [t|] eqn:Hi; [|discriminate].
  cbn. intros [= <-] [= <-] [= <-] [= <-].
  apply list_elem_of_lookup_2 in Hi. unfold retained in Hi.
  apply list_elem_of_filter in Hi as [_ Hin].
  rewrite Forall_forall in Hall. destruct (Hall t Hin) as (Hlen & _).
  unfold tp_at, fp_at, tn_at, fn_at, confusion_at, Sklearn.count_pairs, binarize_at.
  clear -Hlen. revert scores Hlen.
  induction labels as [|a labels IH]; intros [|x scores] Hlen; try discriminate; [done|].
  destruct (IH scores) as [IH1 IH2]; [by injection Hlen|].
  rewrite fmap_cons. cbn [zip zip_with]. rewrite !filter_cons.
  destruct a, (Qle_bool t x); repeat case_decide; try congruence; simpl; split; lia.
Qed.

Lemma get_values_for_pr_curve_class_totals_witness :
  2 + 0 = length (filter (λ l, l = true) [false; false; true; true])
  ∧ 1 + 1 = length (filter (λ l, l = false) [false; false; true; true]).
Proof.
  eapply (get_values_for_pr_curve_class_totals [false; false; true; true]
            [0.1; 0.4; 0.35; 0.8]%Q [0.05; 0.2; 0.5; 0.9]%Q w0 _ _
            ltac:(vm_compute; reflexivity) 0);
    reflexivity.
Defined.

(** ** The evaluator under ["f1_score"]: what the mutation does to later calls *)

Lemma binarized_again (a : list Q) :
  binarized 0.20 (binarized 0.20 a) = binarized 0.20 a.
Proof.
  unfold binarized. rewrite <- list_fmap_compose.
  apply list_fmap_ext. intros _ x _. simpl.
  destruct (Qle_bool 0.20 x); reflexivity.
Qed.

Lemma binarize_at_binarized (a : list Q) :
  binarize_at 0.20 (binarized 0.20 a) = binarize_at 0.20 a.
Proof.
  unfold binarized, binarize_at. rewrite <- list_fmap_compose.
  apply list_fmap_ext. intros _ x _. simpl.
  destruct (Qle_bool 0.20 x); reflexivity.
Qed.

(** The world after the scores behind [scores] were binarized in place. *)
Lemma evaluate_f1_run (brentq : (Q → res Q) → Q → Q → res Q) (labels : list bool)
    (scores : loc) (output_directory : string) (epoch : Z) (w : world) :
  evaluate brentq labels scores "f1_score" output_directory epoch w =
    (match Sklearn.f1_score labels (binarize_at 0.20 (arrays w !!! scores)) with
     | Ok f => Ok (Score f)
     | Raise e => Raise e
     end,
     World (<[scores := binarized 0.20 (arrays w !!! scores)]> (arrays w))
           (stdout w) (files w) (board w)).
Proof.
  unfold evaluate. cbn [String.eqb Ascii.eqb Bool.eqb].
  unfold masked_assign, read_array, write_array, mbind, M_bind, bind, lift, mret, M_ret, ret.
  cbn [arrays stdout files board].
  rewrite !lookup_total_insert_eq, insert_insert_eq.
  rewrite masked_assign_twice by reflexivity.
  rewrite as_classes_binarized.
  destruct (Sklearn.f1_score labels _); reflexivity.
Qed.

(** X7.  Under ["f1_score"] a second call on the same reference is a fixed
    point: run in the world that the first call left, it gives the same
    outcome, score or error, and leaves that world as it is.  The array was
    binarized by the first call and binarizing it again changes nothing. *)
Theorem evaluate_f1_score_again (brentq : (Q → res Q) → Q → Q → res Q)
    (labels : list bool) (scores : loc) (dir1 dir2 : string) (epoch1 epoch2 : Z)
    (w : world) :
  evaluate brentq labels scores "f1_score" dir2 epoch2
    (evaluate brentq labels scores "f1_score" dir1 epoch1 w).2
  = evaluate brentq labels scores "f1_score" dir1 epoch1 w.
Proof.
  rewrite (evaluate_f1_run brentq labels scores dir1 epoch1 w). cbn [snd].
  rewrite evaluate_f1_run. cbn [arrays stdout files board].
  by rewrite lookup_total_insert_eq, insert_insert_eq, binarized_again,
    binarize_at_binarized.
Qed.

(** X8.  Under ["f1_score"] the scores are binarized before the labels are
    looked at: with labels and scores of different lengths the call raises
    [ValueError], and the caller's array has been overwritten all the
    same. *)
Theorem evaluate_f1_score_length_mismatch (brentq : (Q → res Q) → Q → Q → res Q)
    (labels : list bool) (scores : loc) (output_directory : string) (epoch : Z)
    (w : world) :
  length labels ≠ length (arrays w !!! scores) →
  evaluate brentq labels scores "f1_score" output_directory epoch w =
    (Raise ValueError,
     World (<[scores := binarized 0.20 (arrays w !!! scores)]> (arrays w))
           (stdout w) (files w) (board w)).
Proof.
  intros Hlen. rewrite evaluate_f1_run.
  unfold Sklearn.f1_score, Sklearn.precision_recall_fscore_support, binarize_at.
  rewrite length_fmap.
  destruct (Nat.eqb_spec (length labels) (length (arrays w !!! scores))); [done|].
  reflexivity.
Qed.

Lemma evaluate_f1_score_length_mismatch_witness :
  evaluate Scipy.brentq [false; true; true] 0 "f1_score" "./" 0
    (World {[ 0 := [0.1; 0.9]%Q ]} [] [] []) =
  (Raise ValueError, World {[ 0 := [0; 1]%Q ]} [] [] []).
Proof.
  rewrite (evaluate_f1_score_length_mismatch Scipy.brentq [false; true; true] 0 "./" 0
             (World {[ 0 := [0.1; 0.9]%Q ]} [] [] [])) by (vm_compute; lia).
  f_equal.
Defined.

Lemma f1_score_formula (y_true y_pred : list bool) :
  length y_true = length y_pred → y_true ≠ [] →
  Sklearn.f1_score y_true y_pred =
    Ok (let p := Sklearn.prf_divide (Sklearn.count_pairs true true (zip y_true y_pred))
                                    (Sklearn.count_true y_pred) in
        let r := Sklearn.prf_divide (Sklearn.count_pairs true true (zip y_true y_pred))
                                    (Sklearn.count_true y_true) in
        2 * p * r / (if Qeq_bool (p + r) 0 then 1 else p + r))%Q.
Proof.
  intros Hlen Hne. unfold Sklearn.f1_score, Sklearn.precision_recall_fscore_support.
  rewrite <- Hlen, Nat.eqb_refl. cbn [negb].
  destruct y_true as [|b y_true'] eqn:Hy; [done|]. cbn [length Nat.eqb]. rewrite <- Hy.
  destruct (bool_decide (true ∈ Sklearn.unique_labels y_true y_pred)) eqn:Hin;
    cbn [negb andb]; [reflexivity|].
  apply bool_decide_eq_false in Hin. apply unique_labels_has_true in Hin.
  apply Nat.leb_gt in Hin. by rewrite Hin.
Qed.

(** X9.  The two entry points agree at the fixed threshold: when the
    sampler keeps the threshold 0.20 for the scores behind a reference, the
    F1 score that [evaluate] returns for that reference is the harmonic
    mean of the precision and the recall that the sampler records, and 0
    when both are 0. *)
Theorem evaluate_f1_score_agrees_with_sampler (brentq : (Q → res Q) → Q → Q → res Q)
    (labels : list bool) (scores : loc) (output_directory : string) (epoch : Z)
    (w w1 : world) (out : pr_curve_values) (p r : Q) :
  get_values_for_pr_curve labels (arrays w !!! scores) [0.20%Q] w = (Ok out, w1) →
  out_precision out = [p] → out_recall out = [r] →
  (evaluate brentq labels scores "f1_score" output_directory epoch w).1
  = Ok (Score (2 * p * r / (if Qeq_bool (p + r) 0 then 1 else p + r))%Q).
Proof.
  intros Hrun Hp Hr.
  pose proof (get_values_for_pr_curve_inv _ _ _ _ _ _ Hrun) as Hall.
  rewrite (get_values_for_pr_curve_ok _ _ _ _ Hall) in Hrun.
  injection Hrun as <- _. cbn [out_precision out_recall] in Hp, Hr.
  apply Forall_cons in Hall as [(Hlen & Hin0 & _) _].
  destruct (retained (arrays w !!! scores) [0.20%Q]) as [|t [|t' kept]] eqn:Hkept;
    try discriminate.
  assert (t = 0.20%Q) as ->.
  { assert (Hin : t ∈ retained (arrays w !!! scores) [0.20%Q]) by (rewrite Hkept; left).
    unfold retained in Hin. apply list_elem_of_filter in Hin as [_ Hin].
    by apply list_elem_of_singleton in Hin. }
  injection Hp as <-. injection Hr as <-.
  rewrite evaluate_f1_run. cbn [fst].
  rewrite f1_score_formula; [reflexivity|unfold binarize_at; by rewrite length_fmap|].
  intros ->. destruct (arrays w !!! scores); [|discriminate].
  by apply elem_of_nil in Hin0.
Qed.

Lemma evaluate_f1_score_agrees_with_sampler_witness :
  (evaluate Scipy.brentq [false; false; true; true] 0 "f1_score" "./" 0
     (World {[ 0 := [0.1; 0.4; 0.35; 0.8]%Q ]} [] [] [])).1
  = Ok (Score (2 * (2 # 3) * (2 # 2)
               / (if Qeq_bool ((2 # 3) + (2 # 2)) 0 then 1 else (2 # 3) + (2 # 2)))%Q).
Proof.
  eapply (evaluate_f1_score_agrees_with_sampler Scipy.brentq [false; false; true; true] 0
            "./" 0 (World {[ 0 := [0.1; 0.4; 0.35; 0.8]%Q ]} [] [] [])).
  - vm_compute. reflexivity.
  - reflexivity.
  - reflexivity.
Defined.

(** ** The curve of sklearn: rates and thresholds *)

Section CurveBounds.

Import Sklearn Roc.

Lemma StronglySorted_last {A} (R : relation A) (l : list A) (z : A) :
  StronglySorted R l → last l = Some z → Forall (λ x, x = z ∨ R x z) l.
Proof.
  induction 1 as [|x l Hs IH Hall]; intros Hlast; [constructor|].
  destruct l as [|y l'].
  - injection Hlast as ->. repeat constructor.
  - rewrite last_cons_cons in Hlast. constructor.
    + right. rewrite Forall_forall in Hall. apply Hall.
      apply last_Some_elem_of. exact Hlast.
    + by apply IH.
Qed.

Lemma monotone_below_last (curve : list point) (final : point) :
  monotone curve → last curve = Some final →
  Forall (λ c, fps c ≤ fps final ∧ tps c ≤ tps final) curve.
Proof.
  intros Hs Hlast.
  eapply Forall_impl; [by eapply StronglySorted_last|].
  simpl. intros c [->|[? ?]]; lia.
Qed.

Lemma rate_bounds (a n : nat) :
  a ≤ n → 0 < n → (0 <= of_count a / of_count n)%Q ∧ (of_count a / of_count n <= 1)%Q.
Proof.
  intros Han Hn.
  pose proof (rate_le 0 a n ltac:(lia) Hn) as H0.
  pose proof (rate_le a n n Han Hn) as H1.
  rewrite rate_zero in H0. rewrite rate_one in H1 by done. done.
Qed.

(** The trapezoids under a curve that climbs inside the unit square fit in
    the part of the square to the right of its first point. *)
Lemma trapz_bounds (final : point) (curve : list point) :
  0 < fps final → 0 < tps final → monotone curve →
  Forall (λ c, fps c ≤ fps final ∧ tps c ≤ tps final) curve →
  (0 <= trapz (true_positive_rates final curve) (false_positive_rates final curve))%Q
  ∧ ∀ c, head curve = Some c →
      (trapz (true_positive_rates final curve) (false_positive_rates final curve)
       <= 1 - of_count (fps c) / of_count (fps final))%Q.
Proof.
  intros Hn Hp. unfold monotone, true_positive_rates, false_positive_rates.
  induction curve as [|c0 [|c1 rest] IH]; intros Hs Hall.
  - split; [apply Qle_refl|discriminate].
  - apply Forall_cons in Hall as [[Hf _] _].
    destruct (rate_bounds _ _ Hf Hn). cbn.
    split; [apply Qle_refl|]. intros c [= <-]. lra.
  - rewrite !fmap_cons, trapz_step.
    apply StronglySorted_inv in Hs as [Hs Hrel].
    apply Forall_cons in Hrel as [[Hle01 _] _].
    apply Forall_cons in Hall as [[Hf0 Ht0] Hall].
    pose proof Hall as Hall'.
    apply Forall_cons in Hall' as [[Hf1 Ht1] _].
    destruct (IH Hs Hall) as [IH0 IH1].
    specialize (IH1 c1 eq_refl). rewrite !fmap_cons in IH0, IH1.
    destruct (rate_bounds _ _ Hf0 Hn) as [Hx0 _].
    destruct (rate_bounds _ _ Hf1 Hn) as [_ Hx1].
    destruct (rate_bounds _ _ Ht0 Hp) as [Hy0 Hy0'].
    destruct (rate_bounds _ _ Ht1 Hp) as [Hy1 Hy1'].
    pose proof (rate_le _ _ _ Hle01 Hn) as Hx01.
    set (x0 := (of_count (fps c0) / of_count (fps final))%Q) in *.
    set (x1 := (of_count (fps c1) / of_count (fps final))%Q) in *.
    set (y0 := (of_count (tps c0) / of_count (tps final))%Q) in *.
    set (y1 := (of_count (tps c1) / of_count (tps final))%Q) in *.
    set (T := trapz _ _) in *.
    assert (Hstep0 : (0 <= (x1 - x0) * (y1 + y0) / 2)%Q).
    { apply Qle_shift_div_l; [reflexivity|].
      pose proof (Qmult_le_0_compat (x1 - x0) (y1 + y0)). lra. }
    assert (Hstep1 : ((x1 - x0) * (y1 + y0) / 2 <= x1 - x0)%Q).
    { apply Qle_shift_div_r; [reflexivity|].
      pose proof (Qmult_le_0_compat (x1 - x0) (2 - (y1 + y0))) as Hm.
      assert (E : ((x1 - x0) * (2 - (y1 + y0))
                   == (x1 - x0) * 2 - (x1 - x0) * (y1 + y0))%Q) by ring.
      rewrite E in Hm. lra. }
    set (step := ((x1 - x0) * (y1 + y0) / 2)%Q) in *.
    split; [|intros c [= <-]; fold x0]; clearbody step T x0 x1; lra.
Qed.

(** The walk emits one threshold per run of equal scores: each is the
    score of a sample, and they strictly decrease when the samples come in
    decreasing order of score. *)
Lemma clf_walk_thresholds (l : list (Q * bool)) :
  StronglySorted (λ a b, b.1 <= a.1)%Q l →
  ∀ fp tp,
    StronglySorted (λ a b, cut_lt (thr b) (thr a)) (clf_walk fp tp l)
    ∧ Forall (λ c, ∃ s, thr c = Finite s ∧ s ∈ l.*1) (clf_walk fp tp l).
Proof.
  induction 1 as [|[s y] rest Hs IH Hall]; intros fp tp; [split; constructor|].
  cbn [clf_walk].
  set (fp' := if y then fp else S fp). set (tp' := if y then S tp else tp).
  destruct rest as [|[s' y'] rest'].
  - split; repeat constructor. exists s. split; [done|]. cbn. left.
  - destruct (IH fp' tp') as [IHs IHin].
    assert (IHin' : Forall (λ c, ∃ s0, thr c = Finite s0
                                       ∧ s0 ∈ ((s, y) :: (s', y') :: rest').*1)
                      (clf_walk fp' tp' ((s', y') :: rest'))).
    { eapply Forall_impl; [exact IHin|]. intros c (s0 & Hc & Hin).
      exists s0. split; [done|]. rewrite fmap_cons. by right. }
    destruct (Qeq_bool s s') eqn:Heq; [done|].
    split; [|constructor; [exists s; split; [done|cbn; left]|done]].
    constructor; [done|].
    apply Forall_forall. intros c Hc. rewrite Forall_forall in IHin.
    destruct (IHin c Hc) as (sc' & Hthr & Hin'). cbn [thr]. rewrite Hthr. cbn [cut_lt].
    apply list_elem_of_fmap in Hin' as ([sc yc] & -> & Hin). cbn [fst].
    apply Qeq_bool_neq in Heq.
    rewrite Forall_forall in Hall.
    pose proof (Hall (s', y') ltac:(left)) as Hle. cbn [fst] in Hle.
    apply StronglySorted_inv in Hs as [_ Hrest]. rewrite Forall_forall in Hrest.
    assert (Hsc : (sc <= s')%Q).
    { apply elem_of_cons in Hin as [[= -> ->]|Hin]; [apply Qle_refl|].
      apply (Hrest (sc, yc) Hin). }
    apply Qle_lteq in Hle as [Hlt|Heq']; [lra|]. exfalso. apply Heq. by symmetry.
Qed.

(** The first point of the walk carries a largest score. *)
Lemma clf_walk_head (l : list (Q * bool)) :
  StronglySorted (λ a b, b.1 <= a.1)%Q l →
  ∀ fp tp first, head (clf_walk fp tp l) = Some first →
    ∃ top, thr first = Finite top ∧ Forall (λ p, p.1 <= top)%Q l.
Proof.
  induction 1 as [|[s y] rest Hs IH Hall]; intros fp tp first; [discriminate|].
  cbn [clf_walk].
  set (fp' := if y then fp else S fp). set (tp' := if y then S tp else tp).
  destruct rest as [|[s' y'] rest'].
  - intros [= <-]. exists s. split; [done|]. repeat constructor. cbn. apply Qle_refl.
  - destruct (Qeq_bool s s') eqn:Heq.
    + intros Hhead. destruct (IH fp' tp' first Hhead) as (top & Htop & IH').
      exists top. split; [done|].
      constructor; [|done]. cbn [fst].
      apply Forall_cons in IH' as [Hs' _]. cbn [fst] in Hs'.
      apply Qeq_bool_eq in Heq. lra.
    + intros [= <-]. exists s. split; [done|].
      constructor; [cbn; apply Qle_refl|done].
Qed.

(** Points that carry scores, as a list of scores. *)
Lemma finite_thresholds (P : Q → Prop) (l : list point) :
  Forall (λ c, ∃ s, thr c = Finite s ∧ P s) l →
  ∃ ss, thr <$> l = Finite <$> ss ∧ Forall P ss.
Proof.
  induction 1 as [|c l (s & Hs & HP) _ (ss & IH & IHP)]; [by exists []|].
  exists (s :: ss). rewrite !fmap_cons, Hs, IH. split; [done|by constructor].
Qed.

(** The thresholds that [roc_curve] returns: [np.inf], then scores of
    samples in strictly decreasing order, the largest score first. *)
Lemma roc_curve_thresholds (y_true : list bool) (y_score fpr tpr : list Q)
    (t : list cut) :
  roc_curve y_true y_score = Ok (fpr, tpr, t) →
  StronglySorted (λ a b, cut_lt b a) t
  ∧ ∃ top rest,
      t = Inf :: Finite top :: (Finite <$> rest)
      ∧ top ∈ y_score ∧ Forall (λ s, s <= top)%Q y_score
      ∧ rest ⊆ y_score.
Proof.
  intros Hc. apply roc_curve_inv in Hc as (final & Hc). cbv zeta in Hc.
  destruct Hc as (Hlen & Hlast & _ & _ & _ & _ & _ & ->).
  set (sorted := by_decreasing_score y_true y_score) in *.
  pose proof (by_decreasing_score_sorted y_true y_score) as Hsorted.
  fold sorted in Hsorted.
  destruct (clf_walk_thresholds sorted Hsorted 0 0) as [Hstrict Hin].
  assert (Hscores : sorted.*1 ≡ₚ y_score).
  { unfold sorted. rewrite by_decreasing_score_Permutation.
    rewrite fst_zip; [done|lia]. }
  set (walk := clf_walk 0 0 sorted) in *.
  pose proof (drop_intermediate_sublist walk) as Hsub.
  pose proof (drop_intermediate_head walk) as Hhead.
  destruct (head walk) as [first|] eqn:Hfirst.
  2: { destruct walk; discriminate. }
  destruct (clf_walk_head sorted Hsorted 0 0 first Hfirst) as (top & Htop & Hmax).
  assert (Hkept : Forall (λ c, ∃ s, thr c = Finite s ∧ s ∈ y_score)
                    (drop_intermediate walk)).
  { eapply Forall_sublist; [exact Hsub|].
    eapply Forall_impl; [exact Hin|]. intros c (s & Hs & Hc).
    exists s. by rewrite <- Hscores. }
  assert (Hkept_sorted : StronglySorted (λ a b, cut_lt (thr b) (thr a))
                           (drop_intermediate walk))
    by (by eapply StronglySorted_sublist).
  split.
  - rewrite fmap_cons. cbn [thr]. constructor.
    + eapply (StronglySorted_fmap _ (λ a b, cut_lt (thr b) (thr a))); [|exact Hkept_sorted].
      by intros.
    + apply Forall_fmap. eapply Forall_impl; [exact Hkept|].
      intros c (s & Hs & _). simpl. by rewrite Hs.
  - destruct (drop_intermediate walk) as [|c0 kept] eqn:Hd; [discriminate|].
    injection Hhead as ->.
    apply Forall_cons in Hkept as [(s0 & Hs0 & Hin0) Hkept].
    assert (s0 = top) as -> by congruence.
    destruct (finite_thresholds _ _ Hkept) as (rest & Hrest & Hrest_in).
    exists top, rest. rewrite !fmap_cons, Hs0, Hrest. cbn [thr].
    split; [done|]. split; [done|]. split.
    + apply Forall_forall. intros s Hs. rewrite <- Hscores in Hs.
      apply list_elem_of_fmap in Hs as (p & -> & Hp).
      rewrite Forall_forall in Hmax. by apply Hmax.
    + intros x Hx. rewrite Forall_forall in Hrest_in. by apply Hrest_in.
Qed.

(** In exact arithmetic the area under the curve of [roc_curve] lies in the
    unit interval; the doubles of [auc] can leave it in the last place. *)
Lemma roc_curve_area_bounds (y_true : list bool) (y_score fpr tpr : list Q)
    (t : list cut) :
  roc_curve y_true y_score = Ok (fpr, tpr, t) →
  (0 <= trapz tpr fpr)%Q ∧ (trapz tpr fpr <= 1)%Q.
Proof.
  intros Hc. apply roc_curve_inv in Hc as (final & Hc). cbv zeta in Hc.
  destruct Hc as (_ & Hlast & Hn & Hp & Hs & -> & -> & _).
  set (walk := clf_walk 0 0 (by_decreasing_score y_true y_score)) in *.
  assert (Hbelow : Forall (λ c, fps c ≤ fps final ∧ tps c ≤ tps final)
                     (Point 0 0 Inf :: drop_intermediate walk)).
  { constructor; [simpl; lia|].
    eapply Forall_sublist; [apply drop_intermediate_sublist|].
    apply monotone_below_last; [apply clf_walk_monotone|done]. }
  destruct (trapz_bounds final _ Hn Hp Hs Hbelow) as [H0 H1].
  split; [done|].
  specialize (H1 _ eq_refl). cbn [fps] in H1. rewrite rate_zero in H1. lra.
Qed.

Lemma recall_of_pos (p : nat) (c : point) :
  0 < p → recall_of p c = (of_count (tps c) / of_count p)%Q.
Proof. destruct p; [lia|reflexivity]. Qed.

(** Without a positive sample every precision is 0, and so is the sum. *)
Lemma ap_sum_no_positive (curve : list point) :
  Forall (λ c, tps c = 0) curve → ∀ r0 : Q, (ap_sum 0 r0 curve == 0)%Q.
Proof.
  induction 1 as [|c rest Hc _ IH]; intros r0; [reflexivity|].
  cbn [ap_sum]. rewrite IH, Hc.
  assert (Hq : (prf_divide 0 (0 + fps c) == 0)%Q).
  { unfold prf_divide. destruct (0 + fps c =? 0); [reflexivity|apply rate_zero]. }
  rewrite Hq. ring.
Qed.

(** The sum of [average_precision_score]: each gain in recall is counted
    with a weight between 0 and 1. *)
Lemma ap_sum_bounds (p : nat) (curve : list point) :
  0 < p →
  StronglySorted (λ a b, tps a ≤ tps b) curve →
  Forall (λ c, tps c ≤ p) curve →
  ∀ r0 : Q,
    Forall (λ c, r0 <= of_count (tps c) / of_count p)%Q curve → (r0 <= 1)%Q →
    (0 <= ap_sum p r0 curve)%Q ∧ (ap_sum p r0 curve <= 1 - r0)%Q.
Proof.
  intros Hp. induction 1 as [|c rest Hs IH Hrel]; intros Hall r0 Hprev Hr0.
  - cbn [ap_sum]. split; lra.
  - cbn [ap_sum]. rewrite (recall_of_pos p c Hp).
    apply Forall_cons in Hall as [Hc Hall].
    apply Forall_cons in Hprev as [Hpc _].
    destruct (rate_bounds _ _ Hc Hp) as [_ Hr1].
    destruct (IH Hall (of_count (tps c) / of_count p)%Q) as [IH0 IH1]; [|done|].
    { eapply Forall_impl; [exact Hrel|]. intros c' Hc'. simpl in Hc'.
      by apply rate_le. }
    destruct (prf_divide_bounds (tps c) (tps c + fps c)) as [Hq0 Hq1]; [lia|].
    set (r := (of_count (tps c) / of_count p)%Q) in *.
    set (q := prf_divide _ _) in *.
    set (rest_sum := ap_sum p r rest) in *.
    split; nra.
Qed.

Lemma average_precision_score_bounds (y_true : list bool) (y_score : list Q) (ap : Q) :
  average_precision_score y_true y_score = Ok ap → (0 <= ap)%Q ∧ (ap <= 1)%Q.
Proof.
  unfold average_precision_score, binary_clf_curve.
  destruct (negb _); [discriminate|].
  destruct y_true as [|y0 y_true']; [discriminate|].
  set (walk := clf_walk 0 0 _).
  destruct (last walk) as [final|] eqn:Hlast; [|discriminate].
  intros [= <-].
  destruct (clf_walk_monotone (by_decreasing_score (y0 :: y_true') y_score) 0 0)
    as [Hmono _]. fold walk in Hmono.
  pose proof (monotone_below_last walk final Hmono Hlast) as Hbelow.
  destruct (Nat.eq_dec (tps final) 0) as [Hz|Hp].
  { rewrite Hz, ap_sum_no_positive; [split; discriminate|].
    eapply Forall_impl; [exact Hbelow|]. intros c [_ Hc]. simpl. lia. }
  assert (Hpos : 0 < tps final) by lia.
  destruct (ap_sum_bounds (tps final) walk Hpos) with (r0 := 0%Q) as [H0 H1].
  - clear -Hmono. unfold monotone in Hmono.
    induction Hmono as [|c l Hs IH Hall]; constructor; [done|].
    eapply Forall_impl; [exact Hall|]. by intros ? [_ ?].
  - eapply Forall_impl; [exact Hbelow|]. by intros ? [_ ?].
  - eapply Forall_impl; [exact Hbelow|]. intros c [_ Hc]. simpl.
    by apply rate_bounds.
  - discriminate.
  - split; [done|lra].
Qed.

(** [average_precision_score] answers every input with at least one
    sample and one score per label, with 0 when no label is positive. *)
Lemma average_precision_score_ok (y_true : list bool) (y_score : list Q) :
  y_true ≠ [] → length y_true = length y_score →
  ∃ ap, average_precision_score y_true y_score = Ok ap
        ∧ (true ∉ y_true → (ap == 0)%Q).
Proof.
  intros Hne Hlen. unfold average_precision_score, binary_clf_curve.
  destruct (Nat.eqb_spec (length y_true) (length y_score)) as [_|]; [|done].
  cbn [negb].
  destruct y_true as [|y0 y_true']; [done|].
  set (y_true := y0 :: y_true') in *.
  set (sorted := by_decreasing_score y_true y_score).
  pose proof (clf_walk_last sorted 0 0) as Hlast.
  destruct (last sorted) as [q|] eqn:Hq.
  2: { apply last_None in Hq.
       pose proof (by_decreasing_score_Permutation y_true y_score) as Hperm.
       fold sorted in Hperm. rewrite Hq in Hperm.
       apply Permutation_length in Hperm. rewrite length_zip in Hperm.
       unfold y_true in *. simpl in *. lia. }
  cbn [fmap option_fmap option_map] in Hlast. rewrite Hlast. cbn [tps].
  eexists. split; [reflexivity|].
  intros Hpos.
  assert (Hnone : of_class true sorted = []).
  { unfold of_class.
    destruct (filter (λ p, p.2 = true) sorted) as [|[s b] l] eqn:Hfil; [done|].
    exfalso. apply Hpos.
    assert (Hin : (s, b) ∈ filter (λ p, p.2 = true) sorted) by (rewrite Hfil; left).
    apply list_elem_of_filter in Hin as [Hb Hin]. simpl in Hb. subst b.
    unfold sorted in Hin. rewrite by_decreasing_score_Permutation in Hin.
    by apply elem_of_zip_r in Hin. }
  rewrite Hnone. cbn [length Nat.add].
  apply ap_sum_no_positive.
  destruct (clf_walk_monotone sorted 0 0) as [Hmono _].
  pose proof (monotone_below_last _ _ Hmono Hlast) as Hbelow.
  rewrite Hnone in Hbelow. cbn [length Nat.add tps] in Hbelow.
  eapply Forall_impl; [exact Hbelow|]. intros c [_ Hc]. simpl in *. lia.
Qed.

End CurveBounds.

(** ** The evaluator under ["roc"] and ["auprc"] *)

Section EvaluateFacts.

Variable brentq : (Q → res Q) → Q → Q → res Q.

(** Either [roc] raises and leaves the world as it found it, or the curve
    and the root were found. *)
Lemma roc_cases (labels : list bool) (scores : loc) (saveto : bool)
    (output_directory : string) (epoch : Z) (w : world) :
  (∃ e, roc brentq labels scores saveto output_directory epoch w = (Raise e, w))
  ∨ (∃ fpr tpr t eer,
       Roc.roc_curve labels (arrays w !!! scores) = Ok (fpr, tpr, t)
       ∧ brentq (eer_function fpr tpr) 0%Q 1%Q = Ok eer).
Proof.
  unfold roc, mbind, M_bind, bind, read_array, lift.
  destruct (Roc.roc_curve labels (arrays w !!! scores)) as [[[fpr tpr] t]|e] eqn:Hcurve;
    [|left; by eexists].
  destruct (Roc.auc fpr tpr) as [a|e]; [|left; by eexists].
  destruct (array_sub _ _) as [d|e]; [|left; by eexists].
  destruct (series d _) as [tf|e]; [|left; by eexists].
  destruct (series t _) as [ts|e]; [|left; by eexists].
  destruct (iloc ts _) as [roc_t|e]; [|left; by eexists].
  destruct (first_of roc_t) as [thr|e]; [|left; by eexists].
  destruct (brentq _ _ _) as [eer|e] eqn:Hroot; [|left; by eexists].
  right. by exists fpr, tpr, t, eer.
Qed.

(** What [evaluate] returns under ["roc"], read off the curve. *)
Lemma evaluate_roc_ok_inv (labels : list bool) (scores : loc)
    (output_directory : string) (epoch : Z) (w w' : world) (a : Q) (thr : Roc.cut)
    (t : list Roc.cut) :
  evaluate brentq labels scores "roc" output_directory epoch w
    = (Ok (RocResult a thr t), w') →
  ∃ fpr tpr, Roc.roc_curve labels (arrays w !!! scores) = Ok (fpr, tpr, t)
             ∧ a = Roc.trapz tpr fpr.
Proof.
  unfold evaluate. cbn [String.eqb Ascii.eqb Bool.eqb]. intros Hrun.
  destruct (roc_ok_inv _ _ _ _ _ _ _ _ _ Hrun) as (fpr & tpr & t' & eer & H1 & H2).
  destruct (roc_run brentq labels scores true output_directory epoch w _ _ _ _ H1 H2)
    as (k & thr' & fk & tk & Hrun' & _).
  rewrite Hrun' in Hrun. injection Hrun as <- _ <- _.
  by exists fpr, tpr.
Qed.

(** X10.  Under ["roc"] labels and scores of different lengths are refused
    before anything is drawn: the call raises [ValueError] and the world is
    the one it was called in; no figure has been written. *)
Theorem evaluate_roc_length_mismatch (labels : list bool) (scores : loc)
    (output_directory : string) (epoch : Z) (w : world) :
  length labels ≠ length (arrays w !!! scores) →
  evaluate brentq labels scores "roc" output_directory epoch w = (Raise ValueError, w).
Proof.
  intros Hlen. unfold evaluate. cbn [String.eqb Ascii.eqb Bool.eqb].
  unfold roc, mbind, M_bind, bind, read_array, lift.
  unfold Roc.roc_curve, Roc.binary_clf_curve.
  destruct (Nat.eqb_spec (length labels) (length (arrays w !!! scores))); [done|].
  reflexivity.
Qed.

(** X12.  The threshold sequence that [evaluate] returns under ["roc"]
    strictly decreases.  Its first entry is [np.inf]; the entries after it
    are scores of the input, the largest score first. *)
Theorem evaluate_roc_threshold_sequence (labels : list bool) (scores : loc)
    (output_directory : string) (epoch : Z) (w w' : world) (a : Q) (thr : Roc.cut)
    (t : list Roc.cut) :
  evaluate brentq labels scores "roc" output_directory epoch w
    = (Ok (RocResult a thr t), w') →
  StronglySorted (λ x y, Roc.cut_lt y x) t
  ∧ ∃ top rest,
      t = Roc.Inf :: Roc.Finite top :: (Roc.Finite <$> rest)
      ∧ top ∈ arrays w !!! scores
      ∧ Forall (λ s, s <= top)%Q (arrays w !!! scores)
      ∧ rest ⊆ arrays w !!! scores.
Proof.
  intros Hrun. apply evaluate_roc_ok_inv in Hrun as (fpr & tpr & Hcurve & _).
  by apply roc_curve_thresholds in Hcurve.
Qed.

(** X13.  The flag [saveto] of [roc] decides about the file and about
    nothing else: whenever the call with the flag on returns a result, the
    call with the flag off returns the same result and leaves the world
    untouched, and the one thing the flag added to the world is the figure
    at [<output_directory>/ROC<epoch>.png]. *)
Theorem roc_saveto_only_decides_the_file (labels : list bool) (scores : loc)
    (output_directory : string) (epoch : Z) (w w' : world) (r : eval_result) :
  roc brentq labels scores true output_directory epoch w = (Ok r, w') →
  roc brentq labels scores false output_directory epoch w = (Ok r, w)
  ∧ ∃ fig,
      w' = World (arrays w) (stdout w)
             (files w ++ [SaveFig (output_directory +:+ "/ROC" +:+ str epoch +:+ ".png") fig])
             (board w).
Proof.
  unfold roc, mbind, M_bind, bind, read_array, lift.
  destruct (Roc.roc_curve labels (arrays w !!! scores)) as [[[fpr tpr] t]|e]; [|done].
  destruct (Roc.auc fpr tpr) as [a|e]; [|done].
  destruct (array_sub _ _) as [d|e]; [|done].
  destruct (series d _) as [tf|e]; [|done].
  destruct (series t _) as [ts|e]; [|done].
  destruct (iloc ts _) as [roc_t|e]; [|done].
  destruct (first_of roc_t) as [thr|e]; [|done].
  destruct (brentq _ _ _) as [eer|e]; [|done].
  intros [= <- <-]. split; [reflexivity|by eexists].
Qed.

(** X14.  Under ["auprc"] [evaluate] is an observer that answers every
    input with at least one sample and as many labels as scores: it
    returns the average precision of the scores behind the reference, a
    value that is not negative and that is 0 when no label is positive,
    and it leaves the world as it found it, the scores included. *)
Theorem evaluate_auprc_observes (labels : list bool) (scores : loc)
    (output_directory : string) (epoch : Z) (w : world) :
  labels ≠ [] →
  length labels = length (arrays w !!! scores) →
  ∃ ap,
    evaluate brentq labels scores "auprc" output_directory epoch w = (Ok (Score ap), w)
    ∧ Roc.average_precision_score labels (arrays w !!! scores) = Ok ap
    ∧ (0 <= ap)%Q
    ∧ (true ∉ labels → (ap == 0)%Q).
Proof.
  intros Hne Hlen.
  destruct (average_precision_score_ok labels (arrays w !!! scores) Hne Hlen)
    as (ap & Hap & Hzero).
  exists ap. split; [|split; [done|split; [|done]]].
  - unfold evaluate. cbn [String.eqb Ascii.eqb Bool.eqb].
    unfold auprc, mbind, M_bind, bind, read_array, lift, mret, M_ret, ret.
    by rewrite Hap.
  - by destruct (average_precision_score_bounds _ _ _ Hap).
Qed.

(** X15.  The mutation under ["f1_score"] reaches later evaluations of the
    same reference: a ROC evaluation that follows sees scores that are 0
    or 1 only, so its curve has at most three thresholds, drawn from
    [np.inf], 1 and 0, whatever the original scores were. *)
Theorem evaluate_roc_after_f1_score (labels : list bool) (scores : loc)
    (dir1 dir2 : string) (epoch1 epoch2 : Z) (w w' : world) (a : Q) (thr : Roc.cut)
    (t : list Roc.cut) :
  evaluate brentq labels scores "roc" dir2 epoch2
    (evaluate brentq labels scores "f1_score" dir1 epoch1 w).2
    = (Ok (RocResult a thr t), w') →
  length t ≤ 3
  ∧ Forall (λ x, x = Roc.Inf ∨ x = Roc.Finite 1%Q ∨ x = Roc.Finite 0%Q) t.
Proof.
  rewrite evaluate_f1_run. cbn [snd]. intros Hrun.
  apply evaluate_roc_ok_inv in Hrun as (fpr & tpr & Hcurve & _).
  cbn [arrays] in Hcurve. rewrite lookup_total_insert_eq in Hcurve.
  apply roc_curve_thresholds in Hcurve as (Hsorted & top & rest & -> & Hin & _ & Hsub).
  assert (Hbin : ∀ x, x ∈ binarized 0.20 (arrays w !!! scores) → x = 0%Q ∨ x = 1%Q).
  { intros x Hx. unfold binarized in Hx.
    apply list_elem_of_fmap in Hx as (y & -> & _). destruct (Qle_bool 0.20 y); auto. }
  assert (Hrest : Forall (λ x, x = 0%Q ∨ x = 1%Q) rest).
  { apply Forall_forall. intros x Hx. apply Hbin. by apply Hsub. }
  apply StronglySorted_inv in Hsorted as [Hsorted _].
  split.
  - destruct rest as [|x1 [|x2 rest']]; [simpl; lia..|]. exfalso.
    rewrite !fmap_cons in Hsorted.
    apply StronglySorted_inv in Hsorted as [Hsorted H0].
    apply StronglySorted_inv in Hsorted as [_ H1].
    apply Forall_cons in H0 as [H01 H02]. apply Forall_cons in H02 as [H02 _].
    apply Forall_cons in H1 as [H12 _].
    cbn [Roc.cut_lt] in H01, H02, H12.
    apply Forall_cons in Hrest as [Hx1 Hrest].
    apply Forall_cons in Hrest as [Hx2 _].
    destruct (Hbin top Hin) as [-> | ->], Hx1 as [-> | ->], Hx2 as [-> | ->]; lra.
  - constructor; [by left|]. constructor.
    + destruct (Hbin top Hin) as [-> | ->]; auto.
    + apply Forall_fmap. eapply Forall_impl; [exact Hrest|].
      intros x [-> | ->]; simpl; auto.
Qed.

End EvaluateFacts.

Lemma evaluate_roc_length_mismatch_witness :
  evaluate Scipy.brentq [false; true; true] 0 "roc" "out" 7
    (World {[ 0 := [0.1; 0.9]%Q ]} [] [] [])
  = (Raise ValueError, World {[ 0 := [0.1; 0.9]%Q ]} [] [] []).
Proof.
  apply (evaluate_roc_length_mismatch Scipy.brentq [false; true; true] 0 "out" 7
           (World {[ 0 := [0.1; 0.9]%Q ]} [] [] [])).
  vm_compute. lia.
Defined.

Lemma evaluate_roc_threshold_sequence_witness :
  StronglySorted (λ x y, Roc.cut_lt y x) example_thresholds
  ∧ ∃ top rest,
      example_thresholds = Roc.Inf :: Roc.Finite top :: (Roc.Finite <$> rest)
      ∧ top ∈ [0.1; 0.4; 0.35; 0.8]%Q
      ∧ Forall (λ s, s <= top)%Q [0.1; 0.4; 0.35; 0.8]%Q
      ∧ rest ⊆ [0.1; 0.4; 0.35; 0.8]%Q.
Proof.
  edestruct (evaluate_roc_threshold_sequence Scipy.brentq [false; false; true; true] 0
               "out" 7 (World {[ 0 := [0.1; 0.4; 0.35; 0.8]%Q ]} [] [] []))
    as (Hsorted & top & rest & Ht & Hin & Hmax & Hsub); [vm_compute; reflexivity|].
  split; [exact Hsorted|]. exists top, rest.
  split; [exact Ht|]. split; [exact Hin|]. split; [exact Hmax|exact Hsub].
Defined.

Lemma roc_saveto_only_decides_the_file_witness :
  ∃ r, roc Scipy.brentq [false; false; true; true] 0 false "out" 7
         (World {[ 0 := [0.1; 0.4; 0.35; 0.8]%Q ]} [] [] [])
       = (Ok r, World {[ 0 := [0.1; 0.4; 0.35; 0.8]%Q ]} [] [] []).
Proof.
  eexists.
  eapply (roc_saveto_only_decides_the_file Scipy.brentq [false; false; true; true] 0
            "out" 7 (World {[ 0 := [0.1; 0.4; 0.35; 0.8]%Q ]} [] [] [])).
  vm_compute. reflexivity.
Defined.

Lemma evaluate_auprc_observes_witness :
  (∃ ap, evaluate Scipy.brentq [false; false; true; true] 0 "auprc" "./" 0
           (World {[ 0 := [0.1; 0.4; 0.35; 0.8]%Q ]} [] [] [])
         = (Ok (Score ap), World {[ 0 := [0.1; 0.4; 0.35; 0.8]%Q ]} [] [] [])
         ∧ (ap == 5 # 6)%Q)
  ∧ (∃ ap, evaluate Scipy.brentq [false; false] 0 "auprc" "./" 0
             (World {[ 0 := [0.3; 0.6]%Q ]} [] [] [])
           = (Ok (Score ap), World {[ 0 := [0.3; 0.6]%Q ]} [] [] [])
           ∧ (ap == 0)%Q).
Proof.
  split.
  - destruct (evaluate_auprc_observes Scipy.brentq [false; false; true; true] 0 "./" 0
                (World {[ 0 := [0.1; 0.4; 0.35; 0.8]%Q ]} [] [] []))
      as (ap & Hrun & Hap & _); [discriminate|reflexivity|].
    exists ap. split; [exact Hrun|].
    vm_compute in Hap. by injection Hap as <-.
  - destruct (evaluate_auprc_observes Scipy.brentq [false; false] 0 "./" 0
                (World {[ 0 := [0.3; 0.6]%Q ]} [] [] []))
      as (ap & Hrun & _ & _ & Hzero); [discriminate|reflexivity|].
    exists ap. split; [exact Hrun|]. apply Hzero.
    intros Hin. apply list_elem_of_In in Hin. simpl in Hin. intuition discriminate.
Defined.

Lemma evaluate_roc_after_f1_score_witness :
  length [Roc.Inf; Roc.Finite 1%Q; Roc.Finite 0%Q] ≤ 3
  ∧ Forall (λ x, x = Roc.Inf ∨ x = Roc.Finite 1%Q ∨ x = Roc.Finite 0%Q)
      [Roc.Inf; Roc.Finite 1%Q; Roc.Finite 0%Q].
Proof.
  eapply (evaluate_roc_after_f1_score Scipy.brentq [false; false; true; true] 0
            "./" "out" 0 7 (World {[ 0 := [0.1; 0.4; 0.35; 0.8]%Q ]} [] [] [])).
  vm_compute. reflexivity.
Defined.

(** ** The visualisation sink: normalisation *)

Section NormalizeFacts.

Import Visualizer.

(** X16.  Normalisation keeps the order of the values of a batch: a value
    that is not larger than another one is not larger than it afterwards,
    so equal values stay equal; and the smallest value of the batch is sent
    to 0. *)
Theorem normalize_preserves_order (inp out : list Q) :
  normalize inp = Ok out →
  (∀ i j x y x' y',
     inp !! i = Some x → inp !! j = Some y →
     out !! i = Some x' → out !! j = Some y' →
     (x <= y)%Q → (x' <= y')%Q)
  ∧ ∃ k lo v, array_min inp = Ok lo ∧ inp !! k = Some lo
              ∧ out !! k = Some v ∧ (v == 0)%Q.
Proof.
  intros Hn.
  assert (Hne : inp ≠ []) by (intros ->; discriminate).
  destruct (normalize_ok inp Hne) as (lo & hi & Hlo & Hhi & Heq).
  rewrite Heq in Hn. injection Hn as <-.
  destruct (array_min_spec _ _ Hlo) as [Hlo_in Hlo_le].
  destruct (array_max_spec _ _ Hhi) as [Hhi_in Hhi_le].
  rewrite Forall_forall in Hlo_le.
  assert (Hrange : (lo <= hi)%Q) by (by apply Hlo_le).
  pose proof eps_pos as Heps.
  assert (Hden : (0 < / (hi - lo + eps))%Q) by (apply Qinv_lt_0_compat; lra).
  split.
  - intros i j x y x' y' Hx Hy. rewrite !list_lookup_fmap, Hx, Hy.
    cbn. intros [= <-] [= <-] Hxy. unfold Qdiv.
    apply Qmult_le_compat_r; lra.
  - apply list_elem_of_lookup in Hlo_in as [k Hk].
    exists k, lo, ((lo - lo) / (hi - lo + eps))%Q.
    repeat split; [done|done|by rewrite list_lookup_fmap, Hk|].
    unfold Qdiv. ring.
Qed.

Lemma normalize_preserves_order_witness :
  ∃ a b c, normalize [3; 1; 2]%Q = Ok [a; b; c]
           ∧ (b <= c)%Q ∧ (c <= a)%Q ∧ (b == 0)%Q.
Proof.
  destruct (normalize_preserves_order [3; 1; 2]%Q _ eq_refl) as (Hord & _).
  eexists _, _, _. split; [reflexivity|].
  split; [|split].
  - apply (Hord 1 2 1%Q 2%Q); [reflexivity..|discriminate].
  - apply (Hord 2 0 2%Q 3%Q); [reflexivity..|discriminate].
  - reflexivity.
Defined.

(** X18.  [display_current_images] forwards both batches or nothing: when
    it raises, the world is the one it was called in.  It raises
    [ValueError] when one of the two batches is empty, and
    [AttributeError] when both are non-empty and there is no dashboard
    writer; in no other case. *)
Theorem display_current_images_failure (self : visualizer)
    (reals fakes fixed : list Q) (train_or_test : string) (global_step : Z)
    (w w' : world) (e : exn) :
  display_current_images self reals fakes fixed train_or_test global_step w
    = (Raise e, w') →
  w' = w
  ∧ ((e = ValueError ∧ (reals = [] ∨ fakes = []))
     ∨ (e = AttributeError ∧ writer self = None ∧ reals ≠ [] ∧ fakes ≠ [])).
Proof.
  unfold display_current_images, add_images, mbind, M_bind, bind, lift, raise, to_board.
  destruct reals as [|r reals].
  { intros [= <- <-]. split; [done|]. left. auto. }
  destruct (normalize_ok (r :: reals)) as (lo1 & hi1 & _ & _ & ->); [done|].
  destruct fakes as [|f fakes].
  { intros [= <- <-]. split; [done|]. left. auto. }
  destruct (normalize_ok (f :: fakes)) as (lo2 & hi2 & _ & _ & ->); [done|].
  destruct (writer self) eqn:Hw; [discriminate|].
  intros [= <- <-]. split; [done|]. right. auto.
Qed.

Lemma display_current_images_failure_witness :
  w0 = w0
  ∧ ((AttributeError = ValueError ∧ ([0; 1]%Q = [] ∨ [0; 2]%Q = []))
     ∨ (AttributeError = AttributeError ∧ writer (Build None "out") = None
        ∧ [0; 1]%Q ≠ [] ∧ [0; 2]%Q ≠ [])).
Proof.
  apply (display_current_images_failure (Build None "out") [0; 1]%Q [0; 2]%Q [1]%Q
           "test" 4 w0 w0 AttributeError).
  reflexivity.
Defined.

End NormalizeFacts.

(** ** The visualisation sink: paths and file names *)

Section PathFacts.

Import Visualizer.

Lemma string_length_app (s t : string) :
  String.length (s +:+ t) = String.length s + String.length t.
Proof.
  induction s as [|a s IH]; [done|].
  change (String a s +:+ t) with (String a (s +:+ t)).
  cbn [String.length]. by rewrite IH.
Qed.

Lemma string_app_inv_tail (s1 s2 t : string) : s1 +:+ t = s2 +:+ t → s1 = s2.
Proof.
  revert s2. induction s1 as [|a s1 IH]; intros [|b s2] H.
  - done.
  - apply (f_equal String.length) in H. rewrite !string_length_app in H. cbn in H. lia.
  - apply (f_equal String.length) in H. rewrite !string_length_app in H. cbn in H. lia.
  - injection H as -> H. f_equal. by apply IH.
Qed.

Lemma string_app_assoc (s t u : string) : (s +:+ t) +:+ u = s +:+ (t +:+ u).
Proof.
  induction s as [|a s IH]; [done|].
  change ((String a s +:+ t) +:+ u) with (String a ((s +:+ t) +:+ u)).
  by rewrite IH.
Qed.

Lemma ends_with_slash_app (s t : string) :
  t ≠ "" → ends_with_slash (s +:+ t) = ends_with_slash t.
Proof.
  intros Ht. induction s as [|a s IH]; [done|].
  change (String a s +:+ t) with (String a (s +:+ t)).
  destruct (s +:+ t) as [|b u] eqn:E.
  - destruct s; [by cbn in E|discriminate].
  - rewrite <- IH. reflexivity.
Qed.

(** [os.path.join] of a directory and a relative name that does not end in
    a separator. *)
Lemma join2_relative (path b : string) :
  path ≠ "" → ends_with_slash path = false → starts_with_slash b = false →
  join2 path b = path +:+ "/" +:+ b.
Proof.
  intros Hp He Hb. unfold join2. rewrite Hb, He.
  destruct path; [done|reflexivity].
Qed.

(** X19.  The image directory that the constructor derives from the output
    directory and the name of the run, for a name that is not empty and
    does not end in a separator: the name followed by [/train/images],
    under the output directory when the name is relative.  A name that
    starts with a separator is taken as it is, and the output directory is
    dropped from the path. *)
Theorem train_image_dir_cases (outf name : string) :
  name ≠ "" → ends_with_slash name = false →
  train_image_dir outf name =
    (if starts_with_slash name then name
     else if String.eqb outf "" || ends_with_slash outf then outf +:+ name
     else outf +:+ "/" +:+ name) +:+ "/train/images".
Proof.
  intros Hname Hend. unfold train_image_dir, path_join. cbn [foldl].
  change (if starts_with_slash name then name
          else if String.eqb outf "" || ends_with_slash outf then outf +:+ name
               else outf +:+ "/" +:+ name) with (join2 outf name).
  assert (Hj : join2 outf name ≠ "" ∧ ends_with_slash (join2 outf name) = false).
  { unfold join2. destruct (starts_with_slash name); [done|].
    destruct (String.eqb outf "" || ends_with_slash outf).
    - split; [|by rewrite ends_with_slash_app].
      destruct outf; [done|discriminate].
    - split; [destruct outf; discriminate|].
      rewrite ends_with_slash_app; [|by destruct name].
      by rewrite (ends_with_slash_app "/" name). }
  destruct Hj as [Hne He].
  rewrite (join2_relative (join2 outf name) "train") by done.
  rewrite join2_relative; [| |by rewrite !ends_with_slash_app|done].
  - by rewrite !string_app_assoc.
  - destruct (join2 outf name); [done|discriminate].
Qed.

Lemma train_image_dir_cases_witness :
  train_image_dir "./output" "/data/run" = "/data/run/train/images"
  ∧ train_image_dir "./output" "run" = "./output/run/train/images".
Proof.
  split.
  - rewrite (train_image_dir_cases "./output" "/data/run"); [reflexivity|done|reflexivity].
  - rewrite (train_image_dir_cases "./output" "run"); [reflexivity|done|reflexivity].
Defined.

(** Zeros on the left do not change the number that a digit string
    denotes. *)
Lemma zero_pad_cases (width : nat) (digits : string) :
  zero_pad width digits = digits
  ∨ ∃ k, zero_pad width digits = String.concat "" (replicate (S k) "0") +:+ digits.
Proof.
  unfold zero_pad. destruct (width - String.length digits) as [|k].
  - left. reflexivity.
  - right. by exists k.
Qed.

Lemma zeros_step (k : nat) (s : string) :
  String.concat "" (replicate (S k) "0") +:+ s
  = String "0" (String.concat "" (replicate k "0") +:+ s).
Proof.
  cbn [replicate]. destruct k as [|k]; [reflexivity|].
  change (String.concat "" ("0" :: replicate (S k) "0"))
    with ("0" +:+ "" +:+ String.concat "" (replicate (S k) "0")).
  reflexivity.
Qed.

Lemma uint_of_zeros (k : nat) (s : string) (d : Decimal.uint) :
  NilEmpty.uint_of_string s = Some d →
  ∃ d', NilEmpty.uint_of_string (String.concat "" (replicate k "0") +:+ s) = Some d'
        ∧ Pos.of_uint d' = Pos.of_uint d.
Proof.
  intros Hs. induction k as [|k (d' & Hd' & Hv)].
  - exists d. by split.
  - exists (Decimal.D0 d'). rewrite zeros_step. cbn [NilEmpty.uint_of_string].
    rewrite Hd'. by split.
Qed.

Lemma zero_pad_value (width : nat) (n : N) :
  ∃ d c s, zero_pad width (NilZero.string_of_uint (N.to_uint n)) = String c s
           ∧ Ascii.eqb c "-" = false
           ∧ NilEmpty.uint_of_string (String c s) = Some d
           ∧ Pos.of_uint d = n.
Proof.
  set (u := N.to_uint n).
  assert (Hu : u ≠ Decimal.Nil).
  { unfold u. destruct n; [discriminate|]. apply DecimalPos.Unsigned.to_uint_nonnil. }
  assert (Hs : NilZero.string_of_uint u = NilEmpty.string_of_uint u) by (by destruct u).
  assert (Hv : Pos.of_uint u = n) by apply DecimalN.Unsigned.of_to.
  rewrite Hs.
  destruct (zero_pad_cases width (NilEmpty.string_of_uint u)) as [-> | [k ->]].
  - exists u. pose proof (NilEmpty.usu u) as Hp.
    destruct u; try done; cbn [NilEmpty.string_of_uint] in *; eexists _, _; done.
  - destruct (uint_of_zeros (S k) _ _ (NilEmpty.usu u)) as (d' & Hd' & Hv').
    rewrite zeros_step in *. exists d'. eexists _, _.
    split; [reflexivity|]. split; [reflexivity|]. split; [done|congruence].
Qed.

(** The number in the file name can be read back. *)
Lemma format_03d_read_back (n : Z) :
  Z.of_int <$> NilZero.int_of_string (format_03d n) = Some n.
Proof.
  unfold format_03d. destruct (Z.ltb_spec n 0) as [Hneg|Hpos].
  - destruct (zero_pad_value 2 (Z.abs_N n)) as (d & c & s & -> & _ & Hd & Hv).
    change ("-" +:+ String c s) with (String "-" (String c s)).
    cbn [NilZero.int_of_string Ascii.eqb Bool.eqb NilZero.uint_of_string].
    rewrite Hd. cbn. unfold Z.of_uint. rewrite Hv. f_equal. lia.
  - destruct (zero_pad_value 3 (Z.abs_N n)) as (d & c & s & -> & Hc & Hd & Hv).
    cbn [NilZero.int_of_string NilZero.uint_of_string]. rewrite Hc, Hd.
    cbn. unfold Z.of_uint. rewrite Hv. f_equal. lia.
Qed.

Lemma format_03d_inj (a b : Z) : format_03d a = format_03d b → a = b.
Proof.
  intros H. pose proof (format_03d_read_back a) as Ha.
  rewrite H, format_03d_read_back in Ha. by injection Ha.
Qed.

(** X20.  Over the epochs [save_current_images] keeps overwriting
    [reals.png] and [fakes.png], while the fixed images accumulate: two
    calls at different epochs write to the same first two paths and to
    different third paths. *)
Theorem save_current_images_across_epochs (self : visualizer) (epoch1 epoch2 : Z)
    (reals1 fakes1 fixed1 reals2 fakes2 fixed2 : list Q) (w : world) :
  epoch1 ≠ epoch2 →
  ∃ real_path fake_path fixed_path1 fixed_path2,
    (save_current_images self epoch2 reals2 fakes2 fixed2
       (save_current_images self epoch1 reals1 fakes1 fixed1 w).2).2
    = World (arrays w) (stdout w)
        (files w ++ [SaveImage real_path reals1 true; SaveImage fake_path fakes1 true;
                     SaveImage fixed_path1 fixed1 true;
                     SaveImage real_path reals2 true; SaveImage fake_path fakes2 true;
                     SaveImage fixed_path2 fixed2 true])
        (board w)
    ∧ fixed_path1 ≠ fixed_path2.
Proof.
  intros Hne. eexists _, _, _, _. split.
  - unfold save_current_images, save_image, write_file, mbind, M_bind, bind.
    cbn [arrays stdout files board snd]. by rewrite <- !app_assoc.
  - intros H. apply Hne.
    apply String.app_inj, String.app_inj, string_app_inv_tail, format_03d_inj in H. lia.
Qed.

Lemma save_current_images_across_epochs_witness :
  ∃ w', (save_current_images (Build None "out") 1 [0]%Q [1]%Q [2]%Q
           (save_current_images (Build None "out") 0 [0]%Q [1]%Q [2]%Q w0).2).2 = w'
        ∧ (λ e, match e with SaveImage p _ _ => p | SaveFig p _ => p end) <$> files w'
          = ["out/reals.png"; "out/fakes.png"; "out/fixed_fakes_001.png";
             "out/reals.png"; "out/fakes.png"; "out/fixed_fakes_002.png"].
Proof.
  destruct (save_current_images_across_epochs (Build None "out") 0 1
              [0]%Q [1]%Q [2]%Q [0]%Q [1]%Q [2]%Q w0) as (p1 & p2 & p3 & p4 & Hrun & _);
    [done|].
  eexists. split; [reflexivity|]. reflexivity.
Defined.

End PathFacts.

(** ** The visualisation sink: the PR curve, the scalar plots and the log *)

Section ReportFacts.

Import Reports.

Lemma length_filter_lt {A} (P : A → Prop) `{!∀ x, Decision (P x)} (l : list A) :
  length (filter P l) < length l ↔ ∃ x, x ∈ l ∧ ¬ P x.
Proof.
  induction l as [|x l IH].
  - split; [simpl; lia|]. intros (x & Hx & _). by apply elem_of_nil in Hx.
  - rewrite filter_cons. pose proof (length_filter P l) as Hle.
    destruct (decide (P x)) as [Hx|Hx]; cbn [length].
    + split.
      * intros Hlt. destruct (proj1 IH ltac:(lia)) as (y & Hy & Hny).
        exists y. split; [by right|done].
      * intros (y & Hy & Hny). apply elem_of_cons in Hy as [->|Hy]; [done|].
        assert (length (filter P l) < length l) by (apply IH; eauto). lia.
    + split; [|lia]. intros _. exists x. split; [left|done].
Qed.

(** How [plot_pr_curve] runs on labels with both classes. *)
Lemma plot_pr_curve_run (self : Visualizer.visualizer) (labels : list bool)
    (scores thresholds : list Q) (global_step : Z) (s : session) :
  length labels = length scores → true ∈ labels → false ∈ labels →
  plot_pr_curve self labels scores thresholds global_step s =
    to_writer self
      (AddPrCurveRaw "Precision_recall_curve"
         (tp_at labels scores <$> retained scores thresholds)
         (fp_at labels scores <$> retained scores thresholds)
         (tn_at labels scores <$> retained scores thresholds)
         (fn_at labels scores <$> retained scores thresholds)
         (precision_at labels scores <$> retained scores thresholds)
         (recall_at labels scores <$> retained scores thresholds)
         (length thresholds) global_step)
      (Session (with_stdout (base s) (diagnostics scores thresholds)) (calls s) (texts s)).
Proof.
  intros Hlen Ht Hf. unfold plot_pr_curve, mbind, R_bind, in_world.
  rewrite get_values_for_pr_curve_ok; [reflexivity|].
  apply Forall_forall. intros t _. by apply two_by_two_of_labels.
Qed.

(** X21.  [plot_pr_curve] hands the sampler's outputs to the dashboard
    as they are: six sequences with one entry per threshold that was kept,
    announced under [num_thresholds] as one entry per threshold that was
    requested.  The sequences are shorter than announced exactly when some
    threshold collapses the predictions to one class; the diagnostics of
    those thresholds are on the standard output. *)
Theorem plot_pr_curve_forwards (self : Visualizer.visualizer) (tb : string)
    (labels : list bool) (scores thresholds : list Q) (global_step : Z) (s : session) :
  Visualizer.writer self = Some tb →
  length labels = length scores → true ∈ labels → false ∈ labels →
  let kept := retained scores thresholds in
  plot_pr_curve self labels scores thresholds global_step s =
    (Ok tt,
     Session (with_stdout (base s) (diagnostics scores thresholds))
             (calls s ++
                [AddPrCurveRaw "Precision_recall_curve"
                   (tp_at labels scores <$> kept) (fp_at labels scores <$> kept)
                   (tn_at labels scores <$> kept) (fn_at labels scores <$> kept)
                   (precision_at labels scores <$> kept) (recall_at labels scores <$> kept)
                   (length thresholds) global_step])
             (texts s))
  ∧ length kept + length (diagnostics scores thresholds) = length thresholds
  ∧ (length kept < length thresholds
     ↔ ∃ t, t ∈ thresholds ∧ one_class (binarize_at t scores)).
Proof.
  intros Hw Hlen Ht Hf kept.
  assert (Hne : scores ≠ []).
  { intros ->. destruct labels; [by apply elem_of_nil in Ht|discriminate]. }
  split; [|split].
  - rewrite plot_pr_curve_run by done. unfold to_writer. by rewrite Hw.
  - pose proof (diagnostics_length scores thresholds). unfold kept. lia.
  - unfold kept, retained. rewrite length_filter_lt.
    split; intros (t & Hin & Hs); exists t; (split; [done|]).
    + apply skipped_one_class; [done|].
      destruct (decide (skipped scores t)); [done|tauto].
    + intros Hn. apply Hn. by apply skipped_one_class.
Qed.

Lemma plot_pr_curve_forwards_witness :
  ∃ tp_counts,
    plot_pr_curve (Visualizer.Build (Some "tb") "out") [false; false; true; true]
      [0.1; 0.4; 0.35; 0.8]%Q [0.05; 0.2; 0.5; 0.9]%Q 4 s0
    = (Ok tt,
       Session
         (World ∅ ["y_preds_new did only contain the element 1... Continuing with next iteration!";
                   "y_preds_new did only contain the element 0... Continuing with next iteration!"]
                [] [])
         [AddPrCurveRaw "Precision_recall_curve" tp_counts [1; 0] [1; 2] [0; 1]
            [2 # 3; 1]%Q [2 # 2; 1 # 2]%Q 4 4] ∅)
    ∧ length tp_counts = 2.
Proof.
  destruct (plot_pr_curve_forwards (Visualizer.Build (Some "tb") "out") "tb"
              [false; false; true; true] [0.1; 0.4; 0.35; 0.8]%Q
              [0.05; 0.2; 0.5; 0.9]%Q 4 s0) as (Hrun & _ & _).
  - reflexivity.
  - reflexivity.
  - apply list_elem_of_In; simpl; tauto.
  - apply list_elem_of_In; simpl; tauto.
  - eexists. split; [rewrite Hrun; vm_compute; reflexivity|reflexivity].
Defined.

(** X22.  The three plotting methods need the dashboard writer.  Without
    it [plot_current_errors] and [plot_performance] raise
    [AttributeError] at once, and [plot_pr_curve] raises it after the
    sampler has run: the diagnostics of the sampler are printed, and
    nothing reaches the dashboard or the log. *)
Theorem plot_methods_without_writer (self : Visualizer.visualizer)
    (epoch total_steps global_step : Z) (counter_ratio : Q)
    (errors : list (string * Q)) (performance : list (string * metric_value))
    (labels : list bool) (scores thresholds : list Q) (s : session) :
  Visualizer.writer self = None →
  length labels = length scores → true ∈ labels → false ∈ labels →
  plot_current_errors self epoch total_steps errors s = (Raise AttributeError, s)
  ∧ plot_performance self epoch counter_ratio performance s = (Raise AttributeError, s)
  ∧ plot_pr_curve self labels scores thresholds global_step s =
      (Raise AttributeError,
       Session (with_stdout (base s) (diagnostics scores thresholds)) (calls s) (texts s)).
Proof.
  intros Hw Hlen Ht Hf. split; [|split].
  - unfold plot_current_errors, to_writer. by rewrite Hw.
  - unfold plot_performance, to_writer. by rewrite Hw.
  - rewrite plot_pr_curve_run by done. unfold to_writer. by rewrite Hw.
Qed.

Lemma plot_methods_without_writer_witness :
  plot_pr_curve (Visualizer.Build None "out") [false; true] [0.1; 0.8]%Q [0.05; 0.5]%Q 4 s0
  = (Raise AttributeError,
     Session
       (World ∅ ["y_preds_new did only contain the element 1... Continuing with next iteration!"]
              [] [])
       [] ∅).
Proof.
  destruct (plot_methods_without_writer (Visualizer.Build None "out") 1 2 4 0%Q
              [("err_d", 0.5%Q)] [("AUC", Number 0.9%Q)]
              [false; true] [0.1; 0.8]%Q [0.05; 0.5]%Q s0) as (_ & _ & Hrun).
  - reflexivity.
  - reflexivity.
  - apply list_elem_of_In; simpl; tauto.
  - apply list_elem_of_In; simpl; tauto.
  - rewrite Hrun. vm_compute. reflexivity.
Defined.

(** X23.  [plot_performance] plots every metric of the dictionary except
    the confusion matrix and the run time: the dictionary it hands to the
    dashboard holds, in their order, exactly the entries under a key other
    than ["conf_matrix"] and ["Avg Run Time (ms/batch)"], at the step given
    by the epoch. *)
Theorem plot_performance_forwards (self : Visualizer.visualizer) (tb : string)
    (epoch : Z) (counter_ratio : Q) (performance : list (string * metric_value))
    (s : session) :
  Visualizer.writer self = Some tb →
  ∃ plotted,
    plot_performance self epoch counter_ratio performance s =
      (Ok tt,
       Session (base s) (calls s ++ [AddScalars "Performance Metrics" plotted epoch])
               (texts s))
    ∧ plotted `sublist_of` performance
    ∧ ∀ key val,
        (key, val) ∈ plotted
        ↔ (key, val) ∈ performance
          ∧ key ≠ "conf_matrix" ∧ key ≠ "Avg Run Time (ms/batch)".
Proof.
  intros Hw. eexists. split; [|split].
  - unfold plot_performance, to_writer. rewrite Hw. reflexivity.
  - apply sublist_filter.
  - intros key val. rewrite list_elem_of_filter. cbn. tauto.
Qed.

Lemma plot_performance_forwards_witness :
  ∃ plotted,
    plot_performance (Visualizer.Build (Some "tb") "out") 7 (1 # 2)
      [("Avg Run Time (ms/batch)", Number 3.5%Q); ("AUC", Number 0.9%Q);
       ("conf_matrix", Matrix [[5; 1]; [2; 4]]); ("F1", Number 0.75%Q)] s0
    = (Ok tt, Session w0 [AddScalars "Performance Metrics" plotted 7] ∅)
    ∧ ("AUC", Number 0.9%Q) ∈ plotted
    ∧ ("conf_matrix", Matrix [[5; 1]; [2; 4]]) ∉ plotted.
Proof.
  destruct (plot_performance_forwards (Visualizer.Build (Some "tb") "out") "tb" 7 (1 # 2)
              [("Avg Run Time (ms/batch)", Number 3.5%Q); ("AUC", Number 0.9%Q);
               ("conf_matrix", Matrix [[5; 1]; [2; 4]]); ("F1", Number 0.75%Q)] s0)
    as (plotted & Hrun & _ & Hiff); [reflexivity|].
  exists plotted. split; [exact Hrun|]. split.
  - apply Hiff. split; [|done]. apply list_elem_of_In; simpl; tauto.
  - intros Hin. apply Hiff in Hin as (_ & Hk & _). done.
Defined.

Lemma string_app_nil_r (s : string) : s +:+ "" = s.
Proof.
  induction s as [|a s IH]; [done|].
  change (String a s +:+ "") with (String a (s +:+ "")). by rewrite IH.
Qed.

Lemma string_concat_cons (x : string) (l : list string) :
  String.concat "" (x :: l) = x +:+ String.concat "" l.
Proof. destruct l; [symmetry; apply string_app_nil_r|reflexivity]. Qed.

Lemma foldl_string_app {A} (f : A → string) (l : list A) (init : string) :
  foldl (λ message x, message +:+ f x) init l = init +:+ String.concat "" (f <$> l).
Proof.
  revert init. induction l as [|x l IH]; intros init.
  - cbn. by rewrite string_app_nil_r.
  - cbn [foldl]. rewrite IH, fmap_cons, string_concat_cons.
    by rewrite string_app_assoc.
Qed.

(** X24.  [print_current_errors] prints one line and appends that very
    line, closed by a newline, to the loss log; what the log held is kept in
    front of it, and the other files, the dashboard and the arrays are
    untouched.  The line names the epoch and the number of epochs and then
    lists the losses in the order of the dictionary, each with three
    decimals. *)
Theorem print_current_errors_logs (self : log_fields) (epoch : Z)
    (errors : list (string * Q)) (s : session) :
  ∃ line,
    print_current_errors self epoch errors s =
      (Ok tt,
       Session (with_stdout (base s) [line]) (calls s)
               (<[log_name self := (texts s !!! log_name self) +:+ line +:+ newline]>
                  (texts s)))
    ∧ line = "   Loss: [" +:+ str epoch +:+ "/" +:+ str (niter self) +:+ "] "
             +:+ String.concat ""
                   ((λ kv, kv.1 +:+ ": " +:+ format_3f kv.2 +:+ " ") <$> errors).
Proof.
  eexists. split; [reflexivity|].
  unfold errors_message.
  rewrite (foldl_string_app (λ kv : string * Q, kv.1 +:+ ": " +:+ format_3f kv.2 +:+ " ")).
  by rewrite !string_app_assoc.
Qed.

(** X25.  The loss log is append-only: two calls of [write_to_log_file]
    leave the earlier content of the log followed by the first text, a
    newline, the second text and a newline, and change nothing else. *)
Theorem write_to_log_file_twice (self : log_fields) (text1 text2 : string) (s : session) :
  (write_to_log_file self text2 (write_to_log_file self text1 s).2) =
    (Ok tt,
     Session (base s) (calls s)
             (<[log_name self :=
                  (texts s !!! log_name self) +:+ text1 +:+ newline +:+ text2 +:+ newline]>
                (texts s))).
Proof.
  unfold write_to_log_file, append_text. cbn [snd base calls texts].
  rewrite lookup_total_insert_eq, insert_insert_eq.
  by rewrite !string_app_assoc.
Qed.

End ReportFacts.

(** The line of the first losses of a run, as it is printed and logged. *)
Example print_current_errors_example :
  stdout (Reports.base
            (Reports.print_current_errors (Reports.LogFields "out/run/loss_log.txt" 15) 3
               [("err_d", 0.6931%Q); ("err_g", 1.25%Q); ("err_con", 0.0625%Q)]
               Reports.s0).2)
  = ["   Loss: [3/15] err_d: 0.693 err_g: 1.250 err_con: 0.062 "].
Proof. reflexivity. Qed.
